(** * The option-data enrichment pipeline of [03_multiple_files_spliting_option.py]

    A shallow embedding of [DuckDBProcessor] and [main].

    - The relations of the scratch database are lists of rows; every column
      is nullable, as in the [CREATE TABLE] statements, and [None] is NULL.
    - Each SQL statement is the function on relations it denotes.  The
      statement that decomposes the symbols casts text to numbers and builds
      dates: it stops with a conversion error, as the engine does, on a text
      that is no number and on a day the month does not have.
    - The Python control flow ([try]/[except]/[finally], the [and] chain of
      the stages, the loop over the input files) runs in a state-and-exception
      monad.  The state is the processor object and the world outside it
      (database files, exported artifacts, open sessions, log).
    - What the engine and the operating system may do wrong is given by an
      environment: it says of every call whether it raises, and what.  The
      environment also holds what the code takes from outside: the rows the
      three extraction statements select from an input file, the row an
      [UPDATE ... FROM] uses when several join, [os.path] and [glob]. *)

From Stdlib Require Import ZArith String Ascii List Lia Bool.
From Stdlib Require Import Sorting.Permutation Sorting.Sorted Sorting.Mergesort Orders.
From stdpp Require Import base option list gmap strings.

Local Open Scope string_scope.
Local Open Scope Z_scope.

(** ** SQL values

    A column value is [option]: [None] is SQL NULL.  A predicate evaluates to
    a three-valued truth value; [WHEN] and [WHERE] take a branch or keep a row
    only when it is true. *)

Definition sql_bool := option bool.

Definition holds (c : sql_bool) : bool :=
  match c with Some true => true | _ => false end.

Definition sql_le (a b : option Z) : sql_bool :=
  match a, b with
  | Some x, Some y => Some (x <=? y)
  | _, _ => None
  end.

Definition sql_ge (a b : option Z) : sql_bool := sql_le b a.

Definition sql_and (a b : sql_bool) : sql_bool :=
  match a, b with
  | Some false, _ | _, Some false => Some false
  | Some true, Some true => Some true
  | _, _ => None
  end.

(** [x BETWEEN lo AND hi] is [lo <= x AND x <= hi]. *)
Definition sql_between (x : option Z) (lo hi : Z) : sql_bool :=
  sql_and (sql_le (Some lo) x) (sql_le x (Some hi)).

Definition sql_eq_string (a b : option string) : sql_bool :=
  match a, b with
  | Some x, Some y => Some (String.eqb x y)
  | _, _ => None
  end.

(** [CASE WHEN c1 THEN v1 ... END] without [ELSE]: the first branch whose
    condition is true, NULL when there is none. *)
Fixpoint sql_case {A : Type} (branches : list (sql_bool * option A)) : option A :=
  match branches with
  | [] => None
  | (c, v) :: rest => if holds c then v else sql_case rest
  end.

(** ** Step 5.6: the moneyness table of [create_cal_data] *)

Definition moneyness (option_type : option string) (strdifference : option Z)
  : option string :=
  sql_case
    [ (sql_eq_string option_type (Some "CE"),
       sql_case
         [ (sql_le strdifference (Some (-501)), Some "DEEPITM");
           (sql_between strdifference (-500) (-451), Some "ATM-10");
           (sql_between strdifference (-450) (-401), Some "ATM-9");
           (sql_between strdifference (-400) (-351), Some "ATM-8");
           (sql_between strdifference (-350) (-301), Some "ATM-7");
           (sql_between strdifference (-300) (-251), Some "ATM-6");
           (sql_between strdifference (-250) (-201), Some "ATM-5");
           (sql_between strdifference (-200) (-151), Some "ATM-4");
           (sql_between strdifference (-150) (-101), Some "ATM-3");
           (sql_between strdifference (-100) (-51), Some "ATM-2");
           (sql_between strdifference (-50) 0, Some "ATM-1");
           (sql_between strdifference 0 50, Some "ATM");
           (sql_between strdifference 51 100, Some "ATM+1");
           (sql_between strdifference 101 150, Some "ATM+2");
           (sql_between strdifference 151 200, Some "ATM+3");
           (sql_between strdifference 201 250, Some "ATM+4");
           (sql_between strdifference 251 300, Some "ATM+5");
           (sql_between strdifference 301 350, Some "ATM+6");
           (sql_between strdifference 351 400, Some "ATM+7");
           (sql_between strdifference 401 450, Some "ATM+8");
           (sql_between strdifference 451 500, Some "ATM+9");
           (sql_between strdifference 501 550, Some "ATM+10");
           (sql_ge strdifference (Some 551), Some "DEEPOTM") ]);
      (sql_eq_string option_type (Some "PE"),
       sql_case
         [ (sql_le strdifference (Some (-501)), Some "DEEPOTM");
           (sql_between strdifference (-500) (-451), Some "ATM+10");
           (sql_between strdifference (-450) (-401), Some "ATM+9");
           (sql_between strdifference (-400) (-351), Some "ATM+8");
           (sql_between strdifference (-350) (-301), Some "ATM+7");
           (sql_between strdifference (-300) (-251), Some "ATM+6");
           (sql_between strdifference (-250) (-201), Some "ATM+5");
           (sql_between strdifference (-200) (-151), Some "ATM+4");
           (sql_between strdifference (-150) (-101), Some "ATM+3");
           (sql_between strdifference (-100) (-51), Some "ATM+2");
           (sql_between strdifference (-50) 0, Some "ATM+1");
           (sql_between strdifference 0 50, Some "ATM");
           (sql_between strdifference 51 100, Some "ATM-1");
           (sql_between strdifference 101 150, Some "ATM-2");
           (sql_between strdifference 151 200, Some "ATM-3");
           (sql_between strdifference 201 250, Some "ATM-4");
           (sql_between strdifference 251 300, Some "ATM-5");
           (sql_between strdifference 301 350, Some "ATM-6");
           (sql_between strdifference 351 400, Some "ATM-7");
           (sql_between strdifference 401 450, Some "ATM-8");
           (sql_between strdifference 451 500, Some "ATM-9");
           (sql_between strdifference 501 550, Some "ATM-10");
           (sql_ge strdifference (Some 551), Some "DEEPITM") ]) ].

(** The label texts, by level [k] in 1..10. *)
Definition level_text (k : Z) : string :=
  match k with
  | 1 => "1" | 2 => "2" | 3 => "3" | 4 => "4" | 5 => "5"
  | 6 => "6" | 7 => "7" | 8 => "8" | 9 => "9" | 10 => "10"
  | _ => "?"
  end.

Definition atm_plus (k : Z) : string := String.append "ATM+" (level_text k).
Definition atm_minus (k : Z) : string := String.append "ATM-" (level_text k).

Definition levels : list Z := [1; 2; 3; 4; 5; 6; 7; 8; 9; 10].

(** The 23 bucket labels. *)
Definition bucket_labels : list string :=
  ["DEEPITM"; "DEEPOTM"; "ATM"] ++ map atm_minus levels ++ map atm_plus levels.


(** The mirror of a label: ATM+k and ATM-k change places, so do the two
    extremes, ATM stays. *)
Definition mirror_table : list (string * string) :=
  [("DEEPITM", "DEEPOTM"); ("DEEPOTM", "DEEPITM"); ("ATM", "ATM")]
  ++ map (fun k => (atm_minus k, atm_plus k)) levels
  ++ map (fun k => (atm_plus k, atm_minus k)) levels.

Fixpoint assoc_string (l : string) (table : list (string * string)) : option string :=
  match table with
  | [] => None
  | (a, b) :: rest => if String.eqb l a then Some b else assoc_string l rest
  end.

Definition mirror_label (l : string) : string :=
  match assoc_string l mirror_table with Some m => m | None => l end.

(** Equality of labels and of their mirrors, decided on the whole table. *)
Definition mirror_agrees (l a b : string) : bool :=
  Bool.eqb (String.eqb l a) (String.eqb (mirror_label l) b).

(** ** The relations of the scratch database ([setup_database])

    A DATE is a calendar triple, a TIME the seconds after midnight. *)

Record sql_date := mkdate { year : Z; month : Z; day : Z }.
Definition sql_time := Z.

#[global] Instance sql_date_eq_dec : EqDecision sql_date.
Proof. solve_decision. Defined.

Definition sql_eq {A : Type} `{EqDecision A} (a b : option A) : sql_bool :=
  match a, b with
  | Some x, Some y => Some (bool_decide (x = y))
  | _, _ => None
  end.

(** Table [options]. *)
Module Options.
Record row := mk {
    symbol : option string;
    date : option sql_date;
    time : option sql_time;
    open : option Z;
    high : option Z;
    low : option Z;
    close : option Z;
    volume : option Z;
    oi : option Z
  }.
End Options.

(** Table [index_data]. *)
Module IndexData.
Record row := mk {
    date : option sql_date;
    time : option sql_time;
    idx_open : option Z;
    idx_high : option Z;
    idx_low : option Z;
    idx_close : option Z
  }.
End IndexData.

(** Table [future_data]. *)
Module FutureData.
Record row := mk {
    date : option sql_date;
    time : option sql_time;
    fut_open : option Z;
    fut_high : option Z;
    fut_low : option Z;
    fut_close : option Z;
    fut_volume : option Z;
    fut_oi : option Z
  }.
End FutureData.

(** Table [splits]. *)
Module Splits.
Record row := mk {
    symbol : option string;
    instrument : option string;
    expiry_date : option sql_date;
    strike_price : option Z;
    option_type : option string;
    date : option sql_date
  }.
End Splits.

(** Table [cal_data]. *)
Module CalData.
Record row := mk {
    symbol : option string;
    instrument : option string;
    expiry_date : option sql_date;
    date : option sql_date;
    time : option sql_time;
    expiry_day : option Z;
    strike_price : option Z;
    option_type : option string;
    spot : option Z;
    strdifference : option Z;
    dte : option Z;
    open : option Z;
    high : option Z;
    low : option Z;
    close : option Z;
    volume : option Z;
    oi : option Z;
    moneyness : option string;
    idx_open : option Z;
    idx_high : option Z;
    idx_low : option Z;
    idx_close : option Z;
    fut_open : option Z;
    fut_high : option Z;
    fut_low : option Z;
    fut_close : option Z;
    fut_volume : option Z;
    fut_oi : option Z
  }.
End CalData.

#[global] Instance splits_row_eq_dec : EqDecision Splits.row.
Proof. solve_decision. Defined.

Record database := mkdb {
  options : list Options.row;
  index_data : list IndexData.row;
  future_data : list FutureData.row;
  splits : list Splits.row;
  cal_data : list CalData.row
}.

(** The schema of a fresh scratch file: five empty relations. *)
Definition empty_database : database := mkdb [] [] [] [] [].

(** [information_schema.tables] and [SELECT COUNT( * ) FROM table]: the row
    count of a relation of the schema, [None] for any other name. *)
Definition table_count (db : database) (table_name : string) : option Z :=
  if String.eqb table_name "options" then Some (Z.of_nat (length (options db)))
  else if String.eqb table_name "index_data" then Some (Z.of_nat (length (index_data db)))
  else if String.eqb table_name "future_data" then Some (Z.of_nat (length (future_data db)))
  else if String.eqb table_name "splits" then Some (Z.of_nat (length (splits db)))
  else if String.eqb table_name "cal_data" then Some (Z.of_nat (length (cal_data db)))
  else None.

(** ** The symbol grammar of [create_split_data]

    [regexp_extract(symbol, '([A-Z]+)(\d{2})([A-Z]{3})(\d{2})(\d+)(PE|CE)', n)]
    searches the symbol for the leftmost match.  In this pattern every
    repetition is followed by a different character class (letters by a
    digit, digits by [P] or [C]), so the only run that can match is the
    maximal one and the matcher reads the six groups left to right. *)

Definition is_upper (c : ascii) : bool :=
  let n := nat_of_ascii c in (65 <=? n)%nat && (n <=? 90)%nat.

Definition is_digit (c : ascii) : bool :=
  let n := nat_of_ascii c in (48 <=? n)%nat && (n <=? 57)%nat.

(** The longest prefix of characters of a class, and the rest. *)
Fixpoint span (p : ascii -> bool) (s : string) : string * string :=
  match s with
  | String c s' =>
      if p c then let (run, rest) := span p s' in (String c run, rest)
      else (EmptyString, s)
  | EmptyString => (EmptyString, EmptyString)
  end.

(** Exactly [n] characters of a class. *)
Fixpoint take_class (n : nat) (p : ascii -> bool) (s : string)
  : option (string * string) :=
  match n with
  | O => Some (EmptyString, s)
  | S n' =>
      match s with
      | String c s' =>
          if p c then
            match take_class n' p s' with
            | Some (run, rest) => Some (String c run, rest)
            | None => None
            end
          else None
      | EmptyString => None
      end
  end.

Record groups := mkgroups {
  g_instrument : string;
  g_day : string;
  g_month : string;
  g_year : string;
  g_strike : string;
  g_type : string
}.

(** A match of the whole pattern starting at the first character. *)
Definition match_here (s : string) : option groups :=
  let (g1, r1) := span is_upper s in
  if String.eqb g1 "" then None else
  match take_class 2 is_digit r1 with
  | None => None
  | Some (g2, r2) =>
  match take_class 3 is_upper r2 with
  | None => None
  | Some (g3, r3) =>
  match take_class 2 is_digit r3 with
  | None => None
  | Some (g4, r4) =>
  let (g5, r5) := span is_digit r4 in
  if String.eqb g5 "" then None else
  if String.prefix "PE" r5 then Some (mkgroups g1 g2 g3 g4 g5 "PE")
  else if String.prefix "CE" r5 then Some (mkgroups g1 g2 g3 g4 g5 "CE")
  else None
  end end end.

(** The leftmost match anywhere in the symbol. *)
Fixpoint regexp_search (s : string) : option groups :=
  match match_here s with
  | Some g => Some g
  | None =>
      match s with
      | String _ s' => regexp_search s'
      | EmptyString => None
      end
  end.

Definition group_text (g : groups) (n : nat) : option string :=
  match n with
  | 1 => Some (g_instrument g)
  | 2 => Some (g_day g)
  | 3 => Some (g_month g)
  | 4 => Some (g_year g)
  | 5 => Some (g_strike g)
  | 6 => Some (g_type g)
  | _ => None
  end%nat.

(** [regexp_extract]: group [n] of the leftmost match, the empty string
    when the pattern matches nowhere in the symbol, NULL for a NULL
    symbol. *)
Definition regexp_extract (symbol : option string) (n : nat) : option string :=
  match symbol with
  | Some s =>
      match regexp_search s with
      | Some g => group_text g n
      | None => Some ""
      end
  | None => None
  end.

(** A scalar function of the engine either yields a value (which may be
    NULL) or stops the statement with a conversion error. *)
Inductive conversion (A : Type) : Type :=
| Converted (a : A)
| ConversionError (message : string).
Arguments Converted {A} a.
Arguments ConversionError {A} message.

#[global] Instance conversion_ret : MRet conversion := fun A a => Converted a.
#[global] Instance conversion_bind : MBind conversion := fun A B k m =>
  match m with
  | Converted a => k a
  | ConversionError message => ConversionError message
  end.

(** Every character of the string is of the class. *)
Fixpoint all_class (p : ascii -> bool) (s : string) : bool :=
  match s with
  | EmptyString => true
  | String c s' => p c && all_class p s'
  end.

(** [CAST(text AS INTEGER)].  The texts this statement casts are groups of
    the pattern, so each is a run of decimal digits or, for a symbol
    without a match, the empty string: a run of digits is its value when
    the value fits 32 bits, and anything else is no number. *)
Definition digit_value (c : ascii) : Z := Z.of_nat (nat_of_ascii c) - 48.

Fixpoint decimal_from (acc : Z) (s : string) : Z :=
  match s with
  | String c s' => decimal_from (10 * acc + digit_value c) s'
  | EmptyString => acc
  end.

Definition int32_max : Z := 2147483647.

Definition is_decimal (s : string) : bool :=
  negb (String.eqb s "") && all_class is_digit s.

Definition cast_integer (text : option string) : conversion (option Z) :=
  match text with
  | Some s =>
      if is_decimal s && (decimal_from 0 s <=? int32_max)
      then Converted (Some (decimal_from 0 s))
      else ConversionError
             (String.append "Could not convert string '"
                (String.append s "' to INT32"))
  | None => Converted None
  end.

(** [symbol LIKE 'NIFTY%']. *)
Definition like_NIFTY (symbol : option string) : sql_bool :=
  match symbol with
  | Some s => Some (String.prefix "NIFTY" s)
  | None => None
  end.

(** [CASE month WHEN 'JAN' THEN 1 ... WHEN 'DEC' THEN 12 END]. *)
Definition month_number (month : option string) : option Z :=
  sql_case
    [ (sql_eq_string month (Some "JAN"), Some 1);
      (sql_eq_string month (Some "FEB"), Some 2);
      (sql_eq_string month (Some "MAR"), Some 3);
      (sql_eq_string month (Some "APR"), Some 4);
      (sql_eq_string month (Some "MAY"), Some 5);
      (sql_eq_string month (Some "JUN"), Some 6);
      (sql_eq_string month (Some "JUL"), Some 7);
      (sql_eq_string month (Some "AUG"), Some 8);
      (sql_eq_string month (Some "SEP"), Some 9);
      (sql_eq_string month (Some "OCT"), Some 10);
      (sql_eq_string month (Some "NOV"), Some 11);
      (sql_eq_string month (Some "DEC"), Some 12) ].

(** [make_date(y, m, d)]: NULL as soon as one argument is; a day the
    month does not have is out of range. *)
Definition is_leap_year (y : Z) : bool :=
  ((y mod 4 =? 0) && negb (y mod 100 =? 0)) || (y mod 400 =? 0).

Definition days_in_month (y m : Z) : Z :=
  if m =? 2 then (if is_leap_year y then 29 else 28)
  else if (m =? 4) || (m =? 6) || (m =? 9) || (m =? 11) then 30
  else 31.

Definition make_date (y m d : option Z) : conversion (option sql_date) :=
  match y, m, d with
  | Some y', Some m', Some d' =>
      if (1 <=? m') && (m' <=? 12) && (1 <=? d') && (d' <=? days_in_month y' m')
      then Converted (Some (mkdate y' m' d'))
      else ConversionError "Date out of range"
  | _, _, _ => Converted None
  end.

Definition sql_add (a b : option Z) : option Z :=
  match a, b with
  | Some x, Some y => Some (x + y)
  | _, _ => None
  end.

Definition sql_sub (a b : option Z) : option Z :=
  match a, b with
  | Some x, Some y => Some (x - y)
  | _, _ => None
  end.

Definition is_not_null {A : Type} (a : option A) : bool :=
  match a with Some _ => true | None => false end.

(** A row of the [parsed_symbols] common table expression. *)
Record parsed_symbol := mkparsed {
  p_symbol : option string;
  p_instrument : option string;
  p_day : option string;
  p_month : option string;
  p_year : option string;
  p_strike_price : option Z;
  p_option_type : option string;
  p_date : option sql_date
}.

#[global] Instance parsed_symbol_eq_dec : EqDecision parsed_symbol.
Proof. solve_decision. Defined.

Definition parse_option_row (o : Options.row) : conversion parsed_symbol :=
  let symbol := Options.symbol o in
  strike_price ← cast_integer (regexp_extract symbol 5);
  mret (mkparsed symbol
          (regexp_extract symbol 1)
          (regexp_extract symbol 2)
          (regexp_extract symbol 3)
          (regexp_extract symbol 4)
          strike_price
          (regexp_extract symbol 6)
          (Options.date o)).

(** [SELECT DISTINCT ... FROM options WHERE symbol LIKE 'NIFTY%']. *)
Definition candidates (opts : list Options.row) : list Options.row :=
  filter (fun o => holds (like_NIFTY (Options.symbol o)) = true) opts.

Definition parsed_symbols (opts : list Options.row)
  : conversion (list parsed_symbol) :=
  rows ← mapM parse_option_row (candidates opts);
  mret (remove_dups rows).

Definition fully_parsed (p : parsed_symbol) : bool :=
  is_not_null (p_instrument p) && is_not_null (p_day p)
  && is_not_null (p_month p) && is_not_null (p_year p)
  && is_not_null (p_strike_price p) && is_not_null (p_option_type p).

Definition split_of_parsed (p : parsed_symbol) : conversion Splits.row :=
  year ← cast_integer (p_year p);
  day ← cast_integer (p_day p);
  expiry_date ← make_date (sql_add (Some 2000) year) (month_number (p_month p)) day;
  mret (Splits.mk (p_symbol p) (p_instrument p) expiry_date
          (p_strike_price p) (p_option_type p) (p_date p)).

(** The rows the [INSERT INTO splits] statement adds; a conversion error
    on any row stops the statement, which then adds nothing. *)
Definition new_splits (opts : list Options.row) : conversion (list Splits.row) :=
  parsed ← parsed_symbols opts;
  mapM split_of_parsed (filter (fun p => fully_parsed p = true) parsed).

Definition insert_splits (db : database) : conversion database :=
  rows ← new_splits (options db);
  mret (mkdb (options db) (index_data db) (future_data db)
          (splits db ++ rows) (cal_data db)).

(** [options o LEFT JOIN splits s ON o.symbol = s.symbol
     WHERE o.symbol LIKE 'NIFTY%' AND s.symbol IS NULL]: the candidate
    option rows without any split row of their symbol. *)
Definition has_split (spl : list Splits.row) (o : Options.row) : bool :=
  existsb (fun s => holds (sql_eq (Options.symbol o) (Splits.symbol s))) spl.

Definition unparsed_rows (db : database) : list Options.row :=
  filter (fun o => holds (like_NIFTY (Options.symbol o))
                   && negb (has_split (splits db) o) = true) (options db).

Definition failed_count (db : database) : Z :=
  Z.of_nat (length (unparsed_rows db)).

(** [SELECT DISTINCT o.symbol ... LIMIT 5], then [[s[0] for s in ...]]. *)
Definition failed_symbols (db : database) : list (option string) :=
  take 5 (remove_dups (Options.symbol <$> unparsed_rows db)).

(** The pair that identifies a split row. *)
Definition split_key (r : Splits.row) : option string * option sql_date :=
  (Splits.symbol r, Splits.date r).

(** The grammar in the words of its description: a symbol read from its
    first character is INSTRUMENT (one or more capital letters), DAY (two
    digits), MONTH (three capital letters), YEAR (two digits), STRIKE (one or
    more digits), TYPE (PE or CE), and whatever follows. *)
Definition grammar_at (s : string) (g : groups) (rest : string) : Prop :=
  s = String.append (g_instrument g)
        (String.append (g_day g)
           (String.append (g_month g)
              (String.append (g_year g)
                 (String.append (g_strike g) (String.append (g_type g) rest)))))
  /\ g_instrument g <> "" /\ all_class is_upper (g_instrument g) = true
  /\ String.length (g_day g) = 2%nat /\ all_class is_digit (g_day g) = true
  /\ String.length (g_month g) = 3%nat /\ all_class is_upper (g_month g) = true
  /\ String.length (g_year g) = 2%nat /\ all_class is_digit (g_year g) = true
  /\ g_strike g <> "" /\ all_class is_digit (g_strike g) = true
  /\ (g_type g = "PE" \/ g_type g = "CE").

(** A string that does not start with a character of the class. *)
Definition stops (p : ascii -> bool) (s : string) : Prop :=
  match s with
  | EmptyString => True
  | String c _ => p c = false
  end.

(** ** The statements of [create_cal_data] *)

(** Calendar arithmetic of the engine: the day number of a date (days since
    1970-01-01), for [date_diff('day', a, b)] and [extract('dow' from d)]
    (Sunday is 0). *)
Definition days_from_civil (d : sql_date) : Z :=
  let y := if month d <=? 2 then year d - 1 else year d in
  let era := y / 400 in
  let yoe := y - era * 400 in
  let mp := if month d <=? 2 then month d + 9 else month d - 3 in
  let doy := (153 * mp + 2) / 5 + day d - 1 in
  let doe := yoe * 365 + yoe / 4 - yoe / 100 + doy in
  era * 146097 + doe - 719468.

Definition extract_dow (d : option sql_date) : option Z :=
  (fun x => (days_from_civil x + 4) mod 7) <$> d.

Definition date_diff_day (a b : option sql_date) : option Z :=
  sql_sub (days_from_civil <$> b) (days_from_civil <$> a).

(** Step 5.1: the nine base columns of an option row, every other column
    NULL. *)
Definition seed_row (o : Options.row) : CalData.row :=
  {| CalData.symbol := Options.symbol o;
     CalData.instrument := None;
     CalData.expiry_date := None;
     CalData.date := Options.date o;
     CalData.time := Options.time o;
     CalData.expiry_day := None;
     CalData.strike_price := None;
     CalData.option_type := None;
     CalData.spot := None;
     CalData.strdifference := None;
     CalData.dte := None;
     CalData.open := Options.open o;
     CalData.high := Options.high o;
     CalData.low := Options.low o;
     CalData.close := Options.close o;
     CalData.volume := Options.volume o;
     CalData.oi := Options.oi o;
     CalData.moneyness := None;
     CalData.idx_open := None;
     CalData.idx_high := None;
     CalData.idx_low := None;
     CalData.idx_close := None;
     CalData.fut_open := None;
     CalData.fut_high := None;
     CalData.fut_low := None;
     CalData.fut_close := None;
     CalData.fut_volume := None;
     CalData.fut_oi := None |}.

(** The [SET] clauses of the five [UPDATE] statements, on one row. *)
Definition set_split_columns (s : Splits.row) (r : CalData.row) : CalData.row :=
  {| CalData.symbol := CalData.symbol r;
     CalData.instrument := Splits.instrument s;
     CalData.expiry_date := Splits.expiry_date s;
     CalData.date := CalData.date r;
     CalData.time := CalData.time r;
     CalData.expiry_day := CalData.expiry_day r;
     CalData.strike_price := Splits.strike_price s;
     CalData.option_type := Splits.option_type s;
     CalData.spot := CalData.spot r;
     CalData.strdifference := CalData.strdifference r;
     CalData.dte := CalData.dte r;
     CalData.open := CalData.open r;
     CalData.high := CalData.high r;
     CalData.low := CalData.low r;
     CalData.close := CalData.close r;
     CalData.volume := CalData.volume r;
     CalData.oi := CalData.oi r;
     CalData.moneyness := CalData.moneyness r;
     CalData.idx_open := CalData.idx_open r;
     CalData.idx_high := CalData.idx_high r;
     CalData.idx_low := CalData.idx_low r;
     CalData.idx_close := CalData.idx_close r;
     CalData.fut_open := CalData.fut_open r;
     CalData.fut_high := CalData.fut_high r;
     CalData.fut_low := CalData.fut_low r;
     CalData.fut_close := CalData.fut_close r;
     CalData.fut_volume := CalData.fut_volume r;
     CalData.fut_oi := CalData.fut_oi r |}.

Definition set_index_columns (i : IndexData.row) (r : CalData.row) : CalData.row :=
  {| CalData.symbol := CalData.symbol r;
     CalData.instrument := CalData.instrument r;
     CalData.expiry_date := CalData.expiry_date r;
     CalData.date := CalData.date r;
     CalData.time := CalData.time r;
     CalData.expiry_day := CalData.expiry_day r;
     CalData.strike_price := CalData.strike_price r;
     CalData.option_type := CalData.option_type r;
     CalData.spot := IndexData.idx_close i;
     CalData.strdifference := CalData.strdifference r;
     CalData.dte := CalData.dte r;
     CalData.open := CalData.open r;
     CalData.high := CalData.high r;
     CalData.low := CalData.low r;
     CalData.close := CalData.close r;
     CalData.volume := CalData.volume r;
     CalData.oi := CalData.oi r;
     CalData.moneyness := CalData.moneyness r;
     CalData.idx_open := IndexData.idx_open i;
     CalData.idx_high := IndexData.idx_high i;
     CalData.idx_low := IndexData.idx_low i;
     CalData.idx_close := IndexData.idx_close i;
     CalData.fut_open := CalData.fut_open r;
     CalData.fut_high := CalData.fut_high r;
     CalData.fut_low := CalData.fut_low r;
     CalData.fut_close := CalData.fut_close r;
     CalData.fut_volume := CalData.fut_volume r;
     CalData.fut_oi := CalData.fut_oi r |}.

Definition set_future_columns (f : FutureData.row) (r : CalData.row) : CalData.row :=
  {| CalData.symbol := CalData.symbol r;
     CalData.instrument := CalData.instrument r;
     CalData.expiry_date := CalData.expiry_date r;
     CalData.date := CalData.date r;
     CalData.time := CalData.time r;
     CalData.expiry_day := CalData.expiry_day r;
     CalData.strike_price := CalData.strike_price r;
     CalData.option_type := CalData.option_type r;
     CalData.spot := CalData.spot r;
     CalData.strdifference := CalData.strdifference r;
     CalData.dte := CalData.dte r;
     CalData.open := CalData.open r;
     CalData.high := CalData.high r;
     CalData.low := CalData.low r;
     CalData.close := CalData.close r;
     CalData.volume := CalData.volume r;
     CalData.oi := CalData.oi r;
     CalData.moneyness := CalData.moneyness r;
     CalData.idx_open := CalData.idx_open r;
     CalData.idx_high := CalData.idx_high r;
     CalData.idx_low := CalData.idx_low r;
     CalData.idx_close := CalData.idx_close r;
     CalData.fut_open := FutureData.fut_open f;
     CalData.fut_high := FutureData.fut_high f;
     CalData.fut_low := FutureData.fut_low f;
     CalData.fut_close := FutureData.fut_close f;
     CalData.fut_volume := FutureData.fut_volume f;
     CalData.fut_oi := FutureData.fut_oi f |}.

Definition set_derived_columns (r : CalData.row) : CalData.row :=
  {| CalData.symbol := CalData.symbol r;
     CalData.instrument := CalData.instrument r;
     CalData.expiry_date := CalData.expiry_date r;
     CalData.date := CalData.date r;
     CalData.time := CalData.time r;
     CalData.expiry_day := extract_dow (CalData.expiry_date r);
     CalData.strike_price := CalData.strike_price r;
     CalData.option_type := CalData.option_type r;
     CalData.spot := CalData.spot r;
     CalData.strdifference := sql_sub (CalData.strike_price r) (CalData.spot r);
     CalData.dte := date_diff_day (CalData.date r) (CalData.expiry_date r);
     CalData.open := CalData.open r;
     CalData.high := CalData.high r;
     CalData.low := CalData.low r;
     CalData.close := CalData.close r;
     CalData.volume := CalData.volume r;
     CalData.oi := CalData.oi r;
     CalData.moneyness := CalData.moneyness r;
     CalData.idx_open := CalData.idx_open r;
     CalData.idx_high := CalData.idx_high r;
     CalData.idx_low := CalData.idx_low r;
     CalData.idx_close := CalData.idx_close r;
     CalData.fut_open := CalData.fut_open r;
     CalData.fut_high := CalData.fut_high r;
     CalData.fut_low := CalData.fut_low r;
     CalData.fut_close := CalData.fut_close r;
     CalData.fut_volume := CalData.fut_volume r;
     CalData.fut_oi := CalData.fut_oi r |}.

Definition set_moneyness (r : CalData.row) : CalData.row :=
  {| CalData.symbol := CalData.symbol r;
     CalData.instrument := CalData.instrument r;
     CalData.expiry_date := CalData.expiry_date r;
     CalData.date := CalData.date r;
     CalData.time := CalData.time r;
     CalData.expiry_day := CalData.expiry_day r;
     CalData.strike_price := CalData.strike_price r;
     CalData.option_type := CalData.option_type r;
     CalData.spot := CalData.spot r;
     CalData.strdifference := CalData.strdifference r;
     CalData.dte := CalData.dte r;
     CalData.open := CalData.open r;
     CalData.high := CalData.high r;
     CalData.low := CalData.low r;
     CalData.close := CalData.close r;
     CalData.volume := CalData.volume r;
     CalData.oi := CalData.oi r;
     CalData.moneyness :=
       moneyness (CalData.option_type r) (CalData.strdifference r);
     CalData.idx_open := CalData.idx_open r;
     CalData.idx_high := CalData.idx_high r;
     CalData.idx_low := CalData.idx_low r;
     CalData.idx_close := CalData.idx_close r;
     CalData.fut_open := CalData.fut_open r;
     CalData.fut_high := CalData.fut_high r;
     CalData.fut_low := CalData.fut_low r;
     CalData.fut_close := CalData.fut_close r;
     CalData.fut_volume := CalData.fut_volume r;
     CalData.fut_oi := CalData.fut_oi r |}.

(** The nine columns step 5.1 copies from [options]. *)
Definition base_columns (r : CalData.row) : Options.row :=
  Options.mk (CalData.symbol r) (CalData.date r) (CalData.time r)
    (CalData.open r) (CalData.high r) (CalData.low r) (CalData.close r)
    (CalData.volume r) (CalData.oi r).

Definition with_cal_data (db : database) (rows : list CalData.row) : database :=
  mkdb (options db) (index_data db) (future_data db) (splits db) rows.

Section Enrichment.
  (** [UPDATE t SET ... FROM s WHERE join] changes every row of [t] that
      joins a row of [s]; when several rows of [s] join, the engine uses one
      of them and does not say which: [tie_break] is that choice. *)
Variable tie_break : forall A : Type, list A -> option A.

Definition update_from {S : Type} (joins : CalData.row -> S -> bool)
      (set : S -> CalData.row -> CalData.row)
      (source : list S) (r : CalData.row) : CalData.row :=
    match tie_break S (filter (fun s => joins r s = true) source) with
    | Some s => set s r
    | None => r
    end.

Definition joins_split (r : CalData.row) (s : Splits.row) : bool :=
    holds (sql_eq (CalData.symbol r) (Splits.symbol s)).

Definition joins_index (r : CalData.row) (i : IndexData.row) : bool :=
    holds (sql_and (sql_eq (CalData.date r) (IndexData.date i))
                   (sql_eq (CalData.time r) (IndexData.time i))).

Definition joins_future (r : CalData.row) (f : FutureData.row) : bool :=
    holds (sql_and (sql_eq (CalData.date r) (FutureData.date f))
                   (sql_eq (CalData.time r) (FutureData.time f))).

  (** Steps 5.1 to 5.6, one statement each. *)
Definition populate_cal_data (db : database) : database :=
    with_cal_data db (cal_data db ++ (seed_row <$> options db)).

Definition update_with_splits (db : database) : database :=
    with_cal_data db
      (update_from joins_split set_split_columns (splits db) <$> cal_data db).

Definition update_with_index (db : database) : database :=
    with_cal_data db
      (update_from joins_index set_index_columns (index_data db) <$> cal_data db).

Definition update_with_future (db : database) : database :=
    with_cal_data db
      (update_from joins_future set_future_columns (future_data db) <$> cal_data db).

Definition update_derived (db : database) : database :=
    with_cal_data db (set_derived_columns <$> cal_data db).

Definition update_moneyness (db : database) : database :=
    with_cal_data db (set_moneyness <$> cal_data db).
End Enrichment.

(** ** The statements of [filter_and_export] *)

(** [moneyness IN ('DEEPITM', 'DEEPOTM')]; NULL for a NULL bucket. *)
Definition sql_or (a b : sql_bool) : sql_bool :=
  match a, b with
  | Some true, _ | _, Some true => Some true
  | Some false, Some false => Some false
  | _, _ => None
  end.

Definition is_deep (r : CalData.row) : bool :=
  holds (sql_or (sql_eq_string (CalData.moneyness r) (Some "DEEPITM"))
                (sql_eq_string (CalData.moneyness r) (Some "DEEPOTM"))).

Definition delete_deep (db : database) : database :=
  with_cal_data db (filter (fun r => is_deep r = false) (cal_data db)).

(** [ORDER BY date, time, symbol], ascending, NULLs last, text compared
    character by character. *)
Definition compare_option {A : Type} (cmp : A -> A -> comparison)
    (a b : option A) : comparison :=
  match a, b with
  | Some x, Some y => cmp x y
  | Some _, None => Lt
  | None, Some _ => Gt
  | None, None => Eq
  end.

Definition then_by (c1 c2 : comparison) : comparison :=
  match c1 with Eq => c2 | _ => c1 end.

Definition compare_date (a b : sql_date) : comparison :=
  then_by (year a ?= year b)
    (then_by (month a ?= month b) (day a ?= day b)).

Definition compare_export_key (a b : CalData.row) : comparison :=
  then_by (compare_option compare_date (CalData.date a) (CalData.date b))
    (then_by (compare_option Z.compare (CalData.time a) (CalData.time b))
       (compare_option String.compare (CalData.symbol a) (CalData.symbol b))).

Lemma then_by_antisym (c1 c2 d1 d2 : comparison) :
  d1 = CompOpp c1 -> d2 = CompOpp c2 -> then_by d1 d2 = CompOpp (then_by c1 c2).
Proof. intros -> ->. destruct c1; reflexivity. Qed.

Lemma compare_option_antisym {A : Type} (cmp : A -> A -> comparison) :
  (forall x y, cmp y x = CompOpp (cmp x y)) ->
  forall a b, compare_option cmp b a = CompOpp (compare_option cmp a b).
Proof. intros H [x|] [y|]; cbn; auto. Qed.

Lemma compare_date_antisym (a b : sql_date) :
  compare_date b a = CompOpp (compare_date a b).
Proof.
  unfold compare_date.
  repeat apply then_by_antisym; apply Z.compare_antisym.
Qed.

Lemma compare_export_key_antisym (a b : CalData.row) :
  compare_export_key b a = CompOpp (compare_export_key a b).
Proof.
  unfold compare_export_key. repeat apply then_by_antisym.
  - apply compare_option_antisym, compare_date_antisym.
  - apply compare_option_antisym. intros; apply Z.compare_antisym.
  - apply compare_option_antisym. intros; apply String.compare_antisym.
Qed.

Module ExportOrder <: TotalLeBool.
Definition t := CalData.row.
Definition leb (a b : t) : bool :=
    match compare_export_key a b with Gt => false | _ => true end.
Lemma leb_total (a b : t) : leb a b = true \/ leb b a = true.
Proof.
  unfold leb. rewrite (compare_export_key_antisym a b).
  destruct (compare_export_key a b); cbn; auto.
Qed.
End ExportOrder.

Module ExportSort := Sort ExportOrder.

(** The rows [COPY (SELECT * FROM cal_data ORDER BY date, time, symbol)]
    writes. *)
Definition export_rows (db : database) : list CalData.row :=
  ExportSort.sort (cal_data db).

(** ** The processor, its environment, and Python control flow *)

(** What can be raised: [KeyboardInterrupt] is not an [Exception], so an
    [except Exception] clause lets it through. *)
Inductive exn :=
| KeyboardInterrupt
| Exception (msg : string).

Inductive outcome (A : Type) :=
| Return (a : A)
| Raise (e : exn).
Arguments Return {A} a.
Arguments Raise {A} e.

(** The fields of [DuckDBProcessor].  A session is named by the database
    file it is connected to. *)
Record processor := mkprocessor {
  memory_percent : Z;
  validate : bool;
  keep_temp : bool;
  conn : option string;
  current_file : option string;
  current_output : option string;
  db_file : option string;
  row_counts : gmap string Z;
  failed_files : list (string * string)
}.

(** The messages of the log that carry data. *)
Inductive log_record :=
| ProcessingFile (name : string)
| CreatedRecords (table : string) (n : Z)
| ValidationMissing (table : string)
| ValidationShort (table : string) (n expected : Z)
| ValidationPassed (table : string) (n : Z)
| ValidationError (table : string) (msg : string)
| CannotProceed (stage : string)
| StageError (stage : string) (msg : string)
| UnparsedWarning (n : Z)
| UnparsedSample (symbols : list (option string))
| NullSpots (n : Z)
| NullStrikes (n : Z)
| TotalBefore (n : Z)
| AfterFiltering (n : Z)
| RemovedDeep (n : Z)
| Exported (n : Z) (path : string)
| FileError (file msg : string)
| RemovedTemporary (path : string)
| CouldNotRemove (path msg : string)
| NoFilesFound (pattern : string)
| FilesFound (n : Z)
| FileSucceeded (name : string)
| FileFailed (name : string)
| Summary (total succeeded failed : Z)
| FailedFile (name reason : string)
| Interrupted
| Unhandled (msg : string).

(** What is outside the process: the scratch database files and the exported
    artifacts on disk, the open sessions, the log, and the number of calls
    made to the engine and the operating system so far. *)
Record world := mkworld {
  scratch : gmap string database;
  artifacts : gmap string (list CalData.row);
  sessions : list string;
  log : list log_record;
  clock : nat
}.

(** The calls that leave the process. *)
Inductive call :=
| Connect (path : string)
| SetupDatabase
| Sql
| Close (path : string)
| Remove (path : string)
| Glob (pattern : string).

(** The environment of a run: which call faults ([fault n c] for the call
    [c] made as the [n]-th), what the three extraction statements select
    from an input file, which joined row an [UPDATE ... FROM] uses, and the
    [os.path] and [glob] functions. *)
Record environment := mkenv {
  fault : nat -> call -> option exn;
  source_options : string -> list Options.row;
  source_index : string -> list IndexData.row;
  source_future : string -> list FutureData.row;
  tie_break : forall A : Type, list A -> option A;
  basename : string -> string;
  path_join : string -> string -> string;
  glob_glob : string -> list string
}.

Definition state : Type := processor * world.

(** A computation may change the state and returns or raises. *)
Definition M (A : Type) : Type := state -> outcome A * state.

#[global] Instance M_ret : MRet M := fun A a st => (Return a, st).

#[global] Instance M_bind : MBind M := fun A B f m st =>
  match m st with
  | (Return a, st') => f a st'
  | (Raise e, st') => (Raise e, st')
  end.

Definition raise {A : Type} (e : exn) : M A := fun st => (Raise e, st).

Definition get_processor : M processor := fun st => (Return (fst st), st).
Definition get_world : M world := fun st => (Return (snd st), st).

Definition set_processor (f : processor -> processor) : M unit :=
  fun st => (Return tt, (f (fst st), snd st)).

Definition set_world (f : world -> world) : M unit :=
  fun st => (Return tt, (fst st, f (snd st))).

(** [try: body except Exception as e: handler(str(e))]. *)
Definition try_except {A : Type} (body : M A) (handler : string -> M A) : M A :=
  fun st =>
    match body st with
    | (Raise (Exception msg), st') => handler msg st'
    | r => r
    end.

(** [try: body finally: final]: [final] runs whatever [body] did; what it
    raises replaces the outcome of [body]. *)
Definition try_finally {A : Type} (body : M A) (final : M unit) : M A :=
  fun st =>
    let (r, st') := body st in
    match final st' with
    | (Return _, st'') => (r, st'')
    | (Raise e, st'') => (Raise e, st'')
    end.

(** [a and b] on stage results. *)
Definition and_then (a b : M bool) : M bool :=
  ok ← a; if ok : bool then b else mret false.

(** [Python str.replace]. *)
Fixpoint replace_from (skip : nat) (old new s : string) : string :=
  match s with
  | EmptyString => EmptyString
  | String c s' =>
      match skip with
      | S k => replace_from k old new s'
      | O =>
          if String.prefix old s
          then String.append new (replace_from (String.length old - 1) old new s')
          else String c (replace_from O old new s')
      end
  end.

Definition str_replace (old new s : string) : string := replace_from O old new s.

(** Field updates. *)
Definition with_files (f o d : option string) (p : processor) : processor :=
  mkprocessor (memory_percent p) (validate p) (keep_temp p) (conn p)
    f o d (row_counts p) (failed_files p).

Definition with_conn (c : option string) (p : processor) : processor :=
  mkprocessor (memory_percent p) (validate p) (keep_temp p) c
    (current_file p) (current_output p) (db_file p) (row_counts p) (failed_files p).

Definition with_row_counts (m : gmap string Z) (p : processor) : processor :=
  mkprocessor (memory_percent p) (validate p) (keep_temp p) (conn p)
    (current_file p) (current_output p) (db_file p) m (failed_files p).

Definition with_failed_files (l : list (string * string)) (p : processor) : processor :=
  mkprocessor (memory_percent p) (validate p) (keep_temp p) (conn p)
    (current_file p) (current_output p) (db_file p) (row_counts p) l.

Definition with_scratch (s : gmap string database) (w : world) : world :=
  mkworld s (artifacts w) (sessions w) (log w) (clock w).

Definition with_artifacts (a : gmap string (list CalData.row)) (w : world) : world :=
  mkworld (scratch w) a (sessions w) (log w) (clock w).

Definition with_sessions (l : list string) (w : world) : world :=
  mkworld (scratch w) (artifacts w) l (log w) (clock w).

Definition with_log (l : list log_record) (w : world) : world :=
  mkworld (scratch w) (artifacts w) (sessions w) l (clock w).

Definition with_clock (n : nat) (w : world) : world :=
  mkworld (scratch w) (artifacts w) (sessions w) (log w) n.

Definition logger (r : log_record) : M unit :=
  set_world (fun w => with_log (log w ++ [r]) w).

Section Run.
Variable env : environment.

(** A call to the outside: it counts, and it raises when the environment
    says so. *)
Definition outside (c : call) : M unit :=
  w ← get_world;
  set_world (with_clock (S (clock w)));;
  match fault env (clock w) c with
  | Some e => raise e
  | None => mret tt
  end.

(** The database of the open session; without a session [self.conn] is
    [None] and the attribute access raises. *)
Definition session_database : M (string * database) :=
  p ← get_processor;
  w ← get_world;
  match conn p with
  | Some path => mret (path, default empty_database (scratch w !! path))
  | None => raise (Exception "'NoneType' object has no attribute 'execute'")
  end.

(** [self.conn.execute(statement)] for a statement that changes the
    database, and for a query. *)
Definition execute (statement : database -> database) : M unit :=
  '(path, db) ← session_database;
  outside Sql;;
  set_world (fun w => with_scratch (<[path := statement db]> (scratch w)) w).

(** The same call for a statement whose expressions can stop on a
    conversion error: the engine raises it and the statement changes
    nothing. *)
Definition execute_checked (statement : database -> conversion database) : M unit :=
  '(path, db) ← session_database;
  outside Sql;;
  match statement db with
  | Converted db' =>
      set_world (fun w => with_scratch (<[path := db']> (scratch w)) w)
  | ConversionError message =>
      raise (Exception (String.append "Conversion Error: " message))
  end.

Definition query {A : Type} (q : database -> A) : M A :=
  '(path, db) ← session_database;
  outside Sql;;
  mret (q db).

(** [duckdb.connect(path)]: opens the file, creating it when absent. *)
Definition connect (path : string) : M unit :=
  outside (Connect path);;
  set_world (fun w =>
    with_sessions (path :: sessions w)
      (with_scratch (<[path := default empty_database (scratch w !! path)]> (scratch w)) w));;
  set_processor (with_conn (Some path)).

(** [setup_database]: the relations exist from the moment the file does;
    the call can only fault. *)
Definition setup_database : M unit :=
  _ ← session_database;
  outside SetupDatabase.
End Run.

(** An environment in which no call faults. *)
Definition fault_free (env : environment) : Prop :=
  forall n c, fault env n c = None.

(** A computation started in a state satisfying [P] ends, returning or
    raising, in an outcome and a state satisfying [Q]. *)
Definition hoare {A : Type} (P : state -> Prop) (m : M A)
    (Q : outcome A -> state -> Prop) : Prop :=
  forall st, P st -> Q (fst (m st)) (snd (m st)).

(** The environment interrupts some call. *)
Definition interrupted (env : environment) : Prop :=
  exists n c, fault env n c = Some KeyboardInterrupt.

(** An outcome in which an interrupt, if any, comes from the environment. *)
Definition may_fault (env : environment) {A : Type} (r : outcome A) : Prop :=
  match r with Raise KeyboardInterrupt => interrupted env | _ => True end.

(** An outcome that is not an [Exception]: a value, or an interrupt that
    comes from the environment. *)
Definition no_exception (env : environment) {A : Type} (r : outcome A) : Prop :=
  match r with
  | Return _ => True
  | Raise KeyboardInterrupt => interrupted env
  | Raise (Exception _) => False
  end.

(** What the stages of one file may change in a state: they keep the
    session, the name of the scratch file and the keep-temp option, open or
    close no session, touch no database file but [path], and do not remove
    that one. *)
Definition evolves (path : string) (st0 st : state) : Prop :=
  conn (fst st) = conn (fst st0) /\
  db_file (fst st) = db_file (fst st0) /\
  keep_temp (fst st) = keep_temp (fst st0) /\
  sessions (snd st) = sessions (snd st0) /\
  (forall k, k <> path -> scratch (snd st) !! k = scratch (snd st0) !! k) /\
  (is_Some (scratch (snd st0) !! path) -> is_Some (scratch (snd st) !! path)).

(** [inv I m]: the computation keeps [I], however it ends.  [safe I m]:
    moreover it does not end in an [Exception]. *)
Definition inv (env : environment) {A : Type} (I : state -> Prop) (m : M A) : Prop :=
  hoare I m (fun r st => I st /\ may_fault env r).

Definition safe (env : environment) {A : Type} (I : state -> Prop) (m : M A) : Prop :=
  hoare I m (fun r st => I st /\ no_exception env r).

(** The state of a file's processing when [cleanup] starts, relative to the
    processor [p0] and world [w0] [process_file] started from: the scratch
    file is named, no other database file was touched, and the session is
    either not open (the connection failed) or open on the scratch file. *)
Definition before_cleanup (dbf : string) (p0 : processor) (w0 : world)
    (st : state) : Prop :=
  db_file (fst st) = Some dbf /\
  keep_temp (fst st) = keep_temp p0 /\
  (forall k, k <> dbf -> scratch (snd st) !! k = scratch w0 !! k) /\
  ((conn (fst st) = None /\ sessions (snd st) = sessions w0) \/
   (conn (fst st) = Some dbf /\ sessions (snd st) = dbf :: sessions w0)).

(** The state [cleanup] leaves: no session, the per-file fields reset, the
    sessions and the other database files as [process_file] found them. *)
Definition after_cleanup (dbf : string) (p0 : processor) (w0 : world)
    (st : state) : Prop :=
  conn (fst st) = None /\
  db_file (fst st) = None /\
  current_file (fst st) = None /\
  current_output (fst st) = None /\
  row_counts (fst st) = ∅ /\
  keep_temp (fst st) = keep_temp p0 /\
  sessions (snd st) = sessions w0 /\
  (forall k, k <> dbf -> scratch (snd st) !! k = scratch w0 !! k).

(** The scratch file after [cleanup], when it is not to be kept: it is gone
    or its removal failed and was logged; it is gone when no removal
    faults. *)
Definition scratch_removed (env : environment) (dbf : string) (p0 : processor)
    (st : state) : Prop :=
  (keep_temp p0 = false ->
   scratch (snd st) !! dbf = None
   \/ exists msg, In (CouldNotRemove dbf msg) (log (snd st))) /\
  (keep_temp p0 = false ->
   (forall n, fault env n (Remove dbf) = None) ->
   scratch (snd st) !! dbf = None).

(** What [process_file] guarantees when it ends: no [Exception] escapes, and
    [cleanup] has run to its end unless its removal of the scratch file was
    interrupted. *)
Definition processed (env : environment) (dbf : string) (p0 : processor)
    (w0 : world) (r : outcome bool) (st : state) : Prop :=
  no_exception env r /\
  ((after_cleanup dbf p0 w0 st /\ scratch_removed env dbf p0 st)
   \/ (r = Raise KeyboardInterrupt /\
       exists n, fault env n (Remove dbf) = Some KeyboardInterrupt)).

(** Between two files of a batch: no session is open, and the scratch files
    known to be gone ([absent]) are gone, when scratch files are not kept. *)
Definition between_files (kt : bool) (absent : string -> Prop) (st : state) : Prop :=
  conn (fst st) = None /\
  keep_temp (fst st) = kt /\
  sessions (snd st) = [] /\
  (kt = false -> forall k, absent k -> scratch (snd st) !! k = None).

(** The scratch file of an input file. *)
Definition scratch_file (input_file : string) : string :=
  str_replace ".parquet" ".duckdb" input_file.

(** ** The stages of [DuckDBProcessor]

    The [time_tracker] decorator logs timings and re-raises what the stage
    raises; it changes no result and is left out, as are [gc.collect], the
    progress bar and the unused [use_chunks] of [create_cal_data]. *)

Definition insert_options (rows : list Options.row) (db : database) : database :=
  mkdb (options db ++ rows) (index_data db) (future_data db) (splits db) (cal_data db).

Definition insert_index_data (rows : list IndexData.row) (db : database) : database :=
  mkdb (options db) (index_data db ++ rows) (future_data db) (splits db) (cal_data db).

Definition insert_future_data (rows : list FutureData.row) (db : database) : database :=
  mkdb (options db) (index_data db) (future_data db ++ rows) (splits db) (cal_data db).

Definition count_rows {A : Type} (l : list A) : Z := Z.of_nat (length l).

Definition null_spots (db : database) : Z :=
  count_rows (filter (fun r => CalData.spot r = None) (cal_data db)).

Definition null_strikes (db : database) : Z :=
  count_rows (filter (fun r => CalData.strike_price r = None) (cal_data db)).

Section Stages.
Variable env : environment.

Definition validate_data (table_name : string) (expected_min_rows : Z) : M bool :=
  p ← get_processor;
  if negb (validate p) then mret true else
  try_except
    (table_exists ← query env (fun db => is_not_null (table_count db table_name));
     if negb table_exists then
       logger (ValidationMissing table_name);; mret false
     else
       row_count ← query env (fun db => default 0 (table_count db table_name));
       set_processor (fun p => with_row_counts (<[table_name := row_count]> (row_counts p)) p);;
       if row_count <? expected_min_rows then
         logger (ValidationShort table_name row_count expected_min_rows);; mret false
       else
         logger (ValidationPassed table_name row_count);; mret true)
    (fun msg => logger (ValidationError table_name msg);; mret false).

(** The parameter [[self.current_file]] of the extraction statements. *)
Definition current_input : M string :=
  p ← get_processor;
  match current_file p with
  | Some f => mret f
  | None => raise (Exception "Cannot read a NULL file name")
  end.

Definition create_option_data : M bool :=
  try_except
    (f ← current_input;
     execute env (insert_options (source_options env f));;
     result ← query env (fun db => count_rows (options db));
     logger (CreatedRecords "options" result);;
     validate_data "options" 100)
    (fun msg => logger (StageError "options" msg);; mret false).

Definition create_index_data : M bool :=
  ready ← validate_data "options" 1;
  if negb ready then logger (CannotProceed "index");; mret false else
  try_except
    (f ← current_input;
     execute env (insert_index_data (source_index env f));;
     result ← query env (fun db => count_rows (index_data db));
     logger (CreatedRecords "index_data" result);;
     validate_data "index_data" 10)
    (fun msg => logger (StageError "index" msg);; mret false).

Definition create_future_data : M bool :=
  ready ← and_then (validate_data "options" 1) (validate_data "index_data" 1);
  if negb ready then logger (CannotProceed "future");; mret false else
  try_except
    (f ← current_input;
     execute env (insert_future_data (source_future env f));;
     result ← query env (fun db => count_rows (future_data db));
     logger (CreatedRecords "future_data" result);;
     validate_data "future_data" 10)
    (fun msg => logger (StageError "future" msg);; mret false).

Definition create_split_data : M bool :=
  ready ← validate_data "options" 1;
  if negb ready then logger (CannotProceed "split");; mret false else
  try_except
    (execute_checked env insert_splits;;
     result ← query env (fun db => count_rows (splits db));
     logger (CreatedRecords "splits" result);;
     failed ← query env failed_count;
     (if 0 <? failed then
        logger (UnparsedWarning failed);;
        p ← get_processor;
        if validate p then
          failed_list ← query env failed_symbols;
          logger (UnparsedSample failed_list)
        else mret tt
      else mret tt);;
     validate_data "splits" 10)
    (fun msg => logger (StageError "split" msg);; mret false).

Definition create_cal_data : M bool :=
  ready ← and_then (validate_data "options" 1)
            (and_then (validate_data "splits" 1)
               (and_then (validate_data "index_data" 1)
                  (validate_data "future_data" 1)));
  if negb ready then logger (CannotProceed "calibration");; mret false else
  try_except
    (execute env (populate_cal_data);;
     execute env (update_with_splits (tie_break env));;
     execute env (update_with_index (tie_break env));;
     execute env (update_with_future (tie_break env));;
     execute env update_derived;;
     execute env update_moneyness;;
     spots ← query env null_spots;
     (if 0 <? spots then logger (NullSpots spots) else mret tt);;
     strikes ← query env null_strikes;
     (if 0 <? strikes then logger (NullStrikes strikes) else mret tt);;
     validate_data "cal_data" 100)
    (fun msg => logger (StageError "calibration" msg);; mret false).

(** [COPY (...) TO current_output]: one engine call that writes the
    artifact. *)
Definition copy_to_parquet : M unit :=
  '(path, db) ← session_database;
  p ← get_processor;
  outside env Sql;;
  match current_output p with
  | Some out =>
      set_world (fun w => with_artifacts (<[out := export_rows db]> (artifacts w)) w)
  | None => raise (Exception "Cannot write to a NULL file name")
  end.

Definition filter_and_export : M bool :=
  ready ← validate_data "cal_data" 1;
  if negb ready then logger (CannotProceed "export");; mret false else
  try_except
    (total_before ← query env (fun db => count_rows (cal_data db));
     logger (TotalBefore total_before);;
     execute env delete_deep;;
     moneyness_filtered ← query env (fun db => count_rows (cal_data db));
     logger (AfterFiltering moneyness_filtered);;
     logger (RemovedDeep (total_before - moneyness_filtered));;
     copy_to_parquet;;
     p ← get_processor;
     logger (Exported moneyness_filtered (default "" (current_output p)));;
     mret true)
    (fun msg => logger (StageError "export" msg);; mret false).

Definition cleanup : M unit :=
  p ← get_processor;
  match conn p with
  | Some path =>
      outside env (Close path);;
      set_world (fun w => with_sessions (filter (fun s => s <> path) (sessions w)) w);;
      set_processor (with_conn None)
  | None => mret tt
  end;;
  w ← get_world;
  match db_file p with
  | Some path =>
      if negb (keep_temp p) && negb (String.eqb path "")
         && bool_decide (is_Some (scratch w !! path))
      then
        try_except
          (outside env (Remove path);;
           set_world (fun w => with_scratch (delete path (scratch w)) w);;
           logger (RemovedTemporary path))
          (fun msg => logger (CouldNotRemove path msg))
      else mret tt
  | None => mret tt
  end;;
  set_processor (fun p => with_row_counts ∅ (with_files None None None p)).

Definition process_file (input_file output_file : string) : M bool :=
  try_finally
    (try_except
       (let path := str_replace ".parquet" ".duckdb" input_file in
        set_processor (with_files (Some input_file) (Some output_file) (Some path));;
        connect env path;;
        setup_database env;;
        logger (ProcessingFile (basename env input_file));;
        and_then create_option_data
          (and_then create_index_data
             (and_then create_future_data
                (and_then create_split_data
                   (and_then create_cal_data filter_and_export)))))
       (fun msg =>
          logger (FileError input_file msg);;
          set_processor (fun p =>
            with_failed_files (failed_files p ++ [(basename env input_file, msg)]) p);;
          mret false))
    cleanup.
End Stages.

(** ** The batch: [main] *)

Module Args.
Record t := mk {
  input_folder : string;
  output_folder : string;
  keep_temp : bool;
  memory_percent : Z;
  validate : bool;
  file_pattern : string
}.
End Args.

Definition new_processor (a : Args.t) : processor :=
  mkprocessor (Args.memory_percent a) (Args.validate a) (Args.keep_temp a)
    None None None None ∅ [].

Section Batch.
Variable env : environment.
Variable a : Args.t.

(** The [for input_file in input_files] loop, with its two counters. *)
Fixpoint batch_loop (input_files : list string) (file_count successful_count : Z)
  : M (Z * Z) :=
  match input_files with
  | [] => mret (file_count, successful_count)
  | input_file :: rest =>
      let file_count := file_count + 1 in
      let base_name := basename env input_file in
      let output_name := str_replace ".parquet" "_combined.parquet" base_name in
      let output_file := path_join env (Args.output_folder a) output_name in
      ok ← process_file env input_file output_file;
      if ok : bool then
        logger (FileSucceeded base_name);;
        batch_loop rest file_count (successful_count + 1)
      else
        logger (FileFailed base_name);;
        batch_loop rest file_count successful_count
  end.

Fixpoint log_failed_files (failed : list (string * string)) : M unit :=
  match failed with
  | [] => mret tt
  | (file_name, reason) :: rest =>
      logger (FailedFile file_name reason);; log_failed_files rest
  end.

(** The body of the [try] statement of [main]. *)
Definition main_try : M Z :=
  set_processor (fun _ => new_processor a);;
  let file_pattern := path_join env (Args.input_folder a) (Args.file_pattern a) in
  outside env (Glob file_pattern);;
  let input_files := glob_glob env file_pattern in
  match input_files with
  | [] => logger (NoFilesFound file_pattern);; mret 1
  | _ :: _ =>
      logger (FilesFound (count_rows input_files));;
      '(file_count, successful_count) ← batch_loop input_files 0 0;
      logger (Summary file_count successful_count (file_count - successful_count));;
      p ← get_processor;
      log_failed_files (failed_files p);;
      mret 0
  end.

(** [main]: the exit code. *)
Definition main : M Z :=
  fun st =>
    match main_try st with
    | (Raise KeyboardInterrupt, st') => (logger Interrupted;; mret 130) st'
    | (Raise (Exception msg), st') => (logger (Unhandled msg);; mret 1) st'
    | r => r
    end.
End Batch.

(** ** Sample data *)

Definition sample_option (symbol : string) (d : sql_date) (t : sql_time) (px : Z)
  : Options.row :=
  Options.mk (Some symbol) (Some d) (Some t)
    (Some px) (Some (px + 2)) (Some (px - 3)) (Some (px + 1)) (Some 1500) (Some 42000).

Definition jan02 : sql_date := mkdate 2024 1 2.
Definition jan03 : sql_date := mkdate 2024 1 3.

(** 09:15:00 and 09:16:00. *)
Definition t0915 : sql_time := 33300.
Definition t0916 : sql_time := 33360.

(** One contract quoted on two trade dates, a put, and a contract of
    another index, which is no candidate of the decomposition. *)
Definition sample_options : list Options.row :=
  [ sample_option "NIFTY25JAN2421500CE" jan02 t0915 310;
    sample_option "NIFTY25JAN2421500CE" jan03 t0915 295;
    sample_option "NIFTY25JAN2422500PE" jan02 t0915 120;
    sample_option "BANKNIFTY25JAN2448000CE" jan02 t0916 7 ].

Definition sample_index : list IndexData.row :=
  [ IndexData.mk (Some jan02) (Some t0915) (Some 21700) (Some 21710) (Some 21690) (Some 21705);
    IndexData.mk (Some jan03) (Some t0915) (Some 21600) (Some 21650) (Some 21590) (Some 21640) ].

Definition sample_future : list FutureData.row :=
  [ FutureData.mk (Some jan02) (Some t0915) (Some 21750) (Some 21760) (Some 21740)
      (Some 21755) (Some 9000) (Some 120000) ].

Definition sample_database : database :=
  mkdb sample_options sample_index sample_future [] [].

Definition first_match : forall A : Type, list A -> option A := fun A l => head l.
Definition last_match : forall A : Type, list A -> option A := fun A l => last l.

(** An environment without faults that serves the sample rows, and a
    processor with a session open on a scratch file. *)
Definition quiet_env : environment :=
  mkenv (fun _ _ => None)
    (fun _ => sample_options) (fun _ => sample_index) (fun _ => sample_future)
    first_match
    (fun path => path)
    (fun folder name => String.append folder (String.append "/" name))
    (fun _ => ["nifty_2024-01.parquet"]).

Definition sample_processor (validate : bool) : processor :=
  mkprocessor 75 validate false
    (Some "nifty_2024-01.duckdb")
    (Some "nifty_2024-01.parquet")
    (Some "nifty_2024-01_combined.parquet")
    (Some "nifty_2024-01.duckdb")
    ∅ [].

Definition sample_world (db : database) : world :=
  mkworld {[ "nifty_2024-01.duckdb" := db ]} ∅ ["nifty_2024-01.duckdb"] [] 0.

Definition sample_args : Args.t :=
  Args.mk "in" "out" false 75 true "*.parquet".

(** Nothing on disk, no session, an empty log. *)
Definition fresh_world : world := mkworld ∅ ∅ [] [] 0.

Definition start_state : state := (new_processor sample_args, fresh_world).

(** The user interrupts the first connection. *)
Definition interrupting_env : environment :=
  mkenv (fun _ c => match c with Connect _ => Some KeyboardInterrupt | _ => None end)
    (source_options quiet_env) (source_index quiet_env) (source_future quiet_env)
    first_match (basename quiet_env) (path_join quiet_env) (glob_glob quiet_env).

(** No file matches the pattern. *)
Definition empty_folder_env : environment :=
  mkenv (fault quiet_env)
    (source_options quiet_env) (source_index quiet_env) (source_future quiet_env)
    first_match (basename quiet_env) (path_join quiet_env) (fun _ => []).

(** The sample database after decomposition and enrichment. *)
Definition sample_decomposed : database :=
  match insert_splits sample_database with
  | Converted db => db
  | ConversionError _ => sample_database
  end.

Definition sample_enriched : database :=
  update_moneyness
    (update_derived
       (update_with_future first_match
          (update_with_index first_match
             (update_with_splits first_match
                (populate_cal_data sample_decomposed))))).



(** The sample with one more row, of a candidate symbol outside the
    grammar. *)
Definition unparsed_option : Options.row :=
  sample_option "NIFTYXYZ" jan02 t0916 7.

Definition unparsed_database : database :=
  mkdb (sample_options ++ [unparsed_option]) sample_index sample_future [] [].

(** The removal of the scratch file fails (say the file is locked). *)
Definition locked_env : environment :=
  mkenv (fun _ c => match c with
                    | Remove _ => Some (Exception "file in use")
                    | _ => None
                    end)
    (source_options quiet_env) (source_index quiet_env) (source_future quiet_env)
    first_match (basename quiet_env) (path_join quiet_env) (glob_glob quiet_env).

(** The environment serving the rows of [unparsed_database], and a start
    with validation off. *)
Definition unparsed_env : environment :=
  mkenv (fault quiet_env)
    (fun _ => options unparsed_database)
    (source_index quiet_env) (source_future quiet_env)
    first_match (basename quiet_env) (path_join quiet_env) (glob_glob quiet_env).

Definition unvalidated_start : state :=
  (new_processor (Args.mk "in" "out" false 75 false "*.parquet"), fresh_world).

(** ** What an invariant of the state has to withstand

    The stages change the state through a few primitive updates only: they
    count a call, append a record to the log, write a database file, record
    a row count, write an artifact. *)

Definition ticks (I : state -> Prop) : Prop :=
  forall p w n, I (p, w) -> I (p, with_clock n w).

Definition appends (I : state -> Prop) (r : log_record) : Prop :=
  forall p w, I (p, w) -> I (p, with_log (log w ++ [r]) w).

Definition inserts (I : state -> Prop) : Prop :=
  forall p w path db, I (p, w) -> I (p, with_scratch (<[path := db]> (scratch w)) w).

Definition counts (I : state -> Prop) : Prop :=
  forall p w m, I (p, w) -> I (with_row_counts m p, w).

Definition writes (I : state -> Prop) : Prop :=
  forall p w a, I (p, w) -> I (p, with_artifacts a w).

(** The records the six stages and [validate_data] log. *)
Definition stage_record (r : log_record) : bool :=
  match r with
  | CreatedRecords _ _ | ValidationMissing _ | ValidationShort _ _ _
  | ValidationPassed _ _ | ValidationError _ _ | CannotProceed _
  | StageError _ _ | UnparsedWarning _ | UnparsedSample _
  | NullSpots _ | NullStrikes _ | TotalBefore _ | AfterFiltering _
  | RemovedDeep _ | Exported _ _ => true
  | _ => false
  end.

(** An invariant the stages before the export keep, and one the export
    keeps too. *)
Definition stage_frame (I : state -> Prop) : Prop :=
  ticks I /\ inserts I /\ counts I /\
  (forall r, stage_record r = true -> appends I r).

(** The six stages in their [and] chain. *)
Definition stages (env : environment) : M bool :=
  and_then (create_option_data env)
    (and_then (create_index_data env)
       (and_then (create_future_data env)
          (and_then (create_split_data env)
             (and_then (create_cal_data env) (filter_and_export env))))).

(** The records [process_file] logs, its stages and [cleanup] included. *)
Definition process_record (r : log_record) : bool :=
  stage_record r ||
  match r with
  | ProcessingFile _ | FileError _ _ | RemovedTemporary _ | CouldNotRemove _ _ => true
  | _ => false
  end.

(** An invariant that, besides, does not depend on what [process_file]
    logs, on the session, the list of open sessions or the list of failed
    files. *)
Definition session_frame (I : state -> Prop) : Prop :=
  stage_frame I /\
  (forall r, process_record r = true -> appends I r) /\
  (forall p w c, I (p, w) -> I (with_conn c p, w)) /\
  (forall p w l, I (p, w) -> I (p, with_sessions l w)) /\
  (forall p w l, I (p, w) -> I (with_failed_files l p, w)).

(** The lines "Successfully processed" and "Failed to process" of the log,
    counted. *)
Definition succeeded_record (r : log_record) : bool :=
  match r with FileSucceeded _ => true | _ => false end.

Definition failed_record (r : log_record) : bool :=
  match r with FileFailed _ => true | _ => false end.

Definition count_records (f : log_record -> bool) (l : list log_record) : Z :=
  count_rows (filter (fun r => f r = true) l).

(** ** The statements of a file, composed *)

(** A choice the engine can make among joined rows: one of them, and none
    only when none joins. *)
Definition chooses (tie : forall A : Type, list A -> option A) : Prop :=
  forall (A : Type) (l : list A),
    match tie A l with
    | Some x => x ∈ l
    | None => l = []
    end.

(** Steps 5.1 to 5.6 of [create_cal_data]. *)
Definition enrich (tie : forall A : Type, list A -> option A) (db : database)
  : database :=
  update_moneyness
    (update_derived
       (update_with_future tie
          (update_with_index tie
             (update_with_splits tie (populate_cal_data db))))).

(** The three extraction statements on the rows of an input file. *)
Definition load (env : environment) (input_file : string) (db : database)
  : database :=
  insert_future_data (source_future env input_file)
    (insert_index_data (source_index env input_file)
       (insert_options (source_options env input_file) db)).

(** The line of the log that reports a file, by its verdict. *)
Definition batch_record (r : log_record) : bool :=
  succeeded_record r || failed_record r.

Definition report (env : environment) (input_file : string) (ok : bool)
  : log_record :=
  if ok then FileSucceeded (basename env input_file)
  else FileFailed (basename env input_file).

(** ** The extraction statements on the rows of an input file

    The three [INSERT ... SELECT ... FROM read_parquet(?)] statements read
    the same file.  Its text columns are VARCHAR ([strptime] and the cast
    to TIME are applied to them); the type of its numeric columns is left
    open, as are the three conversions of the [SELECT] list, which are the
    engine's. *)

Record parquet_row (number : Type) := mkraw {
  raw_symbol : option string;
  raw_date : option string;
  raw_time : option string;
  raw_open : option number;
  raw_high : option number;
  raw_low : option number;
  raw_close : option number;
  raw_volume : option number;
  raw_oi : option number
}.
Arguments mkraw {number}.
Arguments raw_symbol {number}.
Arguments raw_date {number}.
Arguments raw_time {number}.
Arguments raw_open {number}.
Arguments raw_high {number}.
Arguments raw_low {number}.
Arguments raw_close {number}.
Arguments raw_volume {number}.
Arguments raw_oi {number}.

(** [text LIKE '%sub%']: [sub] occurs in the text. *)
Fixpoint contains (sub s : string) : bool :=
  String.prefix sub s ||
  match s with
  | String _ s' => contains sub s'
  | EmptyString => false
  end.

Definition sql_like_contains (sub : string) (text : option string) : sql_bool :=
  contains sub <$> text.

(** [a <= b] on text: the order of the character codes. *)
Definition sql_text_le (a b : option string) : sql_bool :=
  match a, b with
  | Some x, Some y => Some (String.leb x y)
  | _, _ => None
  end.

(** [time >= '09:15:00' AND time <= '15:29:00']. *)
Definition in_trading_hours (time : option string) : sql_bool :=
  sql_and (sql_text_le (Some "09:15:00") time) (sql_text_le time (Some "15:29:00")).

(** The three [WHERE] clauses. *)
Definition is_option_row {number : Type} (r : parquet_row number) : bool :=
  holds (sql_and
           (sql_or (sql_like_contains "CE" (raw_symbol r))
                   (sql_like_contains "PE" (raw_symbol r)))
           (in_trading_hours (raw_time r))).

Definition is_index_row {number : Type} (r : parquet_row number) : bool :=
  holds (sql_and (sql_eq_string (raw_symbol r) (Some "NIFTY"))
                 (in_trading_hours (raw_time r))).

Definition is_future_row {number : Type} (r : parquet_row number) : bool :=
  holds (sql_and (sql_eq_string (raw_symbol r) (Some "NIFTY-I"))
                 (in_trading_hours (raw_time r))).

Section Extraction.
Variable number : Type.
(** [CAST(strptime(text, '%d-%m-%Y') AS DATE)], [CAST(text AS TIME)] and
    [CAST(ROUND(x) AS INTEGER)]. *)
Variable strptime_date : string -> conversion sql_date.
Variable cast_time : string -> conversion sql_time.
Variable round_integer : number -> conversion Z.

(** A scalar function of a nullable argument: NULL for NULL. *)
Definition nullable {A B : Type} (f : A -> conversion B) (a : option A)
  : conversion (option B) :=
  match a with
  | Some x => y ← f x; mret (Some y)
  | None => mret None
  end.

Definition option_row_of (r : parquet_row number) : conversion Options.row :=
  date ← nullable strptime_date (raw_date r);
  time ← nullable cast_time (raw_time r);
  open ← nullable round_integer (raw_open r);
  high ← nullable round_integer (raw_high r);
  low ← nullable round_integer (raw_low r);
  close ← nullable round_integer (raw_close r);
  volume ← nullable round_integer (raw_volume r);
  oi ← nullable round_integer (raw_oi r);
  mret (Options.mk (raw_symbol r) date time open high low close volume oi).

Definition index_row_of (r : parquet_row number) : conversion IndexData.row :=
  date ← nullable strptime_date (raw_date r);
  time ← nullable cast_time (raw_time r);
  open ← nullable round_integer (raw_open r);
  high ← nullable round_integer (raw_high r);
  low ← nullable round_integer (raw_low r);
  close ← nullable round_integer (raw_close r);
  mret (IndexData.mk date time open high low close).

Definition future_row_of (r : parquet_row number) : conversion FutureData.row :=
  date ← nullable strptime_date (raw_date r);
  time ← nullable cast_time (raw_time r);
  open ← nullable round_integer (raw_open r);
  high ← nullable round_integer (raw_high r);
  low ← nullable round_integer (raw_low r);
  close ← nullable round_integer (raw_close r);
  volume ← nullable round_integer (raw_volume r);
  oi ← nullable round_integer (raw_oi r);
  mret (FutureData.mk date time open high low close volume oi).

(** The rows the three statements insert. *)
Definition select_options (file : list (parquet_row number))
  : conversion (list Options.row) :=
  mapM option_row_of (filter (fun r => is_option_row r = true) file).

Definition select_index (file : list (parquet_row number))
  : conversion (list IndexData.row) :=
  mapM index_row_of (filter (fun r => is_index_row r = true) file).

Definition select_future (file : list (parquet_row number))
  : conversion (list FutureData.row) :=
  mapM future_row_of (filter (fun r => is_future_row r = true) file).
End Extraction.

(** A time of day written [HH:MM:SS], and its second of the day. *)
Definition is_clock_text (t : string) : bool :=
  match t with
  | String h1 (String h2 (String c1 (String m1 (String m2
      (String c2 (String s1 (String s2 EmptyString))))))) =>
      is_digit h1 && is_digit h2 && Ascii.eqb c1 ":"
      && is_digit m1 && is_digit m2 && Ascii.eqb c2 ":"
      && is_digit s1 && is_digit s2
  | _ => false
  end.

Definition clock_fields (t : string) : Z * Z * Z :=
  match t with
  | String h1 (String h2 (String _ (String m1 (String m2
      (String _ (String s1 (String s2 _))))))) =>
      (10 * digit_value h1 + digit_value h2,
       10 * digit_value m1 + digit_value m2,
       10 * digit_value s1 + digit_value s2)
  | _ => (0, 0, 0)
  end.

Definition second_of_day (t : string) : Z :=
  let '(h, m, s) := clock_fields t in 3600 * h + 60 * m + s.
(** * Theorems *)

(** ** The classifier *)

(** Evaluate every band test of the table at a distance [d]. *)
Ltac band_cases :=
  cbv [moneyness sql_case sql_between sql_le sql_ge sql_and sql_eq_string
       holds String.eqb Ascii.eqb Bool.eqb];
  repeat match goal with
    | |- context [Z.leb ?a ?b] =>
        destruct (Z.leb_spec a b); cbv iota beta; try lia
    end.

Lemma moneyness_null_distance (t : option string) : moneyness t None = None.
Proof.
  destruct t as [t|]; [|reflexivity].
  unfold moneyness. cbn -[String.eqb].
  destruct (String.eqb t "CE"); [reflexivity|].
  destruct (String.eqb t "PE"); reflexivity.
Qed.

Lemma moneyness_other_type (t : option string) (x : option Z) :
  t <> Some "CE" -> t <> Some "PE" -> moneyness t x = None.
Proof.
  intros HCE HPE. destruct t as [t|]; [|reflexivity].
  unfold moneyness. cbn -[String.eqb sql_case].
  destruct (String.eqb_spec t "CE") as [->|_]; [congruence|].
  destruct (String.eqb_spec t "PE") as [->|_]; [congruence|].
  reflexivity.
Qed.

Lemma moneyness_CE_labelled (d : Z) :
  exists l, moneyness (Some "CE") (Some d) = Some l /\ In l bucket_labels.
Proof.
  band_cases; eexists; (split; [reflexivity|]); cbn; tauto.
Qed.

Lemma moneyness_PE_labelled (d : Z) :
  exists l, moneyness (Some "PE") (Some d) = Some l /\ In l bucket_labels.
Proof.
  band_cases; eexists; (split; [reflexivity|]); cbn; tauto.
Qed.

Lemma moneyness_PE_mirror (d : Z) :
  moneyness (Some "PE") (Some d) =
  mirror_label <$> moneyness (Some "CE") (Some d).
Proof. band_cases; reflexivity. Qed.

Lemma moneyness_CE_DEEPITM (d : Z) :
  moneyness (Some "CE") (Some d) = Some "DEEPITM" <-> d <= -501.
Proof. band_cases; split; intros; first [reflexivity | discriminate | lia]. Qed.

Lemma moneyness_CE_DEEPOTM (d : Z) :
  moneyness (Some "CE") (Some d) = Some "DEEPOTM" <-> 551 <= d.
Proof. band_cases; split; intros; first [reflexivity | discriminate | lia]. Qed.

Lemma mirror_agrees_iff (l a b : string) :
  mirror_agrees l a b = true ->
  (Some l = Some a <-> mirror_label <$> Some l = Some b).
Proof.
  unfold mirror_agrees. cbn [fmap option_fmap option_map].
  destruct (String.eqb_spec l a), (String.eqb_spec (mirror_label l) b);
    cbn; intros; split; congruence.
Qed.

Lemma mirror_table_checked :
  forallb (fun l =>
     mirror_agrees l "ATM" "ATM" && mirror_agrees l "DEEPITM" "DEEPOTM"
     && mirror_agrees l "DEEPOTM" "DEEPITM"
     && forallb (fun k => mirror_agrees l (atm_plus k) (atm_minus k)
                          && mirror_agrees l (atm_minus k) (atm_plus k)) levels)
    bucket_labels = true.
Proof. vm_compute. reflexivity. Qed.

Lemma levels_spec (k : Z) : 1 <= k <= 10 -> In k levels.
Proof. unfold levels. cbn. lia. Qed.

(** C4. Calls and puts at the same strike-distance carry mirrored labels:
    a call is in ATM+k exactly when the put is in ATM-k, and in ATM-k exactly
    when the put is in ATM+k; ATM goes with ATM.  At the two extremes the
    labels are not ATM levels: the call is DEEPITM exactly when the put is
    DEEPOTM (distance at most -501), and DEEPOTM exactly when the put is
    DEEPITM (distance at least 551). *)
Theorem CE_PE_mirror (d k : Z) :
  1 <= k <= 10 ->
  (moneyness (Some "CE") (Some d) = Some (atm_plus k) <->
   moneyness (Some "PE") (Some d) = Some (atm_minus k)) /\
  (moneyness (Some "CE") (Some d) = Some (atm_minus k) <->
   moneyness (Some "PE") (Some d) = Some (atm_plus k)) /\
  (moneyness (Some "CE") (Some d) = Some "ATM" <->
   moneyness (Some "PE") (Some d) = Some "ATM") /\
  (moneyness (Some "CE") (Some d) = Some "DEEPITM" <->
   moneyness (Some "PE") (Some d) = Some "DEEPOTM") /\
  (moneyness (Some "CE") (Some d) = Some "DEEPOTM" <->
   moneyness (Some "PE") (Some d) = Some "DEEPITM") /\
  (moneyness (Some "CE") (Some d) = Some "DEEPITM" <-> d <= -501) /\
  (moneyness (Some "CE") (Some d) = Some "DEEPOTM" <-> 551 <= d).
Proof.
  intros Hk. apply levels_spec in Hk.
  split; [|split; [|split; [|split; [|split; [|split]]]]];
    try apply moneyness_CE_DEEPITM; try apply moneyness_CE_DEEPOTM;
    rewrite moneyness_PE_mirror;
    destruct (moneyness_CE_labelled d) as (l & -> & Hl);
    apply mirror_agrees_iff;
    pose proof mirror_table_checked as Hall;
    rewrite forallb_forall in Hall; specialize (Hall l Hl);
    rewrite !andb_true_iff, forallb_forall in Hall;
    destruct Hall as [[[H1 H2] H3] H4]; try assumption;
    specialize (H4 k Hk); rewrite andb_true_iff in H4; tauto.
Qed.

Lemma CE_PE_mirror_witness :
  moneyness (Some "CE") (Some 120) = Some (atm_plus 2) <->
  moneyness (Some "PE") (Some 120) = Some (atm_minus 2).
Proof. apply (CE_PE_mirror 120 2). lia. Defined.


Lemma moneyness_null_iff (t : option string) (x : option Z) :
  moneyness t x = None <-> (t <> Some "CE" /\ t <> Some "PE") \/ x = None.
Proof.
  split.
  - intros Hnull. destruct x as [d|]; [left | now right].
    split; intros ->.
    + destruct (moneyness_CE_labelled d) as (l & Hl & _). congruence.
    + destruct (moneyness_PE_labelled d) as (l & Hl & _). congruence.
  - intros [[HCE HPE] | ->].
    + now apply moneyness_other_type.
    + apply moneyness_null_distance.
Qed.





(** C1, the claim as stated fails: a call at strike-distance 0 is in the
    band [-50, 0], which the table lists before [0, 50]. *)
Lemma moneyness_CE_zero_not_ATM :
  moneyness (Some "CE") (Some 0) = Some "ATM-1" /\
  moneyness (Some "CE") (Some 0) <> Some "ATM".
Proof. split; [reflexivity | discriminate]. Qed.

(** C1, amended. The bucket of a row depends on its option type and
    strike-distance only, and at the boundary values: a call at distance 0
    is ATM-1 (band order as written), at -501 DEEPITM, at 551 DEEPOTM; a
    put at -501 is DEEPOTM, at 551 DEEPITM. *)
Theorem moneyness_boundary_values :
  (forall r, CalData.moneyness (set_moneyness r) =
             moneyness (CalData.option_type r) (CalData.strdifference r)) /\
  moneyness (Some "CE") (Some 0) = Some "ATM-1" /\
  moneyness (Some "CE") (Some (-501)) = Some "DEEPITM" /\
  moneyness (Some "CE") (Some 551) = Some "DEEPOTM" /\
  moneyness (Some "PE") (Some (-501)) = Some "DEEPOTM" /\
  moneyness (Some "PE") (Some 551) = Some "DEEPITM".
Proof. repeat split. Qed.

(** ** The symbol grammar *)

Lemma append_nil_l (s : string) : String.append "" s = s.
Proof. reflexivity. Qed.

Lemma append_cons (c : ascii) (a b : string) :
  String.append (String c a) b = String c (String.append a b).
Proof. reflexivity. Qed.

Ltac push_append := rewrite ?append_cons, ?append_nil_l in *.

Lemma span_spec (p : ascii -> bool) (s a b : string) :
  span p s = (a, b) ->
  s = String.append a b /\ all_class p a = true /\ stops p b.
Proof.
  revert a b. induction s as [|c s IH]; intros a b; cbn.
  - intros [= <- <-]. cbn. auto.
  - destruct (p c) eqn:Hc.
    + destruct (span p s) as [run rest]. intros [= <- <-].
      destruct (IH run rest eq_refl) as (-> & Hall & Hstop).
      push_append. cbn [all_class]. rewrite Hc, Hall. auto.
    + intros [= <- <-]. cbn. auto.
Qed.

Lemma span_append (p : ascii -> bool) (a b : string) :
  all_class p a = true -> stops p b -> span p (String.append a b) = (a, b).
Proof.
  intros Hall Hstop. induction a as [|c a IH]; push_append; cbn in *.
  - destruct b as [|c b]; [reflexivity|]. cbn in *. now rewrite Hstop.
  - apply andb_true_iff in Hall as [Hc Hall]. now rewrite Hc, IH.
Qed.

Lemma take_class_spec (n : nat) (p : ascii -> bool) (s a b : string) :
  take_class n p s = Some (a, b) ->
  s = String.append a b /\ String.length a = n /\ all_class p a = true.
Proof.
  revert s a b. induction n as [|n IH]; intros s a b; cbn.
  - intros [= <- <-]. cbn. auto.
  - destruct s as [|c s]; [discriminate|].
    destruct (p c) eqn:Hc; [|discriminate].
    destruct (take_class n p s) as [[run rest]|] eqn:Ht; [|discriminate].
    intros [= <- <-]. destruct (IH s run rest Ht) as (-> & Hlen & Hall).
    push_append. cbn [all_class String.length]. rewrite Hc, Hall, Hlen. auto.
Qed.

Lemma take_class_append (p : ascii -> bool) (a b : string) :
  all_class p a = true ->
  take_class (String.length a) p (String.append a b) = Some (a, b).
Proof.
  intros Hall. induction a as [|c a IH]; push_append; cbn in *; [reflexivity|].
  apply andb_true_iff in Hall as [Hc Hall]. now rewrite Hc, IH.
Qed.

Lemma take_class_exact (n : nat) (p : ascii -> bool) (a b : string) :
  String.length a = n -> all_class p a = true ->
  take_class n p (String.append a b) = Some (a, b).
Proof. intros <-. apply take_class_append. Qed.

Lemma prefix_append (a s : string) :
  String.prefix a s = true <-> exists rest, s = String.append a rest.
Proof.
  revert s. induction a as [|c a IH]; intros s.
  - split; [intros _; exists s; reflexivity | intros _; now destruct s].
  - destruct s as [|d s]; cbn [String.prefix];
      [split; [discriminate | intros [rest Hrest]; push_append; discriminate]|].
    destruct (ascii_dec c d) as [->|Hne].
    + rewrite IH. split; intros [rest Hrest]; exists rest; push_append; congruence.
    + split; [discriminate | intros [rest Hrest]; push_append; congruence].
Qed.

Lemma upper_not_digit (c : ascii) : is_digit c = true -> is_upper c = false.
Proof.
  unfold is_digit, is_upper. cbv zeta.
  rewrite !andb_true_iff, !Nat.leb_le. intros [H1 H2].
  apply andb_false_iff. left. apply Nat.leb_gt. lia.
Qed.

Lemma stops_append (p q : ascii -> bool) (a b : string) :
  (forall c, q c = true -> p c = false) ->
  a <> "" -> all_class q a = true -> stops p (String.append a b).
Proof.
  intros Hpq Hne Hall. destruct a as [|c a]; [congruence|]. push_append. cbn in *.
  apply andb_true_iff in Hall as [Hc _]. auto.
Qed.

Lemma length_nonempty (s : string) (n : nat) :
  String.length s = S n -> s <> "".
Proof. destruct s; [discriminate | discriminate]. Qed.

(** The matcher reads exactly the grammar: it finds the groups of a symbol
    when the symbol decomposes as the grammar says, and the decomposition
    is then the only one. *)
Lemma match_here_grammar (s : string) (g : groups) :
  match_here s = Some g <-> exists rest, grammar_at s g rest.
Proof.
  unfold match_here, grammar_at. split.
  - destruct (span is_upper s) as [g1 r1] eqn:H1.
    apply span_spec in H1 as (-> & Hu1 & _).
    destruct (String.eqb_spec g1 "") as [|Hne1]; [discriminate|].
    destruct (take_class 2 is_digit r1) as [[g2 r2]|] eqn:H2; [|discriminate].
    apply take_class_spec in H2 as (-> & Hl2 & Hd2).
    destruct (take_class 3 is_upper r2) as [[g3 r3]|] eqn:H3; [|discriminate].
    apply take_class_spec in H3 as (-> & Hl3 & Hu3).
    destruct (take_class 2 is_digit r3) as [[g4 r4]|] eqn:H4; [|discriminate].
    apply take_class_spec in H4 as (-> & Hl4 & Hd4).
    destruct (span is_digit r4) as [g5 r5] eqn:H5.
    apply span_spec in H5 as (-> & Hd5 & _).
    destruct (String.eqb_spec g5 "") as [|Hne5]; [discriminate|].
    destruct (String.prefix "PE" r5) eqn:HPE.
    + apply prefix_append in HPE as [rest ->]. intros [= <-]. exists rest.
      cbn [g_instrument g_day g_month g_year g_strike g_type]. tauto.
    + destruct (String.prefix "CE" r5) eqn:HCE; [|discriminate].
      apply prefix_append in HCE as [rest ->]. intros [= <-]. exists rest.
      cbn [g_instrument g_day g_month g_year g_strike g_type]. tauto.
  - destruct g as [g1 g2 g3 g4 g5 g6].
    cbn [g_instrument g_day g_month g_year g_strike g_type].
    intros (rest & -> & Hne1 & Hu1 & Hl2 & Hd2 & Hl3 & Hu3 & Hl4 & Hd4
                 & Hne5 & Hd5 & Htype).
    rewrite span_append;
      [|assumption
       |apply (stops_append is_upper is_digit);
        [exact upper_not_digit | eapply length_nonempty; eassumption | assumption]].
    apply String.eqb_neq in Hne1. rewrite Hne1.
    rewrite (take_class_exact 2 is_digit g2) by assumption.
    rewrite (take_class_exact 3 is_upper g3) by assumption.
    rewrite (take_class_exact 2 is_digit g4) by assumption.
    rewrite span_append; [|assumption|destruct Htype as [-> | ->]; reflexivity].
    apply String.eqb_neq in Hne5. rewrite Hne5.
    destruct Htype as [-> | ->].
    + now rewrite (proj2 (prefix_append "PE" _)) by eauto.
    + replace (String.prefix "PE" (String.append "CE" rest)) with false
        by reflexivity.
      now rewrite (proj2 (prefix_append "CE" _)) by eauto.
Qed.

Lemma regexp_search_None (s : string) :
  regexp_search s = None <->
  forall pre tail, s = String.append pre tail -> match_here tail = None.
Proof.
  induction s as [|c s IH]; cbn [regexp_search].
  - split.
    + intros _ pre tail Hs. destruct pre; [|discriminate]. push_append. now subst.
    + intros H. now rewrite (H "" "" eq_refl).
  - destruct (match_here (String c s)) as [g|] eqn:Hm.
    + split; [discriminate|]. intros H. specialize (H "" (String c s) eq_refl).
      congruence.
    + rewrite IH. split.
      * intros H pre tail Hs. destruct pre as [|d pre]; push_append.
        -- now subst.
        -- injection Hs as -> ->. now apply (H pre).
      * intros H pre tail ->. now apply (H (String c pre)).
Qed.

(** The search returns the groups of the leftmost position that matches. *)
Lemma regexp_search_Some (s : string) (g : groups) :
  regexp_search s = Some g <->
  exists pre tail,
    s = String.append pre tail /\ match_here tail = Some g /\
    forall pre' tail',
      s = String.append pre' tail' ->
      (String.length pre' < String.length pre)%nat ->
      match_here tail' = None.
Proof.
  induction s as [|c s IH]; cbn [regexp_search].
  - destruct (match_here "") as [g0|] eqn:Hm; [discriminate Hm|].
    split; [discriminate|].
    intros (pre & tail & Hs & Ht & _). destruct pre; [|discriminate].
    push_append. subst. congruence.
  - destruct (match_here (String c s)) as [g0|] eqn:Hm.
    + split.
      * intros [= <-]. exists "", (String c s). split; [reflexivity|].
        split; [assumption|]. intros pre' tail' _ Hlt. cbn in Hlt. lia.
      * intros (pre & tail & Hs & Ht & Hleft). destruct pre as [|d pre].
        -- push_append. subst. congruence.
        -- specialize (Hleft "" (String c s) eq_refl). cbn in Hleft.
           rewrite Hleft in Hm by lia. discriminate.
    + rewrite IH. split.
      * intros (pre & tail & -> & Ht & Hleft). exists (String c pre), tail.
        split; [reflexivity|]. split; [assumption|].
        intros pre' tail' Hs Hlt. destruct pre' as [|d pre'].
        -- push_append. subst. assumption.
        -- push_append. cbn in Hlt. injection Hs as -> Hs.
           apply (Hleft pre'); [exact Hs | lia].
      * intros (pre & tail & Hs & Ht & Hleft). destruct pre as [|d pre].
        -- push_append. subst. congruence.
        -- push_append. injection Hs as -> ->. exists pre, tail.
           split; [reflexivity|]. split; [assumption|].
           intros pre' tail' Hs' Hlt.
           apply (Hleft (String d pre')); [|cbn; lia].
           rewrite append_cons. now f_equal.
Qed.

(** The symbol of the end-to-end scenario, and two symbols outside the
    grammar. *)
Example parse_NIFTY25JAN2421500CE :
  regexp_search "NIFTY25JAN2421500CE"
    = Some (mkgroups "NIFTY" "25" "JAN" "24" "21500" "CE") /\
  parse_option_row (sample_option "NIFTY25JAN2421500CE" jan02 t0915 310)
    ≫= split_of_parsed
    = Converted
        (Splits.mk (Some "NIFTY25JAN2421500CE") (Some "NIFTY")
           (Some (mkdate 2024 1 25)) (Some 21500) (Some "CE") (Some jan02)).
Proof. split; reflexivity. Qed.

Example parse_outside_grammar :
  regexp_search "NIFTYXYZ" = None /\ regexp_search "NIFTY2410425000CE" = None.
Proof. split; reflexivity. Qed.

(** ** The enrichment statements *)

Lemma base_columns_seed (o : Options.row) : base_columns (seed_row o) = o.
Proof. destruct o; reflexivity. Qed.

Section Frame.
Variable tie : forall A : Type, list A -> option A.

Lemma update_from_base_columns {S : Type} (joins : CalData.row -> S -> bool)
    (set : S -> CalData.row -> CalData.row) (source : list S) (r : CalData.row) :
  (forall s r', base_columns (set s r') = base_columns r') ->
  base_columns (update_from tie joins set source r) = base_columns r.
Proof.
  intros Hset. unfold update_from.
  destruct (tie S _); [apply Hset | reflexivity].
Qed.

Lemma update_with_splits_base (db : database) :
  base_columns <$> cal_data (update_with_splits tie db) = base_columns <$> cal_data db.
Proof.
  cbn. rewrite <- list_fmap_compose. apply list_fmap_ext. intros _ r _. cbn.
  now apply update_from_base_columns.
Qed.

Lemma update_with_index_base (db : database) :
  base_columns <$> cal_data (update_with_index tie db) = base_columns <$> cal_data db.
Proof.
  cbn. rewrite <- list_fmap_compose. apply list_fmap_ext. intros _ r _. cbn.
  now apply update_from_base_columns.
Qed.

Lemma update_with_future_base (db : database) :
  base_columns <$> cal_data (update_with_future tie db) = base_columns <$> cal_data db.
Proof.
  cbn. rewrite <- list_fmap_compose. apply list_fmap_ext. intros _ r _. cbn.
  now apply update_from_base_columns.
Qed.
End Frame.

(** C10. The three back-fill updates leave the nine base columns of every
    row as step 5.1 seeded them, row by row and whichever joined row the
    engine uses on a tie: each update alone keeps them, and after all three
    the base columns of the rows the seed appended are the option rows
    themselves. *)
Theorem backfill_keeps_base_columns
    (tie : forall A : Type, list A -> option A) (db : database) :
  let seeded := populate_cal_data db in
  let filled :=
    update_with_future tie (update_with_index tie (update_with_splits tie seeded)) in
  base_columns <$> cal_data (update_with_splits tie seeded)
    = base_columns <$> cal_data seeded /\
  base_columns <$> cal_data filled = base_columns <$> cal_data seeded /\
  base_columns <$> cal_data filled = ((base_columns <$> cal_data db) ++ options db)%list /\
  length (cal_data filled) = length (cal_data seeded).
Proof.
  intros seeded filled.
  assert (Hfilled : base_columns <$> cal_data filled = base_columns <$> cal_data seeded).
  { unfold filled.
    now rewrite update_with_future_base, update_with_index_base, update_with_splits_base. }
  split; [apply update_with_splits_base|].
  split; [exact Hfilled|]. split.
  - rewrite Hfilled. cbn. rewrite fmap_app, <- list_fmap_compose.
    f_equal. rewrite <- (list_fmap_id (options db)) at 2.
    apply list_fmap_ext. intros _ o _. apply base_columns_seed.
  - apply (f_equal length) in Hfilled. now rewrite !length_fmap in Hfilled.
Qed.

(** ** Statements that can stop on a conversion error *)

Lemma bind_Converted {A B : Type} (m : conversion A) (k : A -> conversion B) (b : B) :
  m ≫= k = Converted b <-> exists a, m = Converted a /\ k a = Converted b.
Proof.
  destruct m as [a|msg]; cbn.
  - split; [eauto | now intros (a' & [= <-] & Hk)].
  - split; [discriminate | now intros (a' & [=] & _)].
Qed.

Lemma mapM_cons {A B : Type} (f : A -> conversion B) (x : A) (l : list A) :
  mapM f (x :: l) = y ← f x; k ← mapM f l; mret (y :: k).
Proof. reflexivity. Qed.

(** The rows a successful [mapM] yields are the images of the rows it was
    given, in the same order. *)
Lemma mapM_Converted {A B : Type} (f : A -> conversion B) (l : list A) (l' : list B) :
  mapM f l = Converted l' <-> Forall2 (fun x y => f x = Converted y) l l'.
Proof.
  revert l'. induction l as [|x l IH]; intros l'.
  - cbn. split.
    + intros [= <-]. constructor.
    + intros H. inversion H. reflexivity.
  - rewrite mapM_cons, bind_Converted. split.
    + intros (y & Hy & Hrest). apply bind_Converted in Hrest as (k & Hk & [= <-]).
      constructor; [exact Hy | now apply IH].
    + intros H. inversion H as [|x' y l1 k Hy Hk]; subst.
      exists y. split; [exact Hy|]. apply bind_Converted.
      exists k. split; [now apply IH | reflexivity].
Qed.

Lemma mapM_Converted_elem_of {A B : Type} (f : A -> conversion B) l l' (y : B) :
  mapM f l = Converted l' ->
  y ∈ l' <-> exists x, x ∈ l /\ f x = Converted y.
Proof.
  intros H. apply mapM_Converted in H.
  induction H as [|x y' l l' Hxy _ IH].
  - split; [intros Hy; now apply elem_of_nil in Hy|].
    intros (x & Hx & _). now apply elem_of_nil in Hx.
  - rewrite elem_of_cons, IH. split.
    + intros [-> | (x' & Hx' & Hf)].
      * exists x. split; [left|assumption].
      * exists x'. split; [now right|assumption].
    + intros (x' & Hx' & Hf). apply elem_of_cons in Hx' as [-> | Hx'].
      * left. congruence.
      * right. eauto.
Qed.

Lemma mapM_Converted_image {A B : Type} (f : A -> conversion B) l l' (x : A) :
  mapM f l = Converted l' -> x ∈ l -> exists y, y ∈ l' /\ f x = Converted y.
Proof.
  intros H. apply mapM_Converted in H.
  induction H as [|x' y l l' Hxy _ IH]; intros Hx.
  - now apply elem_of_nil in Hx.
  - apply elem_of_cons in Hx as [-> | Hx].
    + exists y. split; [left|assumption].
    + destruct (IH Hx) as (y' & Hy' & Hf). exists y'. split; [now right|assumption].
Qed.

Lemma mapM_Converted_fmap {A B C : Type} (f : A -> conversion B)
    (g : B -> C) (h : A -> C) l l' :
  (forall x y, f x = Converted y -> g y = h x) ->
  mapM f l = Converted l' -> g <$> l' = h <$> l.
Proof.
  intros Hgh H. apply mapM_Converted in H.
  induction H as [|x y l l' Hxy _ IH]; [reflexivity|].
  cbn. now rewrite (Hgh x y Hxy), IH.
Qed.

(** One row that does not convert stops the statement. *)
Lemma mapM_ConversionError {A B : Type} (f : A -> conversion B) l (x : A) msg :
  x ∈ l -> f x = ConversionError msg ->
  exists msg', mapM f l = ConversionError msg'.
Proof.
  intros Hx Hf. induction l as [|x' l IH]; [now apply elem_of_nil in Hx|].
  rewrite mapM_cons. apply elem_of_cons in Hx as [<- | Hx].
  - rewrite Hf. cbn. eauto.
  - destruct (f x') as [y|msg']; cbn; [|eauto].
    destruct (IH Hx) as (msg' & ->). cbn. eauto.
Qed.

(** ** The symbol decomposer *)

Lemma elem_of_candidates (opts : list Options.row) (o : Options.row) :
  o ∈ candidates opts <->
  o ∈ opts /\ holds (like_NIFTY (Options.symbol o)) = true.
Proof. unfold candidates. rewrite list_elem_of_filter. tauto. Qed.

Lemma parse_option_row_key (o1 o2 : Options.row) :
  Options.symbol o1 = Options.symbol o2 ->
  Options.date o1 = Options.date o2 ->
  parse_option_row o1 = parse_option_row o2.
Proof. unfold parse_option_row. now intros -> ->. Qed.

Lemma parse_option_row_Converted (o : Options.row) (p : parsed_symbol) :
  parse_option_row o = Converted p ->
  p_symbol p = Options.symbol o /\ p_date p = Options.date o /\
  p_instrument p = regexp_extract (Options.symbol o) 1 /\
  p_day p = regexp_extract (Options.symbol o) 2 /\
  p_month p = regexp_extract (Options.symbol o) 3 /\
  p_year p = regexp_extract (Options.symbol o) 4 /\
  cast_integer (regexp_extract (Options.symbol o) 5) = Converted (p_strike_price p) /\
  p_option_type p = regexp_extract (Options.symbol o) 6.
Proof.
  unfold parse_option_row. intros H.
  apply bind_Converted in H as (strike & Hstrike & [= <-]). cbn. tauto.
Qed.

Lemma split_of_parsed_Converted (p : parsed_symbol) (r : Splits.row) :
  split_of_parsed p = Converted r ->
  Splits.symbol r = p_symbol p /\ Splits.date r = p_date p /\
  Splits.instrument r = p_instrument p /\
  Splits.strike_price r = p_strike_price p /\
  Splits.option_type r = p_option_type p /\
  exists year day,
    cast_integer (p_year p) = Converted year /\
    cast_integer (p_day p) = Converted day /\
    make_date (sql_add (Some 2000) year) (month_number (p_month p)) day
      = Converted (Splits.expiry_date r).
Proof.
  unfold split_of_parsed. intros H.
  apply bind_Converted in H as (year & Hyear & H).
  apply bind_Converted in H as (day & Hday & H).
  apply bind_Converted in H as (expiry & Hexpiry & [= <-]). cbn.
  repeat split; try reflexivity. eauto.
Qed.

Lemma elem_of_parsed_symbols opts (parsed : list parsed_symbol) (p : parsed_symbol) :
  parsed_symbols opts = Converted parsed ->
  p ∈ parsed <->
  exists o, o ∈ opts /\ holds (like_NIFTY (Options.symbol o)) = true
            /\ parse_option_row o = Converted p.
Proof.
  unfold parsed_symbols. intros H.
  apply bind_Converted in H as (rows & Hrows & [= <-]).
  rewrite elem_of_remove_dups, (mapM_Converted_elem_of _ _ _ _ Hrows).
  split; intros (o & Ho & Hp); exists o.
  - apply elem_of_candidates in Ho. tauto.
  - split; [apply elem_of_candidates|]; tauto.
Qed.

Lemma elem_of_new_splits opts (rows : list Splits.row) (r : Splits.row) :
  new_splits opts = Converted rows ->
  r ∈ rows <->
  exists o p, o ∈ opts /\ holds (like_NIFTY (Options.symbol o)) = true
              /\ parse_option_row o = Converted p
              /\ fully_parsed p = true
              /\ split_of_parsed p = Converted r.
Proof.
  unfold new_splits. intros H.
  apply bind_Converted in H as (parsed & Hparsed & Hrows).
  rewrite (mapM_Converted_elem_of _ _ _ _ Hrows). split.
  - intros (p & Hp & Hr). apply list_elem_of_filter in Hp as [Hfull Hp].
    apply (elem_of_parsed_symbols _ _ _ Hparsed) in Hp as (o & Ho & Hc & Hop).
    exists o, p. tauto.
  - intros (o & p & Ho & Hc & Hop & Hfull & Hr). exists p. split; [|exact Hr].
    apply list_elem_of_filter. split; [exact Hfull|].
    apply (elem_of_parsed_symbols _ _ _ Hparsed). eauto.
Qed.

(** The decomposed columns of a split row are a function of its symbol. *)
Lemma split_columns_of_symbol (o1 o2 : Options.row) p1 p2 r1 r2 :
  Options.symbol o1 = Options.symbol o2 ->
  parse_option_row o1 = Converted p1 -> split_of_parsed p1 = Converted r1 ->
  parse_option_row o2 = Converted p2 -> split_of_parsed p2 = Converted r2 ->
  Splits.instrument r1 = Splits.instrument r2 /\
  Splits.expiry_date r1 = Splits.expiry_date r2 /\
  Splits.strike_price r1 = Splits.strike_price r2 /\
  Splits.option_type r1 = Splits.option_type r2.
Proof.
  intros Hsym Hp1 Hr1 Hp2 Hr2.
  apply parse_option_row_Converted in Hp1 as (_ & _ & Hi1 & Hd1 & Hm1 & Hy1 & Hs1 & Ht1).
  apply parse_option_row_Converted in Hp2 as (_ & _ & Hi2 & Hd2 & Hm2 & Hy2 & Hs2 & Ht2).
  apply split_of_parsed_Converted in Hr1
    as (_ & _ & Hri1 & Hrs1 & Hrt1 & y1 & d1 & Hcy1 & Hcd1 & He1).
  apply split_of_parsed_Converted in Hr2
    as (_ & _ & Hri2 & Hrs2 & Hrt2 & y2 & d2 & Hcy2 & Hcd2 & He2).
  rewrite Hsym in *.
  assert (p_strike_price p1 = p_strike_price p2) by congruence.
  assert (y1 = y2) by congruence. assert (d1 = d2) by congruence. subst.
  assert (Splits.expiry_date r1 = Splits.expiry_date r2) by congruence.
  repeat split; congruence.
Qed.

Lemma new_splits_key_NoDup opts (rows : list Splits.row) :
  new_splits opts = Converted rows -> NoDup (split_key <$> rows).
Proof.
  unfold new_splits. intros H.
  apply bind_Converted in H as (parsed & Hparsed & Hrows).
  rewrite (mapM_Converted_fmap split_of_parsed split_key
             (fun p => (p_symbol p, p_date p)) _ _) with (2 := Hrows).
  - apply NoDup_fmap_2_strong.
    + intros p1 p2 Hp1 Hp2 Hkey.
      apply list_elem_of_filter in Hp1 as [_ Hp1].
      apply list_elem_of_filter in Hp2 as [_ Hp2].
      apply (elem_of_parsed_symbols _ _ _ Hparsed) in Hp1 as (o1 & _ & _ & Ho1).
      apply (elem_of_parsed_symbols _ _ _ Hparsed) in Hp2 as (o2 & _ & _ & Ho2).
      destruct (parse_option_row_Converted _ _ Ho1) as (Hs1 & Hd1 & _).
      destruct (parse_option_row_Converted _ _ Ho2) as (Hs2 & Hd2 & _).
      injection Hkey as Hs Hd.
      assert (Heq : parse_option_row o1 = parse_option_row o2)
        by (apply parse_option_row_key; congruence).
      congruence.
    + unfold parsed_symbols in Hparsed.
      apply bind_Converted in Hparsed as (l & _ & [= <-]).
      apply NoDup_filter, NoDup_remove_dups.
  - intros p r Hr. apply split_of_parsed_Converted in Hr as (Hs & Hd & _).
    unfold split_key. now rewrite Hs, Hd.
Qed.

Lemma sample_insert_splits : insert_splits sample_database = Converted sample_decomposed.
Proof. vm_compute. reflexivity. Qed.

(** C2, the claim as stated fails: a symbol quoted on two trade dates gets
    two split rows, so the symbol alone is not a key. *)
Lemma splits_symbol_not_unique :
  insert_splits sample_database = Converted sample_decomposed /\
  splits sample_decomposed !! 0%nat =
    Some (Splits.mk (Some "NIFTY25JAN2421500CE") (Some "NIFTY")
            (Some (mkdate 2024 1 25)) (Some 21500) (Some "CE") (Some jan02)) /\
  splits sample_decomposed !! 1%nat =
    Some (Splits.mk (Some "NIFTY25JAN2421500CE") (Some "NIFTY")
            (Some (mkdate 2024 1 25)) (Some 21500) (Some "CE") (Some jan03)) /\
  ~ NoDup (Splits.symbol <$> splits sample_decomposed).
Proof.
  split; [vm_compute; reflexivity|].
  split; [vm_compute; reflexivity|]. split; [vm_compute; reflexivity|].
  apply (proj1 (bool_decide_eq_false _)). vm_compute. reflexivity.
Qed.

(** C2, amended. When the statement goes through it appends one row per
    distinct pair of a candidate symbol and a trade date it is quoted on:
    two of the new rows differ in symbol or in date, rows of one symbol
    agree on instrument, expiry date, strike and type, every new row is the
    decomposition of a candidate option row, and decomposing the same symbol
    (on the same date) again gives the same row. *)
Theorem splits_keyed_by_symbol_and_date (db db' : database) :
  insert_splits db = Converted db' ->
  exists rows,
    new_splits (options db) = Converted rows /\
    splits db' = (splits db ++ rows)%list /\
    NoDup (split_key <$> rows) /\
    (forall r1 r2,
        r1 ∈ rows -> r2 ∈ rows ->
        Splits.symbol r1 = Splits.symbol r2 ->
        Splits.instrument r1 = Splits.instrument r2 /\
        Splits.expiry_date r1 = Splits.expiry_date r2 /\
        Splits.strike_price r1 = Splits.strike_price r2 /\
        Splits.option_type r1 = Splits.option_type r2) /\
    (forall r,
        r ∈ rows <->
        exists o p, o ∈ options db /\ holds (like_NIFTY (Options.symbol o)) = true
                    /\ parse_option_row o = Converted p
                    /\ fully_parsed p = true
                    /\ split_of_parsed p = Converted r) /\
    (forall o1 o2,
        Options.symbol o1 = Options.symbol o2 -> Options.date o1 = Options.date o2 ->
        parse_option_row o1 ≫= split_of_parsed = parse_option_row o2 ≫= split_of_parsed).
Proof.
  unfold insert_splits. intros H.
  apply bind_Converted in H as (rows & Hrows & [= <-]).
  exists rows. split; [exact Hrows|]. split; [reflexivity|].
  split; [now apply new_splits_key_NoDup with (opts := options db)|].
  split; [|split; [intros r; now apply elem_of_new_splits|]].
  - intros r1 r2 Hr1 Hr2 Hsym.
    apply (elem_of_new_splits _ _ _ Hrows) in Hr1 as (o1 & p1 & _ & _ & Hp1 & _ & Hs1).
    apply (elem_of_new_splits _ _ _ Hrows) in Hr2 as (o2 & p2 & _ & _ & Hp2 & _ & Hs2).
    apply (split_columns_of_symbol o1 o2 p1 p2); try assumption.
    destruct (parse_option_row_Converted _ _ Hp1) as (Hps1 & _).
    destruct (parse_option_row_Converted _ _ Hp2) as (Hps2 & _).
    destruct (split_of_parsed_Converted _ _ Hs1) as (Hrs1 & _).
    destruct (split_of_parsed_Converted _ _ Hs2) as (Hrs2 & _).
    congruence.
  - intros o1 o2 Hs Hd. now rewrite (parse_option_row_key o1 o2).
Qed.

Lemma splits_keyed_by_symbol_and_date_witness :
  exists rows,
    new_splits (options sample_database) = Converted rows /\
    splits sample_decomposed = (splits sample_database ++ rows)%list /\
    NoDup (split_key <$> rows).
Proof.
  destruct (splits_keyed_by_symbol_and_date sample_database sample_decomposed
              sample_insert_splits) as (rows & Hrows & Hsplits & Hkey & _).
  exists rows. auto.
Defined.

(** ** Running the processor *)

(** Unfold the control flow of a computation on an explicit state. *)
Ltac unfold_m :=
  cbv beta iota delta
    [mbind M_bind mret M_ret raise get_processor get_world set_processor set_world
     try_except try_finally and_then logger outside session_database execute execute_checked query
     connect setup_database current_input copy_to_parquet fst snd
     with_files with_conn with_row_counts with_failed_files
     with_scratch with_artifacts with_sessions with_log with_clock
     memory_percent validate keep_temp conn current_file current_output db_file
     row_counts failed_files scratch artifacts sessions log clock
     negb].

Ltac run_with Hff :=
  repeat (unfold_m; rewrite ?Hff, ?lookup_insert_eq; cbn [from_option id]).

Lemma validate_data_off env t m p w :
  validate p = false -> validate_data env t m (p, w) = (Return true, (p, w)).
Proof.
  intros Hv. destruct p, w. cbn in Hv. subst.
  unfold validate_data. unfold_m. reflexivity.
Qed.

(** The gate with validation on, a session on [db] and no fault: two engine
    calls, the count recorded, the verdict logged. *)
Lemma validate_data_on env t m p w path :
  fault_free env -> validate p = true -> conn p = Some path ->
  let db := default empty_database (scratch w !! path) in
  validate_data env t m (p, w) =
  match table_count db t with
  | None =>
      (Return false,
       (p, with_log (log w ++ [ValidationMissing t]) (with_clock (S (clock w)) w)))
  | Some n =>
      (Return (negb (n <? m)),
       (with_row_counts (<[t := n]> (row_counts p)) p,
        with_log (log w ++ [if n <? m then ValidationShort t n m
                            else ValidationPassed t n])
          (with_clock (S (S (clock w))) w)))
  end.
Proof.
  intros Hff Hv Hc db. subst db. destruct p, w. cbn in Hv, Hc. subst.
  unfold validate_data. run_with Hff.
  destruct (table_count _ t) as [n|] eqn:Hcount; cbn [is_not_null];
    repeat (run_with Hff; rewrite ?Hcount); [|reflexivity].
  destruct (n <? m); reflexivity.
Qed.

Lemma quiet_env_fault_free : fault_free quiet_env.
Proof. intros n c. reflexivity. Qed.

Lemma sample_world_lookup (db : database) :
  scratch (sample_world db) !! "nifty_2024-01.duckdb" = Some db.
Proof. apply lookup_singleton_eq. Qed.

(** C7. With validation off the gate returns true and changes nothing,
    whatever the relation, the threshold and the environment.  With
    validation on (a session open on [db], no engine fault) it returns true
    exactly when the relation exists and holds at least [m] rows, and it
    records the observed count in the ledger, and only that entry. *)
Theorem validate_data_gate env t m p w :
  (validate p = false -> validate_data env t m (p, w) = (Return true, (p, w))) /\
  (forall path db,
   validate p = true ->
   fault_free env -> conn p = Some path -> scratch w !! path = Some db ->
   exists b p' w',
     validate_data env t m (p, w) = (Return b, (p', w')) /\
     (b = true <-> exists n, table_count db t = Some n /\ m <= n) /\
     (forall n, table_count db t = Some n ->
        row_counts p' = <[t := n]> (row_counts p)) /\
     (table_count db t = None -> row_counts p' = row_counts p) /\
     scratch w' = scratch w).
Proof.
  split; [apply validate_data_off|].
  intros path db Hv Hff Hc Hdb.
  rewrite (validate_data_on env t m p w path Hff Hv Hc).
  rewrite Hdb. cbn [default from_option id].
  destruct (table_count db t) as [n|]; do 3 eexists; (split; [reflexivity|]);
    destruct p, w; cbn; (split; [|split; [|split]]); try congruence.
  - split.
    + intros Hb. exists n. split; [reflexivity|].
      destruct (Z.ltb_spec n m); [discriminate | lia].
    + intros (n' & [= <-] & Hle).
      destruct (Z.ltb_spec n m); [lia | reflexivity].
  - split; [discriminate|]. now intros (n & Hn & _).
Qed.

Lemma validate_data_gate_witness :
  validate_data quiet_env "options" 100
    (sample_processor false, sample_world sample_database)
  = (Return true, (sample_processor false, sample_world sample_database)) /\
  exists b p' w',
    validate_data quiet_env "options" 100
      (sample_processor true, sample_world sample_database)
    = (Return b, (p', w')) /\
    (b = true <-> exists n, table_count sample_database "options" = Some n /\ 100 <= n).
Proof.
  split.
  - apply (validate_data_gate quiet_env "options" 100
             (sample_processor false) (sample_world sample_database)).
    reflexivity.
  - destruct (proj2 (validate_data_gate quiet_env "options" 100
                       (sample_processor true) (sample_world sample_database))
                "nifty_2024-01.duckdb" sample_database eq_refl
                quiet_env_fault_free eq_refl (sample_world_lookup _))
      as (b & p' & w' & Hrun & Hb & _).
    exists b, p', w'. split; assumption.
Defined.

(** ** Rules for [hoare] *)

Lemma hoare_conseq {A} (P P' : state -> Prop) (m : M A)
    (Q Q' : outcome A -> state -> Prop) :
  hoare P' m Q' -> (forall st, P st -> P' st) ->
  (forall r st, Q' r st -> Q r st) -> hoare P m Q.
Proof. intros H HP HQ st Hst. apply HQ, H, HP, Hst. Qed.

Lemma hoare_ret {A} (P : state -> Prop) (a : A) (Q : outcome A -> state -> Prop) :
  (forall st, P st -> Q (Return a) st) -> hoare P (mret a) Q.
Proof. intros H st Hst. apply H, Hst. Qed.

Lemma hoare_raise {A} (P : state -> Prop) (e : exn) (Q : outcome A -> state -> Prop) :
  (forall st, P st -> Q (Raise e) st) -> hoare P (raise e) Q.
Proof. intros H st Hst. apply H, Hst. Qed.

Lemma hoare_bind {A B} (P : state -> Prop) (R : A -> state -> Prop)
    (m : M A) (k : A -> M B) (Q : outcome B -> state -> Prop) :
  hoare P m (fun r st => match r with
                         | Return a => R a st
                         | Raise e => Q (Raise e) st
                         end) ->
  (forall a, hoare (R a) (k a) Q) ->
  hoare P (m ≫= k) Q.
Proof.
  intros Hm Hk st Hst. specialize (Hm st Hst).
  unfold mbind, M_bind. destruct (m st) as [[a|e] st']; cbn in *.
  - apply Hk, Hm.
  - exact Hm.
Qed.

Lemma hoare_try_except {A} (P : state -> Prop) (R : string -> state -> Prop)
    (body : M A) (handler : string -> M A) (Q : outcome A -> state -> Prop) :
  hoare P body (fun r st => match r with
                            | Raise (Exception msg) => R msg st
                            | _ => Q r st
                            end) ->
  (forall msg, hoare (R msg) (handler msg) Q) ->
  hoare P (try_except body handler) Q.
Proof.
  intros Hb Hh st Hst. specialize (Hb st Hst).
  unfold try_except. destruct (body st) as [[a|[|msg]] st']; cbn in *;
    try exact Hb.
  apply Hh, Hb.
Qed.

Lemma hoare_try_finally {A} (P R : state -> Prop)
    (body : M A) (final : M unit) (Q : outcome A -> state -> Prop) :
  hoare P body (fun _ st => R st) ->
  hoare R final (fun r st => forall r' : outcome A, Q r' st) ->
  hoare P (try_finally body final) Q.
Proof.
  intros Hb Hf st Hst. specialize (Hb st Hst).
  unfold try_finally. destruct (body st) as [r st']. cbn in Hb.
  specialize (Hf st' Hb). destruct (final st') as [[[]|e] st'']; cbn in *; apply Hf.
Qed.

Lemma hoare_get_processor (P : state -> Prop) (Q : outcome processor -> state -> Prop) :
  (forall st, P st -> Q (Return (fst st)) st) -> hoare P get_processor Q.
Proof. intros H st Hst. apply H, Hst. Qed.

Lemma hoare_get_world (P : state -> Prop) (Q : outcome world -> state -> Prop) :
  (forall st, P st -> Q (Return (snd st)) st) -> hoare P get_world Q.
Proof. intros H st Hst. apply H, Hst. Qed.

Lemma hoare_set_processor (P : state -> Prop) (f : processor -> processor)
    (Q : outcome unit -> state -> Prop) :
  (forall p w, P (p, w) -> Q (Return tt) (f p, w)) -> hoare P (set_processor f) Q.
Proof. intros H [p w] Hst. apply H, Hst. Qed.

Lemma hoare_set_world (P : state -> Prop) (f : world -> world)
    (Q : outcome unit -> state -> Prop) :
  (forall p w, P (p, w) -> Q (Return tt) (p, f w)) -> hoare P (set_world f) Q.
Proof. intros H [p w] Hst. apply H, Hst. Qed.

Lemma no_exception_may_fault env {A} (r : outcome A) :
  no_exception env r -> may_fault env r.
Proof. destruct r as [a|[|msg]]; cbn; tauto. Qed.

Section Rules.
Variable env : environment.

Lemma safe_inv {A} (I : state -> Prop) (m : M A) : safe env I m -> inv env I m.
Proof.
  intros H st Hst. destruct (H st Hst) as [HI Hr].
  split; [exact HI | now apply no_exception_may_fault].
Qed.

Lemma safe_ret {A} (I : state -> Prop) (a : A) : safe env I (mret a).
Proof. intros st Hst. split; [exact Hst | exact Logic.I]. Qed.

Lemma inv_ret {A} (I : state -> Prop) (a : A) : inv env I (mret a).
Proof. apply safe_inv, safe_ret. Qed.

Lemma inv_raise {A} (I : state -> Prop) (msg : string) :
  inv env I (raise (Exception msg) : M A).
Proof. intros st Hst. split; [exact Hst | exact Logic.I]. Qed.

Lemma inv_bind {A B} (I : state -> Prop) (m : M A) (k : A -> M B) :
  inv env I m -> (forall a, inv env I (k a)) -> inv env I (m ≫= k).
Proof.
  intros Hm Hk. apply (hoare_bind I (fun _ st => I st)); [|exact Hk].
  intros st Hst. destruct (Hm st Hst) as [HI Hr].
  now destruct (fst (m st)).
Qed.

Lemma safe_bind {A B} (I : state -> Prop) (m : M A) (k : A -> M B) :
  safe env I m -> (forall a, safe env I (k a)) -> safe env I (m ≫= k).
Proof.
  intros Hm Hk. apply (hoare_bind I (fun _ st => I st)); [|exact Hk].
  intros st Hst. destruct (Hm st Hst) as [HI Hr].
  now destruct (fst (m st)).
Qed.

Lemma safe_try_except {A} (I : state -> Prop) (body : M A) (handler : string -> M A) :
  inv env I body -> (forall msg, safe env I (handler msg)) ->
  safe env I (try_except body handler).
Proof.
  intros Hb Hh. apply (hoare_try_except I (fun _ st => I st)); [|exact Hh].
  intros st Hst. destruct (Hb st Hst) as [HI Hr].
  destruct (fst (body st)) as [a|[|msg]]; cbn in *; tauto.
Qed.

Lemma safe_get_processor (I : state -> Prop) : safe env I get_processor.
Proof. intros st Hst. split; [exact Hst | exact Logic.I]. Qed.

Lemma safe_get_world (I : state -> Prop) : safe env I get_world.
Proof. intros st Hst. split; [exact Hst | exact Logic.I]. Qed.

Lemma inv_get_processor (I : state -> Prop) : inv env I get_processor.
Proof. apply safe_inv, safe_get_processor. Qed.

Lemma inv_get_world (I : state -> Prop) : inv env I get_world.
Proof. apply safe_inv, safe_get_world. Qed.

(** What a call to the outside raises is a fault of the environment. *)
Lemma outside_outcome (c : call) (st : state) :
  may_fault env (fst (outside env c st)).
Proof.
  destruct st as [p w]. unfold outside. unfold_m.
  destruct (fault env _ c) as [[|msg]|] eqn:Hf; cbn; try exact Logic.I.
  do 2 eexists. exact Hf.
Qed.

Lemma inv_outside (I : state -> Prop) (c : call) :
  (forall p w, I (p, w) -> I (p, with_clock (S (clock w)) w)) ->
  inv env I (outside env c).
Proof.
  intros Htick [p w] Hst. split; [|apply outside_outcome].
  unfold outside. unfold_m. destruct (fault env _ c); apply Htick in Hst; exact Hst.
Qed.
End Rules.

Section Evolves.
Variable env : environment.
Variable path : string.
Variable st0 : state.
Hypothesis session_open : conn (fst st0) = Some path.

Lemma evolves_refl : evolves path st0 st0.
Proof. unfold evolves. tauto. Qed.

Lemma evolves_tick p w : evolves path st0 (p, w) ->
  evolves path st0 (p, with_clock (S (clock w)) w).
Proof. destruct w. exact (fun H => H). Qed.

Lemma safe_logger (r : log_record) : safe env (evolves path st0) (logger r).
Proof. intros [p w] Hst. split; [exact Hst | exact Logic.I]. Qed.

Lemma inv_session_database : inv env (evolves path st0) session_database.
Proof.
  intros [p w] Hst. unfold session_database. unfold_m.
  destruct p as [? ? ? [c|] ? ? ? ? ?]; split; (exact Hst || exact Logic.I).
Qed.

Lemma inv_execute (statement : database -> database) :
  inv env (evolves path st0) (execute env statement).
Proof.
  unfold execute.
  apply (hoare_bind _ (fun a st => evolves path st0 st /\ fst a = path)).
  { intros [p w] Hst.
    assert (Hc : conn p = Some path) by (rewrite <- session_open; apply Hst).
    destruct p. cbn in Hc. subst. unfold session_database. unfold_m. cbn. tauto. }
  intros [pa db]. apply (hoare_bind _ (fun _ st => evolves path st0 st /\ pa = path)).
  { intros [p w] [Hst Hpa]. cbn in Hpa.
    destruct (inv_outside env _ Sql evolves_tick (p, w) Hst) as [HI Hr].
    destruct (fst (outside env Sql (p, w))); tauto. }
  intros _ [p w] [(H1 & H2 & H3 & H4 & H5 & H6) ->]. split; [|exact Logic.I].
  destruct w. cbn in *. repeat split; try assumption; cbn.
  - intros k Hk. rewrite lookup_insert_ne by congruence. now apply H5.
  - intros _. rewrite lookup_insert_eq. eauto.
Qed.

Lemma inv_execute_checked (statement : database -> conversion database) :
  inv env (evolves path st0) (execute_checked env statement).
Proof.
  unfold execute_checked.
  apply (hoare_bind _ (fun a st => evolves path st0 st /\ fst a = path)).
  { intros [p w] Hst.
    assert (Hc : conn p = Some path) by (rewrite <- session_open; apply Hst).
    destruct p. cbn in Hc. subst. unfold session_database. unfold_m. cbn. tauto. }
  intros [pa db]. apply (hoare_bind _ (fun _ st => evolves path st0 st /\ pa = path)).
  { intros [p w] [Hst Hpa]. cbn in Hpa.
    destruct (inv_outside env _ Sql evolves_tick (p, w) Hst) as [HI Hr].
    destruct (fst (outside env Sql (p, w))); tauto. }
  intros _ [p w] [Hst ->]. destruct (statement db) as [db'|msg].
  - destruct Hst as (H1 & H2 & H3 & H4 & H5 & H6). split; [|exact Logic.I].
    destruct w. cbn in *. repeat split; try assumption; cbn.
    + intros k Hk. rewrite lookup_insert_ne by congruence. now apply H5.
    + intros _. rewrite lookup_insert_eq. eauto.
  - split; [exact Hst | exact Logic.I].
Qed.

Lemma inv_query {A} (q : database -> A) : inv env (evolves path st0) (query env q).
Proof.
  unfold query. apply inv_bind; [apply inv_session_database|]. intros [pa db].
  apply inv_bind; [apply inv_outside, evolves_tick|]. intros _. apply inv_ret.
Qed.

Lemma inv_set_artifacts (f : world -> gmap string (list CalData.row)) :
  inv env (evolves path st0) (set_world (fun w => with_artifacts (f w) w)).
Proof. intros [p w] Hst. destruct w. split; [exact Hst | exact Logic.I]. Qed.

Lemma inv_copy_to_parquet : inv env (evolves path st0) (copy_to_parquet env).
Proof.
  unfold copy_to_parquet. apply inv_bind; [apply inv_session_database|].
  intros [pa db]. apply inv_bind; [apply inv_get_processor|]. intros p.
  apply inv_bind; [apply inv_outside, evolves_tick|]. intros _.
  destruct (current_output p); [apply inv_set_artifacts | apply inv_raise].
Qed.

Lemma inv_set_row_counts (f : processor -> gmap string Z) :
  inv env (evolves path st0) (set_processor (fun p => with_row_counts (f p) p)).
Proof. intros [p w] Hst. destruct p. split; [exact Hst | exact Logic.I]. Qed.

Lemma inv_current_input : inv env (evolves path st0) current_input.
Proof.
  unfold current_input. apply inv_bind; [apply inv_get_processor|]. intros p.
  destruct (current_file p); [apply inv_ret | apply inv_raise].
Qed.

(** Keep [evolves] through a computation, rule by rule. *)
Ltac inv_step :=
  first
    [ apply inv_ret
    | apply inv_raise
    | apply safe_inv, safe_logger
    | apply inv_execute
    | apply inv_execute_checked
    | apply inv_query
    | apply inv_copy_to_parquet
    | apply inv_set_row_counts
    | apply inv_current_input
    | apply inv_get_processor
    | apply inv_get_world
    | match goal with
      | |- inv _ _ (if ?b then _ else _) => destruct b
      | |- inv _ _ (match ?x with _ => _ end) => destruct x
      end
    | apply inv_bind; [|intros ?] ].

Ltac safe_step :=
  first
    [ apply safe_ret
    | apply safe_logger
    | apply safe_get_processor
    | apply safe_try_except; [|intros ?]
    | match goal with
      | |- safe _ _ (if ?b then _ else _) => destruct b
      | |- safe _ _ (match ?x with _ => _ end) => destruct x
      end
    | apply safe_bind; [|intros ?] ].

Lemma safe_validate_data (t : string) (m : Z) :
  safe env (evolves path st0) (validate_data env t m).
Proof.
  unfold validate_data. repeat safe_step. repeat inv_step.
Qed.

Lemma safe_and_then (a b : M bool) :
  safe env (evolves path st0) a -> safe env (evolves path st0) b ->
  safe env (evolves path st0) (and_then a b).
Proof.
  intros Ha Hb. unfold and_then. apply safe_bind; [exact Ha|].
  intros [|]; [exact Hb | apply safe_ret].
Qed.

Lemma safe_create_option_data : safe env (evolves path st0) (create_option_data env).
Proof.
  unfold create_option_data. repeat safe_step.
  repeat first [apply safe_inv, safe_validate_data | inv_step].
Qed.

Lemma safe_create_index_data : safe env (evolves path st0) (create_index_data env).
Proof.
  unfold create_index_data.
  repeat first [apply safe_validate_data | safe_step].
  repeat first [apply safe_inv, safe_validate_data | inv_step].
Qed.

Lemma safe_create_future_data : safe env (evolves path st0) (create_future_data env).
Proof.
  unfold create_future_data.
  repeat first [apply safe_validate_data | apply safe_and_then | safe_step].
  repeat first [apply safe_inv, safe_validate_data | inv_step].
Qed.

Lemma safe_create_split_data : safe env (evolves path st0) (create_split_data env).
Proof.
  unfold create_split_data.
  repeat first [apply safe_validate_data | safe_step].
  repeat first [apply safe_inv, safe_validate_data | inv_step].
Qed.

Lemma safe_create_cal_data : safe env (evolves path st0) (create_cal_data env).
Proof.
  unfold create_cal_data.
  repeat first [apply safe_validate_data | apply safe_and_then | safe_step].
  repeat first [apply safe_inv, safe_validate_data | inv_step].
Qed.

Lemma safe_filter_and_export : safe env (evolves path st0) (filter_and_export env).
Proof.
  unfold filter_and_export.
  repeat first [apply safe_validate_data | safe_step].
  repeat first [apply safe_inv, safe_validate_data | inv_step].
Qed.

(** The chain of the six stages keeps the session and its file, and ends in
    a verdict or an interrupt. *)
Lemma safe_stages :
  safe env (evolves path st0)
    (and_then (create_option_data env)
       (and_then (create_index_data env)
          (and_then (create_future_data env)
             (and_then (create_split_data env)
                (and_then (create_cal_data env) (filter_and_export env)))))).
Proof.
  repeat apply safe_and_then;
    auto using safe_create_option_data, safe_create_index_data,
      safe_create_future_data, safe_create_split_data, safe_create_cal_data,
      safe_filter_and_export.
Qed.
End Evolves.

(** ** [cleanup] and [process_file] *)

Lemma hoare_try_finally_outcome {A} (P : state -> Prop)
    (R : outcome A -> state -> Prop)
    (body : M A) (final : M unit) (Q : outcome A -> state -> Prop) :
  hoare P body R ->
  (forall r, hoare (R r) final
               (fun rf st => match rf with
                             | Return _ => Q r st
                             | Raise e => Q (Raise e) st
                             end)) ->
  hoare P (try_finally body final) Q.
Proof.
  intros Hb Hf st Hst. specialize (Hb st Hst).
  unfold try_finally. destruct (body st) as [r st']. cbn in Hb.
  specialize (Hf r st' Hb). destruct (final st') as [[[]|e] st'']; exact Hf.
Qed.

Lemma str_replace_nonempty (old new s : string) :
  new <> "" -> s <> "" -> str_replace old new s <> "".
Proof.
  intros Hnew Hs. destruct s as [|c s]; [congruence|].
  unfold str_replace. cbn [replace_from].
  destruct (String.prefix old (String c s)); [|discriminate].
  destruct new; [congruence | discriminate].
Qed.

Lemma filter_ne_not_in (x : string) (l : list string) :
  x ∉ l -> filter (fun s => s <> x) l = l.
Proof.
  induction l as [|y l IH]; [reflexivity|].
  intros Hx. apply not_elem_of_cons in Hx as [Hxy Hx].
  rewrite filter_cons_True by congruence. now rewrite IH.
Qed.

(** [cleanup] after any run of the pipeline: it returns with the session
    closed and the processor reset, having removed the scratch file unless
    it is kept or the removal faults; only an interrupt of the removal makes
    it raise. *)
Lemma cleanup_run (env : environment) (dbf : string) (p0 : processor) (w0 : world) :
  (forall n path, fault env n (Close path) = None) ->
  dbf <> "" -> dbf ∉ sessions w0 ->
  hoare (before_cleanup dbf p0 w0) (cleanup env)
    (fun rf st =>
       match rf with
       | Return _ =>
           after_cleanup dbf p0 w0 st /\ scratch_removed env dbf p0 st
       | Raise e =>
           e = KeyboardInterrupt /\
           exists n, fault env n (Remove dbf) = Some KeyboardInterrupt
       end).
Proof.
  intros close_succeeds named no_session [p w] (Hdb & Hkeep & Hframe & Hconn).
  destruct p as [mp v kt c cf co d rc ff], w as [sc ar se lg ck].
  destruct p0 as [mp0 v0 kt0 c0 cf0 co0 d0 rc0 ff0], w0 as [sc0 ar0 se0 lg0 ck0].
  cbn in Hdb, Hkeep, Hframe, Hconn, no_session. subst d kt.
  assert (Hname : String.eqb dbf "" = false) by now apply String.eqb_neq.
  assert (Hse : (c = None /\ se = se0)
                \/ (c = Some dbf /\ filter (fun s => s <> dbf) se = se0)).
  { destruct Hconn as [[-> ->]|[-> ->]]; [now left | right].
    split; [reflexivity|].
    rewrite filter_cons_False by tauto. now apply filter_ne_not_in. }
  clear Hconn. unfold cleanup, after_cleanup, scratch_removed.
  destruct Hse as [[-> ->]|[-> Hse]]; unfold_m; rewrite ?close_succeeds;
    unfold_m; rewrite Hname; cbn [negb andb];
    destruct kt0; cbn [negb andb]; unfold_m.
  all: try (destruct (bool_decide (is_Some (sc !! dbf))) eqn:Hex; unfold_m).
  all: try match goal with
         | |- context [fault ?e ?n (Remove ?d)] =>
             destruct (fault e n (Remove d)) as [[|msg]|] eqn:Hrm
         end; unfold_m.
  all: cbn.
  all: try (split; [reflexivity | eexists; exact Hrm]).
  all: split; [repeat split; auto
              |split; [intros Hkeep | intros Hkeep Hno]]; try discriminate.
  all: try (intros k Hk; rewrite lookup_delete_ne by congruence; now apply Hframe).
  all: try (rewrite Hno in Hrm; discriminate).
  all: try apply lookup_delete_eq.
  all: try (left; apply lookup_delete_eq).
  all: try (right; eexists; apply in_or_app; right; left; reflexivity).
  all: try left.
  all: apply bool_decide_eq_false in Hex;
    destruct (sc !! dbf) eqn:Hsc; [exfalso; apply Hex; eauto | reflexivity].
Qed.

Lemma inv_set_failed_files env (path : string) (st0 : state)
    (f : processor -> list (string * string)) :
  inv env (evolves path st0) (set_processor (fun p => with_failed_files (f p) p)).
Proof. intros [p w] Hst. destruct p. split; [exact Hst | exact Logic.I]. Qed.

Lemma inv_setup_database env (path : string) (st0 : state) :
  inv env (evolves path st0) (setup_database env).
Proof.
  unfold setup_database. apply inv_bind; [apply inv_session_database|].
  intros _. apply inv_outside, evolves_tick.
Qed.

Lemma before_cleanup_stable (dbf : string) (p0 : processor) (w0 : world)
    (st st' : state) :
  before_cleanup dbf p0 w0 st ->
  conn (fst st') = conn (fst st) -> db_file (fst st') = db_file (fst st) ->
  keep_temp (fst st') = keep_temp (fst st) ->
  sessions (snd st') = sessions (snd st) -> scratch (snd st') = scratch (snd st) ->
  before_cleanup dbf p0 w0 st'.
Proof.
  unfold before_cleanup. intros (H1 & H2 & H3 & H4) -> -> -> -> ->. tauto.
Qed.

Lemma process_file_run env input output p w :
  (forall n path, fault env n (Close path) = None) ->
  input <> "" -> conn p = None ->
  let dbf := str_replace ".parquet" ".duckdb" input in
  dbf ∉ sessions w ->
  hoare (fun st => st = (p, w)) (process_file env input output)
    (processed env dbf p w).
Proof.
  intros Hclose Hinput Hconn dbf Hsess.
  assert (Hdbf : dbf <> "") by (apply str_replace_nonempty; [discriminate | assumption]).
  unfold process_file.
  apply (hoare_try_finally_outcome _
           (fun r st => before_cleanup dbf p w st /\ no_exception env r)).
  - (* the pipeline, with the [except Exception] clause *)
    apply (hoare_try_except _ (fun _ st => before_cleanup dbf p w st)).
    + fold dbf. cbv zeta.
      apply (hoare_bind _ (fun _ st => st = (with_files (Some input) (Some output) (Some dbf) p, w))).
      { intros st ->. reflexivity. }
      intros _.
      set (p1 := with_files (Some input) (Some output) (Some dbf) p).
      assert (Hpre : forall w', sessions w' = sessions w -> scratch w' = scratch w ->
                before_cleanup dbf p w (p1, w')).
      { intros w' Hs Hsc. unfold before_cleanup. subst p1. destruct p.
        cbn in *. rewrite Hs, Hsc. subst. tauto. }
      apply (hoare_bind _ (fun _ st =>
               exists st2, conn (fst st2) = Some dbf /\ evolves dbf st2 st /\
                           before_cleanup dbf p w st2)).
      { intros st ->. unfold connect.
        pose proof (outside_outcome env (Connect dbf) (p1, w)) as Hout.
        revert Hout. unfold outside. unfold_m.
        match goal with
        | |- context [fault ?e ?n (Connect ?d)] =>
            destruct (fault e n (Connect d)) as [[|msg]|]
        end; cbn; intros Hout.
        - split; [|exact Hout]. apply Hpre; destruct w; reflexivity.
        - apply Hpre; destruct w; reflexivity.
        - eexists. split; [|split; [apply evolves_refl|]].
          + subst p1. destruct p. reflexivity.
          + unfold before_cleanup. subst p1. destruct p, w. cbn in *.
            split; [reflexivity|]. split; [reflexivity|]. split; [|now right].
            intros k Hk. now rewrite lookup_insert_ne by congruence. }
      intros _.
      assert (Hend : forall (r : outcome bool) st,
                (exists st2, conn (fst st2) = Some dbf /\ evolves dbf st2 st /\
                             before_cleanup dbf p w st2) ->
                may_fault env r ->
                match r with
                | Raise (Exception _) => before_cleanup dbf p w st
                | _ => before_cleanup dbf p w st /\ no_exception env r
                end).
      { intros r st (st2 & Hc2 & (E1 & E2 & E3 & E4 & E5 & E6) & (B1 & B2 & B3 & B4)) Hr.
        assert (Hb : before_cleanup dbf p w st).
        { unfold before_cleanup. rewrite E1, E2, E3, E4.
          split; [assumption|]. split; [assumption|]. split; [|assumption].
          intros k Hk. rewrite E5 by assumption. now apply B3. }
        destruct r as [b|[|msg]]; cbn in *; tauto. }
      intros st Hst. destruct Hst as (st2 & Hc2 & Hev & Hb).
      assert (Hrest : inv env (evolves dbf st2)
                (setup_database env ≫= (fun _ =>
                 logger (ProcessingFile (basename env input)) ≫= (fun _ =>
                 and_then (create_option_data env)
                   (and_then (create_index_data env)
                      (and_then (create_future_data env)
                         (and_then (create_split_data env)
                            (and_then (create_cal_data env)
                               (filter_and_export env))))))))).
      { apply inv_bind; [apply inv_setup_database|]. intros _.
        apply inv_bind; [apply safe_inv, safe_logger|]. intros _.
        apply safe_inv, safe_stages. exact Hc2. }
      destruct (Hrest st Hev) as [Hev' Hr'].
      apply Hend; [|exact Hr']. exists st2. auto.
    + (* the handler *)
      intros msg.
      apply (hoare_bind _ (fun _ st => before_cleanup dbf p w st)).
      { intros [p' w'] Hb. cbn. eapply before_cleanup_stable; [exact Hb|..];
          destruct w'; reflexivity. }
      intros _.
      apply (hoare_bind _ (fun _ st => before_cleanup dbf p w st)).
      { intros [p' w'] Hb. cbn. eapply before_cleanup_stable; [exact Hb|..];
          destruct p'; reflexivity. }
      intros _ st Hb. split; [exact Hb | exact Logic.I].
  - (* cleanup *)
    intros r st [Hb Hr].
    pose proof (cleanup_run env dbf p w Hclose Hdbf Hsess st Hb) as Hc.
    destruct (cleanup env st) as [[[]|e] st'']; cbn in *.
    + split; [exact Hr | now left].
    + destruct Hc as [-> [n Hrm]].
      split; [do 2 eexists; exact Hrm | right; eauto].
Qed.

Section CleanupSucceeds.
Variable env : environment.
Hypothesis close_succeeds : forall n path, fault env n (Close path) = None.
Hypothesis remove_succeeds : forall n path, fault env n (Remove path) = None.

(** One file, whatever the pipeline did. *)
Lemma process_file_cleans input output p w r st' :
  input <> "" -> conn p = None -> scratch_file input ∉ sessions w ->
  process_file env input output (p, w) = (r, st') ->
  no_exception env r /\
  after_cleanup (scratch_file input) p w st' /\
  (keep_temp p = false -> scratch (snd st') !! scratch_file input = None).
Proof.
  intros Hinput Hconn Hsess Hrun.
  pose proof (process_file_run env input output p w close_succeeds Hinput Hconn
                Hsess (p, w) eq_refl) as Hp.
  rewrite Hrun in Hp. cbn in Hp.
  destruct Hp as [Hne [[Hafter [_ Hgone]]|[_ [n Hn]]]].
  - split; [assumption|]. split; [assumption|]. intros Hk. apply Hgone; auto.
  - rewrite remove_succeeds in Hn. discriminate.
Qed.

Lemma between_files_processed kt (absent : string -> Prop) input p w st' :
  between_files kt absent (p, w) ->
  after_cleanup (scratch_file input) p w st' ->
  (keep_temp p = false -> scratch (snd st') !! scratch_file input = None) ->
  between_files kt (fun k => absent k \/ k = scratch_file input) st'.
Proof.
  intros (B1 & B2 & B3 & B4) (A1 & A2 & A3 & A4 & A5 & A6 & A7 & A8) Hgone.
  cbn in B1, B2, B3, B4. unfold between_files.
  split; [assumption|]. split; [congruence|]. split; [congruence|].
  intros -> k [Hk| ->]; [|now apply Hgone].
  destruct (decide (k = scratch_file input)) as [->|Hne]; [now apply Hgone|].
  rewrite A8 by assumption. now apply B4.
Qed.

Lemma between_files_weaken kt (absent absent' : string -> Prop) st :
  (forall k, absent k -> absent' k) ->
  between_files kt absent' st -> between_files kt absent st.
Proof. unfold between_files. intros Hsub (H1 & H2 & H3 & H4). eauto 10. Qed.

Lemma between_files_log kt absent p w (r : log_record) :
  between_files kt absent (p, w) ->
  between_files kt absent (snd (logger r (p, w))).
Proof. intros H. destruct w. exact H. Qed.

(** The whole batch: every file is cleaned up before the next one starts,
    so between two files and at the end no session is open and, unless
    scratch files are kept, the scratch file of every file processed so far
    is gone. *)
Lemma batch_loop_cleans (a : Args.t) kt (input_files : list string) :
  Forall (fun f => f <> "") input_files ->
  forall fc sc (absent : string -> Prop),
  hoare (between_files kt absent) (batch_loop env a input_files fc sc)
    (fun r st =>
       no_exception env r /\
       between_files kt absent st /\
       (forall x, r = Return x -> kt = false ->
          forall f, f ∈ input_files -> scratch (snd st) !! scratch_file f = None)).
Proof.
  induction 1 as [|f rest Hf Hrest IH]; intros fc sc absent.
  - intros st Hst. cbn. split; [exact Logic.I|]. split; [exact Hst|].
    intros x _ _ f Hin. now apply elem_of_nil in Hin.
  - cbn [batch_loop].
    set (absent' := fun k => absent k \/ k = scratch_file f).
    assert (Hrest' : forall fc' sc',
              hoare (between_files kt absent') (batch_loop env a rest fc' sc')
                (fun r st =>
                   no_exception env r /\ between_files kt absent st /\
                   (forall x, r = Return x -> kt = false ->
                      forall g, g ∈ f :: rest ->
                                scratch (snd st) !! scratch_file g = None))).
    { intros fc' sc'. eapply hoare_conseq; [apply (IH fc' sc' absent')|auto|].
      intros r st (Hne & Hb & Hall). split; [assumption|]. split.
      - eapply between_files_weaken; [|exact Hb]. intros k Hk. now left.
      - intros x Hx Hkt g Hg. apply elem_of_cons in Hg as [->|Hg].
        + destruct Hb as (_ & _ & _ & Habs). apply Habs; [assumption|]. now right.
        + eapply Hall; eauto. }
    apply (hoare_bind _ (fun _ st => between_files kt absent' st)).
    + intros [p w] Hst.
      destruct (process_file env f _ (p, w)) as [r st'] eqn:Hrun.
      pose proof Hst as (Hc & Hk & Hs & _). cbn in Hc, Hk, Hs.
      apply process_file_cleans in Hrun as (Hne & Hafter & Hgone);
        [|assumption|assumption|rewrite Hs; apply not_elem_of_nil].
      assert (Hb : between_files kt absent' st')
        by (eapply between_files_processed; eauto).
      cbn. destruct r as [ok|e]; [exact Hb|].
      split; [assumption|]. split.
      * eapply between_files_weaken; [|exact Hb]. intros k Hk'. now left.
      * intros x [=].
    + intros [|].
      * apply (hoare_bind _ (fun _ st => between_files kt absent' st));
          [|intros _; apply Hrest'].
        intros [p w] Hst. now apply between_files_log.
      * apply (hoare_bind _ (fun _ st => between_files kt absent' st));
          [|intros _; apply Hrest'].
        intros [p w] Hst. now apply between_files_log.
Qed.
End CleanupSucceeds.

(** C9. [cleanup] runs whatever the pipeline did (all stages succeeded, one
    returned false, a call raised an [Exception] or was interrupted).  When
    closing a session works, [process_file] lets no [Exception] out, and it
    ends with the session closed, the per-file fields reset, no other
    database file touched and, unless scratch files are kept, the scratch
    file removed (or, if the removal itself failed, a warning logged); the
    one exception is an interrupt of the removal.  In particular this holds
    whenever [process_file] returns, that is whenever the batch proceeds to
    the next file.  So, when removing works too, the loop ends with no
    session open and, if scratch files are not kept and it ran to its end,
    with the scratch file of every input file gone. *)
Theorem cleanup_always_runs env (a : Args.t) :
  (forall n path, fault env n (Close path) = None) ->
  (forall input output p w r st',
     input <> "" -> conn p = None -> scratch_file input ∉ sessions w ->
     process_file env input output (p, w) = (r, st') ->
     no_exception env r /\
     ((after_cleanup (scratch_file input) p w st' /\
       scratch_removed env (scratch_file input) p st')
      \/ (r = Raise KeyboardInterrupt /\
          exists n, fault env n (Remove (scratch_file input)) = Some KeyboardInterrupt))) /\
  (forall input output p w ok st',
     input <> "" -> conn p = None -> scratch_file input ∉ sessions w ->
     process_file env input output (p, w) = (Return ok, st') ->
     after_cleanup (scratch_file input) p w st' /\
     scratch_removed env (scratch_file input) p st') /\
  ((forall n path, fault env n (Remove path) = None) ->
   forall input_files fc sc st r st',
     Forall (fun f => f <> "") input_files ->
     conn (fst st) = None -> sessions (snd st) = [] ->
     batch_loop env a input_files fc sc st = (r, st') ->
     conn (fst st') = None /\ sessions (snd st') = [] /\
     (forall x, r = Return x -> keep_temp (fst st) = false ->
        forall f, f ∈ input_files -> scratch (snd st') !! scratch_file f = None)).
Proof.
  intros Hclose.
  assert (Hfile : forall input output p w r st',
            input <> "" -> conn p = None -> scratch_file input ∉ sessions w ->
            process_file env input output (p, w) = (r, st') ->
            processed env (scratch_file input) p w r st').
  { intros input output p w r st' Hinput Hconn Hsess Hrun.
    pose proof (process_file_run env input output p w Hclose Hinput Hconn
                  Hsess (p, w) eq_refl) as Hp.
    now rewrite Hrun in Hp. }
  split; [exact Hfile|]. split.
  - intros input output p w ok st' Hinput Hconn Hsess Hrun.
    destruct (Hfile input output p w _ st' Hinput Hconn Hsess Hrun)
      as [_ [Hdone|[[=] _]]].
    exact Hdone.
  - intros Hremove input_files fc sc st r st' Hnames Hc Hs Hrun.
    assert (Hst : between_files (keep_temp (fst st)) (fun _ => False) st).
    { unfold between_files. repeat split; auto. intros _ k []. }
    pose proof (batch_loop_cleans env Hclose Hremove a (keep_temp (fst st))
                  input_files Hnames fc sc (fun _ => False) st Hst) as Hloop.
    rewrite Hrun in Hloop. cbn in Hloop.
    destruct Hloop as (_ & (B1 & _ & B3 & _) & Hall). auto.
Qed.

Lemma cleanup_always_runs_witness :
  exists r st',
    process_file quiet_env "nifty_2024-01.parquet" "out/nifty_2024-01_combined.parquet"
      start_state = (r, st') /\
    no_exception quiet_env r /\
    ((after_cleanup (scratch_file "nifty_2024-01.parquet")
        (new_processor sample_args) fresh_world st' /\
      scratch_removed quiet_env (scratch_file "nifty_2024-01.parquet")
        (new_processor sample_args) st')
     \/ (r = Raise KeyboardInterrupt /\
         exists n, fault quiet_env n (Remove (scratch_file "nifty_2024-01.parquet"))
                   = Some KeyboardInterrupt)).
Proof.
  destruct (process_file quiet_env "nifty_2024-01.parquet"
              "out/nifty_2024-01_combined.parquet" start_state) as [r st'] eqn:Hrun.
  exists r, st'. split; [reflexivity|].
  apply (proj1 (cleanup_always_runs quiet_env sample_args (fun _ _ => eq_refl))
           "nifty_2024-01.parquet" "out/nifty_2024-01_combined.parquet"
           (new_processor sample_args) fresh_world r st').
  - discriminate.
  - reflexivity.
  - apply not_elem_of_nil.
  - exact Hrun.
Defined.

(** The same file, evaluated: the scratch file was created by the
    connection and is gone after the file, which failed. *)
Example process_file_removes_scratch :
  let run := process_file quiet_env "nifty_2024-01.parquet"
               "out/nifty_2024-01_combined.parquet" start_state in
  fst run = Return false /\
  scratch (snd (snd run)) !! "nifty_2024-01.duckdb" = None /\
  In (RemovedTemporary "nifty_2024-01.duckdb") (log (snd (snd run))).
Proof. vm_compute. intuition. Qed.

(** When the removal fails the file stays, a warning is logged, and
    [process_file] still returns to the loop. *)
Example process_file_locked_scratch :
  let run := process_file locked_env "nifty_2024-01.parquet"
               "out/nifty_2024-01_combined.parquet" start_state in
  fst run = Return false /\
  conn (fst (snd run)) = None /\
  sessions (snd (snd run)) = [] /\
  scratch (snd (snd run)) !! "nifty_2024-01.duckdb" <> None /\
  In (CouldNotRemove "nifty_2024-01.duckdb" "file in use") (log (snd (snd run))).
Proof. vm_compute. intuition discriminate. Qed.

(** ** [main] *)

Lemma log_failed_files_returns (failed : list (string * string)) (st : state) :
  fst (log_failed_files failed st) = Return tt.
Proof.
  revert st. induction failed as [|[name reason] rest IH]; intros [p w];
    [reflexivity|].
  cbn [log_failed_files]. unfold_m. apply IH.
Qed.

(** The loop without more than the hypothesis that closing a session
    works: no [Exception] leaves it, and between two files no session is
    open. *)
Lemma batch_loop_no_exception env (a : Args.t) (input_files : list string) :
  (forall n path, fault env n (Close path) = None) ->
  Forall (fun f => f <> "") input_files ->
  forall fc sc,
  hoare (fun st => conn (fst st) = None /\ sessions (snd st) = [])
    (batch_loop env a input_files fc sc)
    (fun r st => no_exception env r).
Proof.
  intros Hclose. induction 1 as [|f rest Hf Hrest IH]; intros fc sc.
  - intros st _. exact Logic.I.
  - cbn [batch_loop].
    apply (hoare_bind _ (fun _ st => conn (fst st) = None /\ sessions (snd st) = [])).
    + intros [p w] [Hc Hs]. cbn in Hc, Hs.
      assert (Hsess : str_replace ".parquet" ".duckdb" f ∉ sessions w)
        by (rewrite Hs; apply not_elem_of_nil).
      pose proof (process_file_run env f
                    (path_join env (Args.output_folder a)
                       (str_replace ".parquet" "_combined.parquet" (basename env f)))
                    p w Hclose Hf Hc Hsess (p, w) eq_refl) as [Hne Hp].
      destruct (process_file env f _ (p, w)) as [[ok|e] st']; cbn in *;
        [|exact Hne].
      destruct Hp as [[(A1 & _ & _ & _ & _ & _ & A7 & _) _]|[[=] _]].
      split; [exact A1 | congruence].
    + intros [|];
        (apply (hoare_bind _ (fun _ st => conn (fst st) = None /\ sessions (snd st) = []));
         [intros [p w] Hst; destruct w; exact Hst | intros _; apply IH]).
Qed.

Lemma main_try_outcome env (a : Args.t) (st : state) :
  let pattern := path_join env (Args.input_folder a) (Args.file_pattern a) in
  (forall n path, fault env n (Close path) = None) ->
  Forall (fun f => f <> "") (glob_glob env pattern) ->
  sessions (snd st) = [] ->
  match fault env (clock (snd st)) (Glob pattern) with
  | Some e => fst (main_try env a st) = Raise e
  | None =>
      match glob_glob env pattern with
      | [] => fst (main_try env a st) = Return 1
      | _ :: _ =>
          no_exception env (fst (main_try env a st)) /\
          forall c, fst (main_try env a st) = Return c -> c = 0
      end
  end.
Proof.
  intros pattern Hclose Hnames Hs. destruct st as [p w]. destruct w as [sc ar se lg ck].
  cbn in Hs. subst se. unfold main_try. fold pattern. cbn [snd clock].
  unfold_m. destruct (fault env ck (Glob pattern)) as [e|]; [reflexivity|].
  unfold_m. destruct (glob_glob env pattern) as [|f rest] eqn:Hglob; [reflexivity|].
  unfold_m.
  match goal with
  | |- context [batch_loop env a (f :: rest) 0 0 ?s] =>
      pose proof (batch_loop_no_exception env a (f :: rest) Hclose Hnames 0 0 s
                    (conj eq_refl eq_refl)) as Hloop;
      destruct (batch_loop env a (f :: rest) 0 0 s) as [[[fc sc']|e] [p' w']]
  end; cbn in Hloop.
  - unfold_m.
    match goal with
    | |- context [log_failed_files ?l ?s] =>
        pose proof (log_failed_files_returns l s) as Hlog;
        destruct (log_failed_files l s) as [r st'']
    end.
    cbn in Hlog. subst r. cbn. split; [exact Logic.I|]. now intros c [= <-].
  - cbn. split; [exact Hloop|]. intros c [=].
Qed.

Lemma main_of_try env (a : Args.t) (st : state) :
  fst (main env a st) =
  match fst (main_try env a st) with
  | Return c => Return c
  | Raise KeyboardInterrupt => Return 130
  | Raise (Exception _) => Return 1
  end.
Proof.
  unfold main. destruct (main_try env a st) as [[c|[|msg]] [p w]]; reflexivity.
Qed.

(** C6. The exit code of [main]: 130 when the [try] block is interrupted,
    1 when an [Exception] leaves it, 1 when no input file matches the
    pattern, and 0 when the loop over the matched files completes, which it
    does whatever fails inside the files (every engine call and every
    removal may raise an [Exception]) as long as no call is interrupted and
    closing a session works. *)
Theorem main_exit_codes env (a : Args.t) (st : state) :
  let pattern := path_join env (Args.input_folder a) (Args.file_pattern a) in
  (forall st', main_try env a st = (Raise KeyboardInterrupt, st') ->
     fst (main env a st) = Return 130) /\
  (forall msg st', main_try env a st = (Raise (Exception msg), st') ->
     fst (main env a st) = Return 1) /\
  (fault env (clock (snd st)) (Glob pattern) = None ->
   glob_glob env pattern = [] ->
   fst (main env a st) = Return 1) /\
  ((forall n path, fault env n (Close path) = None) ->
   ~ interrupted env ->
   fault env (clock (snd st)) (Glob pattern) = None ->
   glob_glob env pattern <> [] ->
   Forall (fun f => f <> "") (glob_glob env pattern) ->
   sessions (snd st) = [] ->
   fst (main env a st) = Return 0).
Proof.
  intros pattern. rewrite main_of_try.
  split; [now intros st' ->|]. split; [now intros msg st' ->|]. split.
  - intros Hglob Hnone. destruct st as [p [sc ar se lg ck]]. cbn in Hglob.
    unfold main_try. fold pattern. unfold_m. rewrite Hglob. unfold_m.
    now rewrite Hnone.
  - intros Hclose Hint Hglob Hsome Hnames Hs.
    pose proof (main_try_outcome env a st Hclose Hnames Hs) as Hout.
    fold pattern in Hout. rewrite Hglob in Hout.
    destruct (glob_glob env pattern) as [|f rest]; [congruence|].
    destruct Hout as [Hne Hc].
    destruct (fst (main_try env a st)) as [c|[|msg]]; cbn in Hne.
    + now rewrite (Hc c eq_refl).
    + contradiction.
    + contradiction.
Qed.

Lemma quiet_env_not_interrupted : ~ interrupted quiet_env.
Proof. intros (n & c & H). discriminate H. Qed.

Lemma main_exit_codes_witness :
  fst (main quiet_env sample_args start_state) = Return 0.
Proof.
  apply (main_exit_codes quiet_env sample_args start_state).
  - reflexivity.
  - exact quiet_env_not_interrupted.
  - reflexivity.
  - discriminate.
  - repeat constructor. discriminate.
  - reflexivity.
Defined.

(** The same run, evaluated: the only file fails the gate on [options]
    (four rows, 100 expected), the batch goes on and exits with 0. *)
Example main_reports_failed_file :
  fst (main quiet_env sample_args start_state) = Return 0 /\
  In (FileFailed "nifty_2024-01.parquet")
     (log (snd (snd (main quiet_env sample_args start_state)))) /\
  In (Summary 1 0 1) (log (snd (snd (main quiet_env sample_args start_state)))).
Proof. vm_compute. intuition. Qed.

Example main_interrupted :
  fst (main interrupting_env sample_args start_state) = Return 130.
Proof. vm_compute. reflexivity. Qed.

Example main_no_input_files :
  fst (main empty_folder_env sample_args start_state) = Return 1.
Proof. vm_compute. reflexivity. Qed.

(** ** The exporter *)

Lemma is_deep_spec (r : CalData.row) :
  is_deep r = true <->
  CalData.moneyness r = Some "DEEPITM" \/ CalData.moneyness r = Some "DEEPOTM".
Proof.
  unfold is_deep. destruct (CalData.moneyness r) as [l|]; cbn.
  - destruct (String.eqb l "DEEPITM") eqn:H1; destruct (String.eqb l "DEEPOTM") eqn:H2;
      cbn; rewrite ?String.eqb_eq, ?String.eqb_neq in *; subst;
      split; intros H; try discriminate; auto;
      destruct H as [[=]|[=]]; congruence.
  - split; [discriminate | intros [[=]|[=]]].
Qed.

Lemma count_deep_split (rows : list CalData.row) :
  count_rows (filter (fun r => is_deep r = false) rows)
  = count_rows rows - count_rows (filter (fun r => is_deep r = true) rows).
Proof.
  unfold count_rows. induction rows as [|r rows IH]; [reflexivity|].
  destruct (is_deep r) eqn:Hr.
  - rewrite filter_cons_False, filter_cons_True by congruence. cbn [length]. lia.
  - rewrite filter_cons_True, filter_cons_False by congruence. cbn [length]. lia.
Qed.

Lemma export_rows_permutation (db : database) :
  Permutation (cal_data db) (export_rows db).
Proof. apply ExportSort.Permuted_sort. Qed.

(** What the artifact holds, given the rows of [cal_data] before the
    deletion. *)
Lemma exported_rows_spec (db : database) :
  let rows := export_rows (delete_deep db) in
  (forall r, In r rows ->
     CalData.moneyness r <> Some "DEEPITM" /\ CalData.moneyness r <> Some "DEEPOTM") /\
  (forall r, In r rows <-> In r (cal_data db) /\ is_deep r = false) /\
  count_rows rows
  = count_rows (cal_data db)
    - count_rows (filter (fun r => is_deep r = true) (cal_data db)) /\
  Sorted.Sorted (fun x y => ExportOrder.leb x y = true) rows.
Proof.
  intros rows.
  assert (Hperm : Permutation (filter (fun r => is_deep r = false) (cal_data db)) rows)
    by apply (export_rows_permutation (delete_deep db)).
  assert (Hin : forall r, In r rows <-> In r (cal_data db) /\ is_deep r = false).
  { intros r. rewrite <- (Permutation_in' (eq_refl r) Hperm).
    rewrite <- !list_elem_of_In, list_elem_of_filter. tauto. }
  split; [|split; [exact Hin|split]].
  - intros r Hr. apply Hin in Hr as [_ Hdeep].
    split; intros Hm; assert (is_deep r = true) by (apply is_deep_spec; auto);
      congruence.
  - rewrite <- count_deep_split. unfold count_rows.
    now rewrite (Permutation_length Hperm).
  - apply ExportSort.Sorted_sort.
Qed.

(** Run a stage on an explicit state, splitting on every call that may
    fault and on every threshold test, and dropping the runs that do not end
    as supposed. *)
Ltac run_faults rw :=
  repeat (unfold_m; rw; rewrite ?lookup_insert_eq;
          cbn [from_option id table_count String.eqb Ascii.eqb Bool.eqb is_not_null];
          try match goal with
              | |- context [match fault ?e ?n ?c with _ => _ end] =>
                  destruct (fault e n c) as [[|?]|]
              | |- context [if ?a <? ?b then _ else _] =>
                  destruct (Z.ltb_spec a b)
              end;
          try (let Hbad := fresh in intros Hbad; discriminate Hbad)).

Lemma filter_and_export_true env p w path db st' :
  conn p = Some path -> scratch w !! path = Some db ->
  filter_and_export env (p, w) = (Return true, st') ->
  exists out,
    current_output p = Some out /\
    artifacts (snd st') !! out = Some (export_rows (delete_deep db)) /\
    scratch (snd st') !! path = Some (delete_deep db) /\
    In (TotalBefore (count_rows (cal_data db))) (log (snd st')) /\
    In (AfterFiltering (count_rows (cal_data (delete_deep db)))) (log (snd st')) /\
    In (RemovedDeep (count_rows (cal_data db) - count_rows (cal_data (delete_deep db))))
       (log (snd st')).
Proof.
  intros Hc Hdb. destruct p as [mp v kt c cf co d rc ff], w as [sc ar se lg ck].
  cbn in Hc, Hdb. subst c.
  unfold filter_and_export, validate_data.
  destruct v; run_faults ltac:(rewrite ?Hdb);
    (destruct co as [out|]; run_faults ltac:(rewrite ?Hdb));
    intros [= <-]; exists out; cbn; rewrite !lookup_insert_eq;
    rewrite !in_app_iff; cbn; tauto.
Qed.

Lemma filter_and_export_runs env p w path db out :
  fault_free env ->
  conn p = Some path -> scratch w !! path = Some db ->
  current_output p = Some out ->
  validate p = false \/ cal_data db <> [] ->
  exists st', filter_and_export env (p, w) = (Return true, st').
Proof.
  intros Hff Hc Hdb Hout Hgate.
  destruct p as [mp v kt c cf co d rc ff], w as [sc ar se lg ck].
  cbn in Hc, Hdb, Hout, Hgate. subst c co.
  unfold filter_and_export, validate_data.
  destruct v.
  - destruct Hgate as [[=]|Hrows].
    assert (Hlen : 1 <= Z.of_nat (length (cal_data db)))
      by (destruct (cal_data db); [congruence | cbn [length]; lia]).
    repeat (unfold_m; rewrite ?Hff, ?Hdb, ?lookup_insert_eq;
            cbn [from_option id table_count String.eqb Ascii.eqb Bool.eqb is_not_null]).
    destruct (Z.ltb_spec (Z.of_nat (length (cal_data db))) 1); [lia|].
    repeat (unfold_m; rewrite ?Hff, ?Hdb, ?lookup_insert_eq;
            cbn [from_option id]).
    eexists. reflexivity.
  - repeat (unfold_m; rewrite ?Hff, ?Hdb, ?lookup_insert_eq;
            cbn [from_option id]).
    eexists. reflexivity.
Qed.

(** C5. Whenever the exporter writes the artifact (it returns true), the
    artifact holds the rows of [cal_data] that are not labelled DEEPITM or
    DEEPOTM, each as often as before, in the order of (date, time, symbol);
    the row count after the deletion, which is also the number of exported
    rows, is the count before minus the number of rows that carried one of
    the two labels, and these counts are the ones logged.  Without a fault
    and with the gate on [cal_data] open the exporter does write it. *)
Theorem export_drops_deep env p w path db :
  conn p = Some path -> scratch w !! path = Some db ->
  (forall st',
     filter_and_export env (p, w) = (Return true, st') ->
     exists out rows,
       current_output p = Some out /\
       artifacts (snd st') !! out = Some rows /\
       (forall r, In r rows ->
          CalData.moneyness r <> Some "DEEPITM" /\
          CalData.moneyness r <> Some "DEEPOTM") /\
       (forall r, In r rows <-> In r (cal_data db) /\ is_deep r = false) /\
       Permutation (filter (fun r => is_deep r = false) (cal_data db)) rows /\
       Sorted.Sorted (fun x y => ExportOrder.leb x y = true) rows /\
       count_rows rows
       = count_rows (cal_data db)
         - count_rows (filter (fun r => is_deep r = true) (cal_data db)) /\
       (exists db', scratch (snd st') !! path = Some db' /\
                    count_rows (cal_data db') = count_rows rows) /\
       In (TotalBefore (count_rows (cal_data db))) (log (snd st')) /\
       In (AfterFiltering (count_rows rows)) (log (snd st')) /\
       In (RemovedDeep
             (count_rows (filter (fun r => is_deep r = true) (cal_data db))))
          (log (snd st'))) /\
  (fault_free env ->
   forall out, current_output p = Some out ->
   validate p = false \/ cal_data db <> [] ->
   exists st', filter_and_export env (p, w) = (Return true, st')).
Proof.
  intros Hc Hdb. split.
  - intros st' Hrun.
    destruct (filter_and_export_true env p w path db st' Hc Hdb Hrun)
      as (out & Hout & Hart & Hsc & Hl1 & Hl2 & Hl3).
    destruct (exported_rows_spec db) as (Hnone & Hin & Hcount & Hsorted).
    assert (Hafter : count_rows (cal_data (delete_deep db))
                     = count_rows (export_rows (delete_deep db))).
    { unfold count_rows.
      now rewrite (Permutation_length (export_rows_permutation (delete_deep db))). }
    exists out, (export_rows (delete_deep db)).
    repeat match goal with |- _ /\ _ => split end; try assumption.
    + apply (export_rows_permutation (delete_deep db)).
    + exists (delete_deep db). split; [assumption | exact Hafter].
    + now rewrite <- Hafter.
    + rewrite Hafter, Hcount in Hl3.
      replace (count_rows (filter (fun r => is_deep r = true) (cal_data db)))
        with (count_rows (cal_data db)
              - (count_rows (cal_data db)
                 - count_rows (filter (fun r => is_deep r = true) (cal_data db))))
        by lia.
      exact Hl3.
  - intros Hff out Hout Hgate.
    now apply (filter_and_export_runs env p w path db out).
Qed.

Lemma export_drops_deep_witness :
  exists st' rows,
    filter_and_export quiet_env (sample_processor true, sample_world sample_enriched)
      = (Return true, st') /\
    artifacts (snd st') !! "nifty_2024-01_combined.parquet" = Some rows /\
    (forall r, In r rows ->
       CalData.moneyness r <> Some "DEEPITM" /\ CalData.moneyness r <> Some "DEEPOTM") /\
    count_rows rows
    = count_rows (cal_data sample_enriched)
      - count_rows (filter (fun r => is_deep r = true) (cal_data sample_enriched)).
Proof.
  destruct (export_drops_deep quiet_env (sample_processor true)
              (sample_world sample_enriched) "nifty_2024-01.duckdb" sample_enriched
              eq_refl (sample_world_lookup _)) as [Hwritten Hruns].
  destruct (Hruns quiet_env_fault_free "nifty_2024-01_combined.parquet" eq_refl)
    as [st' Hrun]; [right; discriminate|].
  destruct (Hwritten st' Hrun)
    as (out & rows & [= <-] & Hart & Hnone & _ & _ & _ & Hcount & _).
  exists st', rows. auto.
Defined.

(** The sample, evaluated: of four enriched rows the put labelled DEEPITM
    is deleted, three are exported. *)
Example export_sample :
  let run := filter_and_export quiet_env
               (sample_processor true, sample_world sample_enriched) in
  fst run = Return true /\
  map CalData.moneyness (cal_data sample_enriched)
    = [Some "ATM-5"; Some "ATM-3"; Some "DEEPITM"; None] /\
  option_map (map CalData.moneyness)
    (artifacts (snd (snd run)) !! "nifty_2024-01_combined.parquet")
    = Some [Some "ATM-5"; None; Some "ATM-3"] /\
  In (RemovedDeep 1) (log (snd (snd run))).
Proof. vm_compute. intuition. Qed.

(** ** The decomposition stage *)

(** For a symbol the pattern matches nowhere every group is the empty
    string, and the empty string is no integer. *)
Lemma regexp_extract_unmatched (s : string) (n : nat) :
  regexp_search s = None -> regexp_extract (Some s) n = Some "".
Proof. intros H. unfold regexp_extract. now rewrite H. Qed.

Lemma cast_integer_empty :
  cast_integer (Some "") = ConversionError "Could not convert string '' to INT32".
Proof. reflexivity. Qed.

Lemma parse_option_row_unmatched (o : Options.row) (s : string) :
  Options.symbol o = Some s -> regexp_search s = None ->
  parse_option_row o = ConversionError "Could not convert string '' to INT32".
Proof.
  intros Hs Hnone. unfold parse_option_row.
  now rewrite Hs, (regexp_extract_unmatched s 5 Hnone), cast_integer_empty.
Qed.

(** One candidate symbol outside the grammar stops the whole statement. *)
Lemma insert_splits_unmatched (db : database) (o : Options.row) (s : string) :
  o ∈ options db -> Options.symbol o = Some s ->
  String.prefix "NIFTY" s = true -> regexp_search s = None ->
  exists msg, insert_splits db = ConversionError msg.
Proof.
  intros Ho Hs Hcand Hnone.
  assert (Hc : o ∈ candidates (options db)).
  { apply elem_of_candidates. split; [exact Ho|]. rewrite Hs. cbn. now rewrite Hcand. }
  destruct (mapM_ConversionError parse_option_row _ o _ Hc
              (parse_option_row_unmatched o s Hs Hnone)) as (msg & Hmsg).
  exists msg. unfold insert_splits, new_splits, parsed_symbols.
  now rewrite Hmsg.
Qed.

Lemma regexp_extract_not_null (s : string) (n : nat) :
  (1 <= n <= 6)%nat -> is_not_null (regexp_extract (Some s) n) = true.
Proof.
  intros Hn. unfold regexp_extract.
  destruct (regexp_search s) as [g|]; [|reflexivity].
  do 7 (destruct n as [|n]; [first [lia | reflexivity]|]). lia.
Qed.

Lemma cast_integer_not_null (text : string) (z : option Z) :
  cast_integer (Some text) = Converted z -> is_not_null z = true.
Proof.
  unfold cast_integer.
  destruct (is_decimal text && (decimal_from 0 text <=? int32_max));
    [now intros [= <-] | discriminate].
Qed.

(** The [IS NOT NULL] filter of the statement keeps every row it sees: a
    candidate symbol is not NULL, so none of its groups is. *)
Lemma candidate_fully_parsed (o : Options.row) (p : parsed_symbol) :
  holds (like_NIFTY (Options.symbol o)) = true ->
  parse_option_row o = Converted p -> fully_parsed p = true.
Proof.
  intros Hc Hp.
  apply parse_option_row_Converted in Hp as (_ & _ & Hi & Hd & Hm & Hy & Hs & Ht).
  destruct (Options.symbol o) as [s|]; [|discriminate Hc].
  unfold fully_parsed. rewrite Hi, Hd, Hm, Hy, Ht.
  rewrite !regexp_extract_not_null by lia.
  destruct (regexp_extract (Some s) 5) as [text|] eqn:Htext.
  - now rewrite (cast_integer_not_null text _ Hs).
  - pose proof (regexp_extract_not_null s 5 ltac:(lia)) as H.
    rewrite Htext in H. discriminate H.
Qed.

Lemma holds_sql_eq_refl (s : string) : holds (sql_eq (Some s) (Some s)) = true.
Proof. cbn. now rewrite bool_decide_eq_true_2. Qed.

Lemma elem_of_unparsed_rows (db : database) (o : Options.row) :
  o ∈ unparsed_rows db <->
  o ∈ options db /\ holds (like_NIFTY (Options.symbol o)) = true
  /\ has_split (splits db) o = false.
Proof.
  unfold unparsed_rows. rewrite list_elem_of_filter, andb_true_iff, negb_true_iff.
  tauto.
Qed.

(** After a statement that went through, every candidate row has a split
    row of its symbol: no row is left for the failure count. *)
Lemma insert_splits_no_failures (db db' : database) :
  insert_splits db = Converted db' ->
  unparsed_rows db' = [] /\ failed_count db' = 0.
Proof.
  intros H.
  assert (Hnone : unparsed_rows db' = []).
  { apply elem_of_nil_inv. intros o Ho.
    apply elem_of_unparsed_rows in Ho as (Ho & Hc & Hsplit).
    unfold insert_splits in H.
    apply bind_Converted in H as (rows & Hrows & [= <-]).
    cbn [options splits] in Ho, Hsplit.
    unfold new_splits in Hrows.
    apply bind_Converted in Hrows as (parsed & Hparsed & Hmap).
    unfold parsed_symbols in Hparsed.
    apply bind_Converted in Hparsed as (l & Hl & [= <-]).
    destruct (mapM_Converted_image _ _ _ o Hl) as (p & Hp & Hop).
    { apply elem_of_candidates. tauto. }
    destruct (mapM_Converted_image _ _ _ p Hmap) as (r & Hr & Hpr).
    { apply list_elem_of_filter. split.
      - now apply (candidate_fully_parsed o).
      - now apply elem_of_remove_dups. }
    apply split_of_parsed_Converted in Hpr as (Hsym & _).
    apply parse_option_row_Converted in Hop as (Hps & _).
    destruct (Options.symbol o) as [s|] eqn:Hs; [|discriminate Hc].
    assert (Hex : has_split (splits db ++ rows) o = true).
    { unfold has_split. apply existsb_exists. exists r. split.
      - apply in_or_app. right. now apply list_elem_of_In.
      - rewrite Hs, Hsym, Hps. apply holds_sql_eq_refl. }
    congruence. }
  split; [exact Hnone|]. unfold failed_count. now rewrite Hnone.
Qed.

(** Run a stage on an explicit state in an environment without faults,
    splitting on every threshold test. *)
Ltac run_quiet Hff rw :=
  repeat (unfold_m;
          repeat match goal with
                 | |- context [fault ?e ?n ?c] => rewrite (Hff n c)
                 end;
          rw; rewrite ?lookup_insert_eq;
          cbn [from_option id table_count String.eqb Ascii.eqb Bool.eqb is_not_null];
          try match goal with
              | |- context [if ?a <? ?b then _ else _] =>
                  destruct (Z.ltb_spec a b)
              end).

(** The stage when the statement goes through: its verdict is that of the
    row-count gate on [splits], and it logs neither an error nor a warning
    about unparsed symbols. *)
Lemma create_split_data_run env p w path db db' :
  fault_free env -> conn p = Some path -> scratch w !! path = Some db ->
  options db <> [] ->
  insert_splits db = Converted db' ->
  exists b p' w',
    create_split_data env (p, w) = (Return b, (p', w')) /\
    scratch w' !! path = Some db' /\
    (b = true <-> validate p = false \/ 10 <= count_rows (splits db')) /\
    (forall n, In (UnparsedWarning n) (log w') -> In (UnparsedWarning n) (log w)) /\
    (forall msg, In (StageError "split" msg) (log w') ->
       In (StageError "split" msg) (log w)).
Proof.
  intros Hff Hc Hdb Hrows Hins.
  destruct (insert_splits_no_failures db db' Hins) as [_ Hfc].
  destruct p as [mp v kt c cf co d rc ff], w as [sc ar se lg ck].
  cbn in Hc, Hdb. subst c.
  assert (Hlen : 1 <= Z.of_nat (length (options db)))
    by (destruct (options db); [congruence | cbn [length]; lia]).
  unfold create_split_data, validate_data.
  destruct v; run_quiet Hff ltac:(rewrite ?Hdb, ?Hins, ?Hfc); try lia.
  all: eexists _, _, _; (split; [reflexivity|]); cbn [fst snd scratch log validate].
  all: rewrite ?lookup_insert_eq.
  all: (split; [reflexivity|]).
  all: unfold count_rows in *; repeat split; intros;
    repeat rewrite in_app_iff in *; cbn [In] in *;
    intuition (try discriminate; try lia; try congruence).
Qed.

(** The stage when the statement stops on a conversion error: the error is
    caught and logged, the stage returns false and the database is as it
    was. *)
Lemma create_split_data_raises env p w path db msg :
  fault_free env -> conn p = Some path -> scratch w !! path = Some db ->
  options db <> [] ->
  insert_splits db = ConversionError msg ->
  exists p' w',
    create_split_data env (p, w) = (Return false, (p', w')) /\
    scratch w' !! path = Some db /\
    In (StageError "split" (String.append "Conversion Error: " msg)) (log w').
Proof.
  intros Hff Hc Hdb Hrows Hins.
  destruct p as [mp v kt c cf co d rc ff], w as [sc ar se lg ck].
  cbn in Hc, Hdb. subst c.
  assert (Hlen : 1 <= Z.of_nat (length (options db)))
    by (destruct (options db); [congruence | cbn [length]; lia]).
  unfold create_split_data, validate_data.
  destruct v; run_quiet Hff ltac:(rewrite ?Hdb, ?Hins); try lia.
  all: eexists _, _; (split; [reflexivity|]); cbn [fst snd scratch log].
  all: split; [assumption|].
  all: repeat rewrite in_app_iff; cbn [In]; tauto.
Qed.

(** C3, on the code: a candidate symbol outside the grammar is fatal for
    the stage.  The pattern matches nowhere in the symbol, the strike group
    is the empty string, its cast to INTEGER stops the statement with a
    conversion error; the stage catches the error, logs it and returns
    false, with validation on or off, and no split row is added for any
    symbol. *)
Theorem unparsed_symbol_fails_stage env p w path db o s :
  fault_free env -> conn p = Some path -> scratch w !! path = Some db ->
  o ∈ options db -> Options.symbol o = Some s ->
  String.prefix "NIFTY" s = true -> regexp_search s = None ->
  exists msg p' w',
    insert_splits db = ConversionError msg /\
    create_split_data env (p, w) = (Return false, (p', w')) /\
    scratch w' !! path = Some db /\
    In (StageError "split" (String.append "Conversion Error: " msg)) (log w').
Proof.
  intros Hff Hc Hdb Ho Hs Hcand Hnone.
  assert (Hrows : options db <> []).
  { intros Hnil. rewrite Hnil in Ho. now apply elem_of_nil in Ho. }
  destruct (insert_splits_unmatched db o s Ho Hs Hcand Hnone) as (msg & Hmsg).
  destruct (create_split_data_raises env p w path db msg Hff Hc Hdb Hrows Hmsg)
    as (p' & w' & Hrun & Hsc & Hlog).
  exists msg, p', w'. auto.
Qed.

Lemma unparsed_option_in_sample : unparsed_option ∈ options unparsed_database.
Proof. apply list_elem_of_In. cbn. tauto. Qed.

Lemma unparsed_symbol_fails_stage_witness :
  exists msg p' w',
    insert_splits unparsed_database = ConversionError msg /\
    create_split_data quiet_env (sample_processor false, sample_world unparsed_database)
      = (Return false, (p', w')).
Proof.
  destruct (unparsed_symbol_fails_stage quiet_env (sample_processor false)
              (sample_world unparsed_database) "nifty_2024-01.duckdb"
              unparsed_database unparsed_option "NIFTYXYZ"
              quiet_env_fault_free eq_refl (sample_world_lookup _)
              unparsed_option_in_sample eq_refl eq_refl eq_refl)
    as (msg & p' & w' & Hins & Hrun & _).
  exists msg, p', w'. auto.
Defined.

(** The two samples, evaluated with validation off, when every gate is
    open: the stage passes on the rows that all match the grammar, and
    fails on the same rows with one candidate symbol outside it. *)
Example create_split_data_sample :
  let run := create_split_data quiet_env
               (sample_processor false, sample_world sample_database) in
  fst run = Return true /\
  scratch (snd (snd run)) !! "nifty_2024-01.duckdb" = Some sample_decomposed /\
  count_rows (splits sample_decomposed) = 3 /\
  failed_count sample_decomposed = 0.
Proof. vm_compute. intuition. Qed.

Example create_split_data_unparsed :
  let run := create_split_data quiet_env
               (sample_processor false, sample_world unparsed_database) in
  fst run = Return false /\
  scratch (snd (snd run)) !! "nifty_2024-01.duckdb" = Some unparsed_database /\
  log (snd (snd run)) =
    [StageError "split"
       "Conversion Error: Could not convert string '' to INT32"].
Proof. vm_compute. intuition. Qed.

(** The whole file, with validation off: processed without the symbol,
    failed with it. *)
Example process_file_unparsed :
  fst (process_file quiet_env "nifty_2024-01.parquet"
         "out/nifty_2024-01_combined.parquet" unvalidated_start) = Return true /\
  let run := process_file unparsed_env "nifty_2024-01.parquet"
               "out/nifty_2024-01_combined.parquet" unvalidated_start in
  fst run = Return false /\
  In (StageError "split"
        "Conversion Error: Could not convert string '' to INT32")
     (log (snd (snd run))) /\
  artifacts (snd (snd run)) !! "out/nifty_2024-01_combined.parquet" = None.
Proof. vm_compute. intuition. Qed.

(** ** More on the symbol pattern and the decomposition of a symbol *)

Lemma match_here_None_grammar (s : string) :
  match_here s = None <-> forall g rest, ~ grammar_at s g rest.
Proof.
  split.
  - intros Hnone g rest Hg.
    assert (Hsome : match_here s = Some g) by (apply match_here_grammar; eauto).
    congruence.
  - intros Hno. destruct (match_here s) as [g|] eqn:Hm; [|reflexivity].
    apply match_here_grammar in Hm as [rest Hg]. now apply Hno in Hg.
Qed.

Lemma group_text_nonempty (s : string) (g : groups) (rest : string) (n : nat) :
  grammar_at s g rest -> group_text g n <> Some "".
Proof.
  intros (_ & Hne1 & _ & Hl2 & _ & Hl3 & _ & Hl4 & _ & Hne5 & _ & Htype).
  destruct n as [|[|[|[|[|[|[|n]]]]]]]; cbn; try discriminate; intros [= H].
  - congruence.
  - rewrite H in Hl2. discriminate.
  - rewrite H in Hl3. discriminate.
  - rewrite H in Hl4. discriminate.
  - congruence.
  - rewrite H in Htype. now destruct Htype.
Qed.

(** The pattern is searched, not anchored: [regexp_extract] works on the
    leftmost position of the symbol from which the text reads INSTRUMENT
    DAY MONTH YEAR STRIKE TYPE, whatever precedes and follows; there is no
    match exactly when no position reads so, and a group is the empty
    string exactly then. *)
Theorem pattern_leftmost_match (s : string) :
  (regexp_search s = None <->
   forall pre tail g rest,
     s = String.append pre tail -> ~ grammar_at tail g rest) /\
  (forall g,
     regexp_search s = Some g <->
     exists pre tail rest,
       s = String.append pre tail /\ grammar_at tail g rest /\
       forall pre' tail' g' rest',
         s = String.append pre' tail' ->
         (String.length pre' < String.length pre)%nat ->
         ~ grammar_at tail' g' rest') /\
  (forall n, (1 <= n <= 6)%nat ->
     regexp_extract (Some s) n = Some "" <-> regexp_search s = None).
Proof.
  split; [|split].
  - rewrite regexp_search_None. split.
    + intros H pre tail g rest Hs. apply match_here_None_grammar. now apply (H pre).
    + intros H pre tail Hs. apply match_here_None_grammar. intros g rest.
      now apply (H pre).
  - intros g. rewrite regexp_search_Some. split.
    + intros (pre & tail & Hs & Hm & Hleft).
      apply match_here_grammar in Hm as [rest Hg].
      exists pre, tail, rest. split; [exact Hs|]. split; [exact Hg|].
      intros pre' tail' g' rest' Hs' Hlt.
      apply match_here_None_grammar. now apply (Hleft pre').
    + intros (pre & tail & rest & Hs & Hg & Hleft).
      exists pre, tail. split; [exact Hs|]. split.
      * apply match_here_grammar. eauto.
      * intros pre' tail' Hs' Hlt. apply match_here_None_grammar.
        intros g' rest'. now apply (Hleft pre').
  - intros n Hn. unfold regexp_extract.
    destruct (regexp_search s) as [g|] eqn:Hsearch; [|tauto].
    split; [|discriminate]. intros Hempty. exfalso.
    apply regexp_search_Some in Hsearch as (pre & tail & _ & Hm & _).
    apply match_here_grammar in Hm as [rest Hg].
    exact (group_text_nonempty tail g rest n Hg Hempty).
Qed.

(** *** Casting the groups *)

Lemma digit_value_bounds (c : ascii) :
  is_digit c = true -> 0 <= digit_value c <= 9.
Proof.
  unfold is_digit, digit_value. cbv zeta.
  rewrite andb_true_iff, !Nat.leb_le. lia.
Qed.

Lemma decimal_from_bounds (s : string) (acc : Z) :
  all_class is_digit s = true -> 0 <= acc ->
  acc * 10 ^ Z.of_nat (String.length s) <= decimal_from acc s
    < (acc + 1) * 10 ^ Z.of_nat (String.length s).
Proof.
  revert acc. induction s as [|c s IH]; intros acc Hall Hacc.
  - cbn. lia.
  - cbn [all_class] in Hall. apply andb_true_iff in Hall as [Hc Hall].
    apply digit_value_bounds in Hc.
    cbn [decimal_from String.length]. rewrite Nat2Z.inj_succ, Z.pow_succ_r by lia.
    specialize (IH (10 * acc + digit_value c) Hall ltac:(lia)).
    assert (Hpow : 0 < 10 ^ Z.of_nat (String.length s)) by (apply Z.pow_pos_nonneg; lia).
    nia.
Qed.

Lemma cast_integer_decimal (s : string) :
  s <> "" -> all_class is_digit s = true -> decimal_from 0 s <= int32_max ->
  cast_integer (Some s) = Converted (Some (decimal_from 0 s)).
Proof.
  intros Hne Hall Hmax. unfold cast_integer, is_decimal.
  apply String.eqb_neq in Hne. rewrite Hne, Hall. cbn [negb andb].
  now rewrite (proj2 (Z.leb_le _ _) Hmax).
Qed.

Lemma cast_integer_two_digits (s : string) :
  String.length s = 2%nat -> all_class is_digit s = true ->
  cast_integer (Some s) = Converted (Some (decimal_from 0 s)) /\
  0 <= decimal_from 0 s <= 99.
Proof.
  intros Hlen Hall.
  pose proof (decimal_from_bounds s 0 Hall ltac:(lia)) as Hb.
  rewrite Hlen in Hb. change (10 ^ Z.of_nat 2) with 100 in Hb.
  split; [|lia]. apply cast_integer_decimal; [|assumption|unfold int32_max; lia].
  eapply length_nonempty. eassumption.
Qed.

Lemma month_number_range (month : string) (m : Z) :
  month_number (Some month) = Some m -> 1 <= m <= 12.
Proof.
  unfold month_number, sql_case, sql_eq_string, holds.
  repeat match goal with
         | |- context [String.eqb ?a ?b] => destruct (String.eqb a b)
         end; intros [= <-]; lia.
Qed.

Lemma regexp_search_at_start (s : string) (g : groups) (rest : string) :
  grammar_at s g rest -> regexp_search s = Some g.
Proof.
  intros Hg. assert (Hm : match_here s = Some g) by (apply match_here_grammar; eauto).
  destruct s; cbn [regexp_search]; now rewrite Hm.
Qed.

Lemma parse_option_row_grammar (o : Options.row) (s : string) (g : groups)
    (rest : string) :
  Options.symbol o = Some s -> grammar_at s g rest ->
  decimal_from 0 (g_strike g) <= int32_max ->
  parse_option_row o =
  Converted (mkparsed (Some s) (Some (g_instrument g)) (Some (g_day g))
               (Some (g_month g)) (Some (g_year g))
               (Some (decimal_from 0 (g_strike g))) (Some (g_type g))
               (Options.date o)).
Proof.
  intros Hs Hg Hmax. pose proof (regexp_search_at_start s g rest Hg) as Hsearch.
  destruct Hg as (_ & _ & _ & _ & _ & _ & _ & _ & _ & Hne5 & Hd5 & _).
  unfold parse_option_row, regexp_extract. rewrite Hs, Hsearch.
  cbn [group_text]. now rewrite (cast_integer_decimal _ Hne5 Hd5 Hmax).
Qed.

(** A symbol that reads INSTRUMENT DAY MONTH YEAR STRIKE TYPE from its
    first character, with one of the twelve month names, a day the month
    has and a strike that fits 32 bits, is decomposed into the instrument,
    the expiry date [20YY-MONTH-DAY], the strike as a number and the type;
    the text after the type is ignored. *)
Theorem well_formed_symbol_decomposed (o : Options.row) (s : string)
    (g : groups) (rest : string) (m : Z) :
  Options.symbol o = Some s -> grammar_at s g rest ->
  decimal_from 0 (g_strike g) <= int32_max ->
  month_number (Some (g_month g)) = Some m ->
  1 <= decimal_from 0 (g_day g)
    <= days_in_month (2000 + decimal_from 0 (g_year g)) m ->
  parse_option_row o ≫= split_of_parsed =
  Converted
    (Splits.mk (Some s) (Some (g_instrument g))
       (Some (mkdate (2000 + decimal_from 0 (g_year g)) m (decimal_from 0 (g_day g))))
       (Some (decimal_from 0 (g_strike g))) (Some (g_type g)) (Options.date o)).
Proof.
  intros Hs Hg Hmax Hmonth Hday.
  rewrite (parse_option_row_grammar o s g rest Hs Hg Hmax).
  destruct Hg as (_ & _ & _ & Hl2 & Hd2 & _ & _ & Hl4 & Hd4 & _).
  destruct (cast_integer_two_digits _ Hl2 Hd2) as [Hcd _].
  destruct (cast_integer_two_digits _ Hl4 Hd4) as [Hcy _].
  pose proof (month_number_range _ _ Hmonth) as Hm.
  cbn [mbind conversion_bind]. unfold split_of_parsed.
  cbn [p_year p_day p_month p_symbol p_instrument p_strike_price p_option_type p_date].
  rewrite Hcy, Hcd, Hmonth. cbn [mbind conversion_bind sql_add make_date].
  replace (1 <=? m) with true by (symmetry; apply Z.leb_le; lia).
  replace (m <=? 12) with true by (symmetry; apply Z.leb_le; lia).
  replace (1 <=? decimal_from 0 (g_day g)) with true by (symmetry; apply Z.leb_le; lia).
  replace (decimal_from 0 (g_day g) <=? _) with true by (symmetry; apply Z.leb_le; lia).
  reflexivity.
Qed.

Lemma grammar_NIFTY25JAN2421500CE :
  grammar_at "NIFTY25JAN2421500CE"
    (mkgroups "NIFTY" "25" "JAN" "24" "21500" "CE") "".
Proof.
  unfold grammar_at. cbn.
  repeat split; try reflexivity; try discriminate. now right.
Qed.

Lemma well_formed_symbol_decomposed_witness :
  parse_option_row (sample_option "NIFTY25JAN2421500CE" jan02 t0915 310)
    ≫= split_of_parsed =
  Converted
    (Splits.mk (Some "NIFTY25JAN2421500CE") (Some "NIFTY")
       (Some (mkdate 2024 1 25)) (Some 21500) (Some "CE") (Some jan02)).
Proof.
  apply (well_formed_symbol_decomposed
           (sample_option "NIFTY25JAN2421500CE" jan02 t0915 310)
           "NIFTY25JAN2421500CE"
           (mkgroups "NIFTY" "25" "JAN" "24" "21500" "CE") "" 1
           eq_refl grammar_NIFTY25JAN2421500CE).
  - vm_compute. discriminate.
  - reflexivity.
  - vm_compute. split; discriminate.
Defined.

Lemma month_number_None (month : string) :
  month_number (Some month) = None <->
  ~ In month ["JAN"; "FEB"; "MAR"; "APR"; "MAY"; "JUN";
              "JUL"; "AUG"; "SEP"; "OCT"; "NOV"; "DEC"].
Proof.
  unfold month_number, sql_case, sql_eq_string, holds. cbn [In].
  repeat match goal with
         | |- context [String.eqb ?a ?b] => destruct (String.eqb_spec a b)
         end;
    try (split; [discriminate | intros H; exfalso; apply H; subst; tauto]).
  split; [|reflexivity]. intros _ H.
  repeat (destruct H as [H|H]; [congruence|]). exact H.
Qed.

(** The month [CASE] has no [ELSE]: a symbol of the grammar whose three
    letters are not one of the twelve month names is decomposed all the
    same, with a NULL expiry date, and its day is then not looked at. *)
Theorem unknown_month_null_expiry (o : Options.row) (s : string)
    (g : groups) (rest : string) :
  Options.symbol o = Some s -> grammar_at s g rest ->
  decimal_from 0 (g_strike g) <= int32_max ->
  ~ In (g_month g) ["JAN"; "FEB"; "MAR"; "APR"; "MAY"; "JUN";
                    "JUL"; "AUG"; "SEP"; "OCT"; "NOV"; "DEC"] ->
  parse_option_row o ≫= split_of_parsed =
  Converted
    (Splits.mk (Some s) (Some (g_instrument g)) None
       (Some (decimal_from 0 (g_strike g))) (Some (g_type g)) (Options.date o)).
Proof.
  intros Hs Hg Hmax Hmonth. apply month_number_None in Hmonth.
  rewrite (parse_option_row_grammar o s g rest Hs Hg Hmax).
  destruct Hg as (_ & _ & _ & Hl2 & Hd2 & _ & _ & Hl4 & Hd4 & _).
  destruct (cast_integer_two_digits _ Hl2 Hd2) as [Hcd _].
  destruct (cast_integer_two_digits _ Hl4 Hd4) as [Hcy _].
  cbn [mbind conversion_bind]. unfold split_of_parsed.
  cbn [p_year p_day p_month p_symbol p_instrument p_strike_price p_option_type p_date].
  rewrite Hcy, Hcd, Hmonth. reflexivity.
Qed.

Lemma grammar_NIFTY99XYZ2421500PE :
  grammar_at "NIFTY99XYZ2421500PE_OLD"
    (mkgroups "NIFTY" "99" "XYZ" "24" "21500" "PE") "_OLD".
Proof.
  unfold grammar_at. cbn.
  repeat split; try reflexivity; try discriminate. now left.
Qed.

Lemma unknown_month_null_expiry_witness :
  parse_option_row (sample_option "NIFTY99XYZ2421500PE_OLD" jan02 t0915 310)
    ≫= split_of_parsed =
  Converted
    (Splits.mk (Some "NIFTY99XYZ2421500PE_OLD") (Some "NIFTY") None
       (Some 21500) (Some "PE") (Some jan02)).
Proof.
  apply (unknown_month_null_expiry
           (sample_option "NIFTY99XYZ2421500PE_OLD" jan02 t0915 310)
           "NIFTY99XYZ2421500PE_OLD"
           (mkgroups "NIFTY" "99" "XYZ" "24" "21500" "PE") "_OLD"
           eq_refl grammar_NIFTY99XYZ2421500PE).
  - vm_compute. discriminate.
  - cbn. intros H. repeat (destruct H as [H|H]; [discriminate|]). exact H.
Defined.

(** ** Invariants of the stages *)

Section Frame.
Variable env : environment.
Variable I : state -> Prop.
Hypothesis frame : stage_frame I.

Lemma frame_outside (c : call) : inv env I (outside env c).
Proof.
  apply inv_outside. intros p w. apply frame.
Qed.

Lemma frame_session_database : inv env I session_database.
Proof.
  intros [p w] Hst. unfold session_database. unfold_m.
  destruct p as [? ? ? [c|] ? ? ? ? ?]; split; (exact Hst || exact Logic.I).
Qed.

Lemma frame_execute (statement : database -> database) :
  inv env I (execute env statement).
Proof.
  unfold execute. apply inv_bind; [apply frame_session_database|].
  intros [pa db]. apply inv_bind; [apply frame_outside|]. intros _.
  intros [p w] Hst. split; [|exact Logic.I]. now apply frame.
Qed.

Lemma frame_execute_checked (statement : database -> conversion database) :
  inv env I (execute_checked env statement).
Proof.
  unfold execute_checked. apply inv_bind; [apply frame_session_database|].
  intros [pa db]. apply inv_bind; [apply frame_outside|]. intros _.
  destruct (statement db) as [db'|msg]; [|apply inv_raise].
  intros [p w] Hst. split; [|exact Logic.I]. now apply frame.
Qed.

Lemma frame_query {A} (q : database -> A) : inv env I (query env q).
Proof.
  unfold query. apply inv_bind; [apply frame_session_database|]. intros [pa db].
  apply inv_bind; [apply frame_outside|]. intros _. apply inv_ret.
Qed.

Lemma frame_logger (r : log_record) :
  stage_record r = true -> safe env I (logger r).
Proof.
  intros Hr [p w] Hst. split; [|exact Logic.I]. now apply frame.
Qed.

Lemma frame_set_row_counts (f : processor -> gmap string Z) :
  inv env I (set_processor (fun p => with_row_counts (f p) p)).
Proof. intros [p w] Hst. split; [|exact Logic.I]. now apply frame. Qed.

Lemma frame_current_input : inv env I current_input.
Proof.
  unfold current_input. apply inv_bind; [apply inv_get_processor|]. intros p.
  destruct (current_file p); [apply inv_ret | apply inv_raise].
Qed.

(** Keep [I] through a stage, rule by rule. *)
Ltac frame_inv :=
  first
    [ apply inv_ret
    | apply inv_raise
    | apply safe_inv, frame_logger; reflexivity
    | apply frame_execute
    | apply frame_execute_checked
    | apply frame_query
    | apply frame_set_row_counts
    | apply frame_current_input
    | apply inv_get_processor
    | apply inv_get_world
    | match goal with
      | |- inv _ _ (if ?b then _ else _) => destruct b
      | |- inv _ _ (match ?x with _ => _ end) => destruct x
      end
    | apply inv_bind; [|intros ?] ].

Ltac frame_safe :=
  first
    [ apply safe_ret
    | apply frame_logger; reflexivity
    | apply safe_get_processor
    | apply safe_try_except; [|intros ?]
    | match goal with
      | |- safe _ _ (if ?b then _ else _) => destruct b
      | |- safe _ _ (match ?x with _ => _ end) => destruct x
      end
    | apply safe_bind; [|intros ?] ].

Lemma frame_validate_data (t : string) (m : Z) : safe env I (validate_data env t m).
Proof. unfold validate_data. repeat frame_safe. repeat frame_inv. Qed.

Lemma frame_and_then (a b : M bool) :
  safe env I a -> safe env I b -> safe env I (and_then a b).
Proof.
  intros Ha Hb. unfold and_then. apply safe_bind; [exact Ha|].
  intros [|]; [exact Hb | apply safe_ret].
Qed.

Lemma frame_create_option_data : safe env I (create_option_data env).
Proof.
  unfold create_option_data. repeat frame_safe.
  repeat first [apply safe_inv, frame_validate_data | frame_inv].
Qed.

Lemma frame_create_index_data : safe env I (create_index_data env).
Proof.
  unfold create_index_data.
  repeat first [apply frame_validate_data | frame_safe].
  repeat first [apply safe_inv, frame_validate_data | frame_inv].
Qed.

Lemma frame_create_future_data : safe env I (create_future_data env).
Proof.
  unfold create_future_data.
  repeat first [apply frame_validate_data | apply frame_and_then | frame_safe].
  repeat first [apply safe_inv, frame_validate_data | frame_inv].
Qed.

Lemma frame_create_split_data : safe env I (create_split_data env).
Proof.
  unfold create_split_data.
  repeat first [apply frame_validate_data | frame_safe].
  repeat first [apply safe_inv, frame_validate_data | frame_inv].
Qed.

Lemma frame_create_cal_data : safe env I (create_cal_data env).
Proof.
  unfold create_cal_data.
  repeat first [apply frame_validate_data | apply frame_and_then | frame_safe].
  repeat first [apply safe_inv, frame_validate_data | frame_inv].
Qed.

Lemma frame_copy_to_parquet : writes I -> inv env I (copy_to_parquet env).
Proof.
  intros Hw. unfold copy_to_parquet. apply inv_bind; [apply frame_session_database|].
  intros [pa db]. apply inv_bind; [apply inv_get_processor|]. intros p.
  apply inv_bind; [apply frame_outside|]. intros _.
  destruct (current_output p); [|apply inv_raise].
  intros [p' w] Hst. split; [|exact Logic.I]. now apply Hw.
Qed.

Lemma frame_filter_and_export :
  inv env I (copy_to_parquet env) -> safe env I (filter_and_export env).
Proof.
  intros Hw. unfold filter_and_export.
  repeat first [apply frame_validate_data | frame_safe].
  repeat first [apply safe_inv, frame_validate_data | exact Hw | frame_inv].
Qed.

Lemma frame_stages :
  inv env I (copy_to_parquet env) -> safe env I (stages env).
Proof.
  intros Hw. unfold stages. repeat apply frame_and_then;
    auto using frame_create_option_data, frame_create_index_data,
      frame_create_future_data, frame_create_split_data,
      frame_create_cal_data, frame_filter_and_export.
Qed.
End Frame.

(** ** Errors inside [validate_data] and the stages *)

Lemma stage_frame_True : stage_frame (fun _ => True).
Proof. repeat split. Qed.

(** No stage lets an [Exception] out, whatever the state it starts in and
    whatever the engine raises: every stage ends with a verdict, or with
    an interrupt that the environment sent. *)
Theorem stages_raise_no_exception env (st : state) :
  (forall t m, no_exception env (fst (validate_data env t m st))) /\
  no_exception env (fst (create_option_data env st)) /\
  no_exception env (fst (create_index_data env st)) /\
  no_exception env (fst (create_future_data env st)) /\
  no_exception env (fst (create_split_data env st)) /\
  no_exception env (fst (create_cal_data env st)) /\
  no_exception env (fst (filter_and_export env st)) /\
  no_exception env (fst (stages env st)).
Proof.
  pose proof stage_frame_True as Hf.
  assert (Hw : writes (fun _ => True)) by (intros ? ? ? ?; exact Logic.I).
  repeat split.
  - intros t m. now apply (frame_validate_data env _ Hf t m st).
  - now apply (frame_create_option_data env _ Hf st).
  - now apply (frame_create_index_data env _ Hf st).
  - now apply (frame_create_future_data env _ Hf st).
  - now apply (frame_create_split_data env _ Hf st).
  - now apply (frame_create_cal_data env _ Hf st).
  - now apply (frame_filter_and_export env _ Hf
                 (frame_copy_to_parquet env _ Hf Hw) st).
  - now apply (frame_stages env _ Hf (frame_copy_to_parquet env _ Hf Hw) st).
Qed.

(** With validation on, an error of the engine during the check is a
    negative verdict, logged with the message of the error: when there is
    no session, when the first query fails, and when the count fails, in
    which case no count is recorded. *)
Theorem validate_data_engine_error env t m p w :
  validate p = true ->
  (conn p = None ->
   validate_data env t m (p, w) =
   (Return false,
    (p, with_log
          (log w ++ [ValidationError t "'NoneType' object has no attribute 'execute'"])
          w))) /\
  (forall path msg,
     conn p = Some path ->
     fault env (clock w) Sql = Some (Exception msg) ->
     validate_data env t m (p, w) =
     (Return false,
      (p, with_log (log w ++ [ValidationError t msg]) (with_clock (S (clock w)) w)))) /\
  (forall path db n msg,
     conn p = Some path -> scratch w !! path = Some db ->
     table_count db t = Some n ->
     fault env (clock w) Sql = None ->
     fault env (S (clock w)) Sql = Some (Exception msg) ->
     validate_data env t m (p, w) =
     (Return false,
      (p, with_log (log w ++ [ValidationError t msg])
            (with_clock (S (S (clock w))) w)))).
Proof.
  intros Hv. destruct p as [mp v kt c cf co d rc ff], w as [sc ar se lg ck].
  cbn in Hv. subst v. split; [|split].
  - cbn. intros ->. unfold validate_data. unfold_m. reflexivity.
  - cbn. intros path msg -> Hf. unfold validate_data. unfold_m.
    rewrite Hf. unfold_m. reflexivity.
  - cbn. intros path db n msg -> Hdb Hn Hf1 Hf2. unfold validate_data. unfold_m.
    rewrite Hf1. unfold_m. rewrite Hdb. cbn [from_option id]. rewrite Hn.
    cbn [is_not_null]. unfold_m. rewrite Hf2. unfold_m. reflexivity.
Qed.

Lemma validate_data_engine_error_witness :
  validate_data quiet_env "options" 1
    (with_conn None (sample_processor true), sample_world sample_database) =
  (Return false,
   (with_conn None (sample_processor true),
    with_log
      [ValidationError "options" "'NoneType' object has no attribute 'execute'"]
      (sample_world sample_database))).
Proof.
  exact (proj1 (validate_data_engine_error quiet_env "options" 1
                  (with_conn None (sample_processor true))
                  (sample_world sample_database) eq_refl) eq_refl).
Defined.

(** ** What [process_file] changes, and what it lets out *)

(** Split on every fault, name, option and flag [cleanup] looks at. *)
Ltac run_cleanup :=
  repeat (unfold_m;
          try match goal with
              | |- context [fault ?e ?n ?c] =>
                  destruct (fault e n c) as [[|?]|] eqn:?
              | |- context [if String.eqb ?a ?b then _ else _] =>
                  destruct (String.eqb a b) eqn:?
              | |- context [bool_decide ?P] => destruct (bool_decide P) eqn:?
              end; cbn [negb andb]).

(** [cleanup] on any state: it touches neither the list of failed files,
    nor the artifacts, nor the keep-temp option; it removes no database
    file when scratch files are kept; what it raises comes from closing the
    session or from an interrupt. *)
Lemma cleanup_frame env (st : state) :
  let r := cleanup env st in
  failed_files (fst (snd r)) = failed_files (fst st) /\
  artifacts (snd (snd r)) = artifacts (snd st) /\
  keep_temp (fst (snd r)) = keep_temp (fst st) /\
  (keep_temp (fst st) = true -> scratch (snd (snd r)) = scratch (snd st)) /\
  match fst r with
  | Return _ => True
  | Raise KeyboardInterrupt => interrupted env
  | Raise (Exception msg) =>
      exists n path, fault env n (Close path) = Some (Exception msg)
  end.
Proof.
  destruct st as [[mp v kt [c|] cf co [d|] rc ff] [sc ar se lg ck]];
    unfold cleanup; destruct kt; run_cleanup; cbn;
    repeat split; try discriminate; try reflexivity;
    try (do 2 eexists; eassumption).
Qed.

Section Outcome.
Variable env : environment.

Lemma safe_True_set_processor (f : processor -> processor) :
  safe env (fun _ => True) (set_processor f).
Proof. intros st _. split; exact Logic.I. Qed.

Lemma safe_True_set_world (f : world -> world) :
  safe env (fun _ => True) (set_world f).
Proof. intros st _. split; exact Logic.I. Qed.

Lemma safe_True_logger (r : log_record) : safe env (fun _ => True) (logger r).
Proof. intros st _. split; exact Logic.I. Qed.

Lemma inv_True_connect (path : string) : inv env (fun _ => True) (connect env path).
Proof.
  unfold connect.
  apply inv_bind; [apply frame_outside, stage_frame_True|]. intros _.
  apply inv_bind; [apply safe_inv, safe_True_set_world|]. intros _.
  apply safe_inv, safe_True_set_processor.
Qed.

Lemma inv_True_setup_database : inv env (fun _ => True) (setup_database env).
Proof.
  unfold setup_database.
  apply inv_bind; [apply frame_session_database|]. intros _.
  apply frame_outside, stage_frame_True.
Qed.

Lemma inv_True_copy_to_parquet : inv env (fun _ => True) (copy_to_parquet env).
Proof.
  apply frame_copy_to_parquet; [apply stage_frame_True|].
  intros ? ? ? ?; exact Logic.I.
Qed.

(** The [try]/[except] of [process_file] ends with a verdict or with an
    interrupt the environment sent. *)
Lemma process_file_body_safe (input output : string) :
  safe env (fun _ => True)
    (try_except
       (let path := str_replace ".parquet" ".duckdb" input in
        set_processor (with_files (Some input) (Some output) (Some path));;
        connect env path;;
        setup_database env;;
        logger (ProcessingFile (basename env input));;
        stages env)
       (fun msg =>
          logger (FileError input msg);;
          set_processor (fun p =>
            with_failed_files (failed_files p ++ [(basename env input, msg)]) p);;
          mret false)).
Proof.
  apply safe_try_except.
  - cbv zeta.
    apply inv_bind; [apply safe_inv, safe_True_set_processor|]. intros _.
    apply inv_bind; [apply inv_True_connect|]. intros _.
    apply inv_bind; [apply inv_True_setup_database|]. intros _.
    apply inv_bind; [apply safe_inv, safe_True_logger|]. intros _.
    apply safe_inv, frame_stages; [apply stage_frame_True|].
    apply inv_True_copy_to_parquet.
  - intros msg.
    apply safe_bind; [apply safe_True_logger|]. intros _.
    apply safe_bind; [apply safe_True_set_processor|]. intros _.
    apply safe_ret.
Qed.
End Outcome.

(** [process_file] returns its verdict unless [cleanup] raises: the only
    [Exception] it lets out is the one closing the session raised, and an
    interrupt is one the environment sent.  When it raises, the loop of
    [main] stops there: the files after it are not attempted. *)
Theorem process_file_raises_only_from_cleanup env (a : Args.t)
    (input output : string) (st : state) :
  match fst (process_file env input output st) with
  | Return _ => True
  | Raise KeyboardInterrupt => interrupted env
  | Raise (Exception msg) =>
      exists n path, fault env n (Close path) = Some (Exception msg)
  end /\
  (forall rest fc sc e st',
     process_file env input
       (path_join env (Args.output_folder a)
          (str_replace ".parquet" "_combined.parquet" (basename env input))) st
     = (Raise e, st') ->
     batch_loop env a (input :: rest) fc sc st = (Raise e, st')).
Proof.
  split.
  - pose proof (process_file_body_safe env input output st Logic.I) as [_ Hbody].
    unfold process_file, try_finally. fold (stages env).
    match goal with
    | H : no_exception _ (fst (?body st)) |- _ =>
        destruct (body st) as [r1 st1] eqn:Hrun
    end.
    pose proof (cleanup_frame env st1) as (_ & _ & _ & _ & Hc).
    cbv zeta in Hc. destruct (cleanup env st1) as [[[]|e] st2]; cbn in *.
    + destruct r1 as [b|[|msg]]; cbn in *; tauto.
    + exact Hc.
  - intros rest fc sc e st' Hrun. cbn [batch_loop]. unfold mbind, M_bind.
    now rewrite Hrun.
Qed.

Section SessionFrame.
Variable env : environment.
Variable I : state -> Prop.
Hypothesis frame : session_frame I.
Hypothesis export : inv env I (copy_to_parquet env).

Lemma session_stage_frame : stage_frame I.
Proof. apply frame. Qed.

Lemma frame_any_logger (r : log_record) :
  process_record r = true -> safe env I (logger r).
Proof.
  intros Hr [p w] Hst. split; [|exact Logic.I].
  destruct frame as (_ & Hlog & _). now apply Hlog.
Qed.

Lemma frame_connect (path : string) : inv env I (connect env path).
Proof.
  destruct frame as (Hstage & _ & Hconn & Hsess & _). unfold connect.
  apply inv_bind; [now apply frame_outside|]. intros _.
  apply inv_bind.
  - intros [p w] Hst. split; [|exact Logic.I]. cbn.
    assert (H1 : I (p, with_scratch
                        (<[path := default empty_database (scratch w !! path)]> (scratch w)) w))
      by now apply Hstage.
    apply (Hsess _ _ (path :: sessions w)) in H1. destruct w. exact H1.
  - intros _ [p w] Hst. split; [|exact Logic.I]. now apply Hconn.
Qed.

Lemma frame_setup_database : inv env I (setup_database env).
Proof.
  unfold setup_database.
  apply inv_bind; [apply frame_session_database|]. intros _.
  apply frame_outside, session_stage_frame.
Qed.

(** From the connection to the last stage. *)
Lemma frame_connected (path name : string) :
  inv env I
    (connect env path;; setup_database env;;
     logger (ProcessingFile name);; stages env).
Proof.
  apply inv_bind; [apply frame_connect|]. intros _.
  apply inv_bind; [apply frame_setup_database|]. intros _.
  apply inv_bind; [now apply safe_inv, frame_any_logger|]. intros _.
  apply safe_inv, frame_stages; [apply session_stage_frame | exact export].
Qed.

Lemma frame_handler (input name msg : string) :
  safe env I
    (logger (FileError input msg);;
     set_processor (fun p => with_failed_files (failed_files p ++ [(name, msg)]) p);;
     mret false).
Proof.
  apply safe_bind; [now apply frame_any_logger|]. intros _.
  apply safe_bind; [|intros _; apply safe_ret].
  intros [p w] Hst. split; [|exact Logic.I].
  destruct frame as (_ & _ & _ & _ & Hff). now apply Hff.
Qed.
End SessionFrame.

Lemma inv_hoare env {A} (I : state -> Prop) (m : M A) :
  inv env I m -> hoare I m (fun _ st => I st).
Proof. intros H st Hst. apply (H st Hst). Qed.

(** The [try]/[except] of [process_file] keeps an invariant that the
    connection establishes. *)
Lemma process_file_body_frame env (I : state -> Prop) (input output : string)
    (P : state -> Prop) :
  session_frame I -> inv env I (copy_to_parquet env) ->
  (forall p w, P (p, w) ->
     let path := str_replace ".parquet" ".duckdb" input in
     I (snd (connect env path
               (with_files (Some input) (Some output) (Some path) p, w)))) ->
  hoare P
    (try_except
       (let path := str_replace ".parquet" ".duckdb" input in
        set_processor (with_files (Some input) (Some output) (Some path));;
        connect env path;;
        setup_database env;;
        logger (ProcessingFile (basename env input));;
        stages env)
       (fun msg =>
          logger (FileError input msg);;
          set_processor (fun p =>
            with_failed_files (failed_files p ++ [(basename env input, msg)]) p);;
          mret false))
    (fun _ st => I st).
Proof.
  intros Hframe Hexport Hconn.
  apply (hoare_try_except _ (fun _ st => I st)).
  - cbv zeta. set (path := str_replace ".parquet" ".duckdb" input).
    apply (hoare_bind _
             (fun _ st => exists p w, P (p, w) /\
                st = (with_files (Some input) (Some output) (Some path) p, w))).
    { intros [p w] Hst. cbn. eauto. }
    intros _. apply (hoare_bind _ (fun _ st => I st)).
    { intros st (p & w & HP & ->). specialize (Hconn p w HP). cbv zeta in Hconn.
      fold path in Hconn.
      destruct (connect env path _) as [[[]|[|msg]] st']; exact Hconn. }
    intros _.
    assert (Hrest : inv env I
              (setup_database env;;
               logger (ProcessingFile (basename env input));; stages env)).
    { apply inv_bind; [now apply frame_setup_database|]. intros _.
      apply inv_bind; [now apply safe_inv, frame_any_logger|]. intros _.
      apply safe_inv, frame_stages; [apply Hframe | exact Hexport]. }
    intros st Hst. destruct (Hrest st Hst) as [HI _].
    destruct (fst _) as [b|[|msg]]; exact HI.
  - intros msg. apply inv_hoare with (env := env), safe_inv.
    now apply frame_handler.
Qed.

(** The invariant of a run that keeps its scratch files: the database
    files of [K] exist. *)
Lemma keep_frame (K : string -> Prop) :
  let I := fun st : state =>
    keep_temp (fst st) = true /\
    forall k, K k -> is_Some (scratch (snd st) !! k) in
  session_frame I /\ writes I.
Proof.
  cbv zeta. unfold session_frame, stage_frame, ticks, inserts, counts, appends, writes.
  assert (Hins : forall (sc : gmap string database) path db k,
            is_Some (sc !! k) -> is_Some (<[path := db]> sc !! k)).
  { intros sc path db k Hk. destruct (decide (k = path)) as [->|Hne].
    - rewrite lookup_insert_eq. eauto.
    - now rewrite lookup_insert_ne by congruence. }
  repeat split; intros; destruct p, w; cbn in *; intuition auto.
Qed.

Lemma connect_run env (path : string) p w :
  fault env (clock w) (Connect path) = None ->
  connect env path (p, w) =
  (Return tt,
   (with_conn (Some path) p,
    with_sessions (path :: sessions w)
      (with_scratch (<[path := default empty_database (scratch w !! path)]> (scratch w))
         (with_clock (S (clock w)) w)))).
Proof.
  intros Hf. destruct p, w. cbn in Hf. unfold connect. unfold_m.
  rewrite Hf. unfold_m. reflexivity.
Qed.

Lemma connect_keeps_files env (path : string) p w (k : string) :
  is_Some (scratch w !! k) ->
  is_Some (scratch (snd (snd (connect env path (p, w)))) !! k).
Proof.
  intros Hk. destruct p, w. unfold connect. unfold_m.
  destruct (fault env _ _) as [[|msg]|]; unfold_m; cbn in *; try exact Hk.
  destruct (decide (k = path)) as [->|Hne].
  - rewrite lookup_insert_eq. eauto.
  - now rewrite lookup_insert_ne by congruence.
Qed.

Lemma connect_keep_temp env (path : string) p w :
  keep_temp (fst (snd (connect env path (p, w)))) = keep_temp p.
Proof.
  destruct p, w. unfold connect. unfold_m.
  destruct (fault env _ _) as [[|msg]|]; reflexivity.
Qed.

(** With [keep_temp] set no database file is removed: every file that was
    there before [process_file] is there after it, whatever the outcome,
    and so is the scratch file of the input once the connection was made. *)
Theorem keep_temp_keeps_database_files env (input output : string) p w :
  keep_temp p = true ->
  let st' := snd (process_file env input output (p, w)) in
  keep_temp (fst st') = true /\
  (forall k, is_Some (scratch w !! k) -> is_Some (scratch (snd st') !! k)) /\
  (fault env (clock w) (Connect (scratch_file input)) = None ->
   is_Some (scratch (snd st') !! scratch_file input)).
Proof.
  intros Hkeep. cbv zeta.
  assert (Hrun : forall K : string -> Prop,
            (forall k, K k ->
               is_Some (scratch (snd (snd (connect env (scratch_file input)
                  (with_files (Some input) (Some output) (Some (scratch_file input)) p, w))))
                  !! k)) ->
            keep_temp (fst (snd (process_file env input output (p, w)))) = true /\
            forall k, K k ->
              is_Some (scratch (snd (snd (process_file env input output (p, w)))) !! k)).
  { intros K HK. destruct (keep_frame K) as [Hframe Hwrites]. cbv zeta in *.
    pose proof (process_file_body_frame env _ input output (fun st => st = (p, w))
                  Hframe (frame_copy_to_parquet env _ (proj1 Hframe) Hwrites)) as Hbody.
    unfold process_file, try_finally. fold (stages env).
    match type of Hbody with
    | _ -> hoare _ ?body _ =>
        specialize (Hbody ltac:(
          intros p' w' [= -> ->]; cbv zeta; fold (scratch_file input);
          split; [rewrite connect_keep_temp; destruct p; exact Hkeep | exact HK])
          (p, w) eq_refl);
        destruct (body (p, w)) as [r1 st1]
    end.
    cbn [fst snd] in Hbody. destruct Hbody as [Hk1 Hfiles].
    pose proof (cleanup_frame env st1) as (_ & _ & Hkt & Hsc & _).
    cbv zeta in Hkt, Hsc. specialize (Hsc Hk1).
    destruct (cleanup env st1) as [[[]|e] st2]; cbn [fst snd] in *;
      (split; [congruence|]); rewrite Hsc; exact Hfiles. }
  split; [|split].
  - apply (Hrun (fun _ => False)). tauto.
  - apply (Hrun (fun k => is_Some (scratch w !! k))).
    intros k Hk. now apply connect_keeps_files.
  - intros Hf. apply (Hrun (fun k => k = scratch_file input)); [|reflexivity].
    intros k ->. rewrite connect_run by (destruct p; exact Hf). cbn.
    destruct w. cbn. rewrite lookup_insert_eq. eauto.
Qed.

Lemma keep_temp_keeps_database_files_witness :
  is_Some
    (scratch
       (snd (snd (process_file quiet_env "nifty_2024-01.parquet"
                    "out/nifty_2024-01_combined.parquet"
                    (mkprocessor 75 false true None None None None ∅ [],
                     fresh_world))))
     !! "nifty_2024-01.duckdb").
Proof.
  apply (keep_temp_keeps_database_files quiet_env "nifty_2024-01.parquet"
           "out/nifty_2024-01_combined.parquet"
           (mkprocessor 75 false true None None None None ∅ []) fresh_world
           eq_refl).
  reflexivity.
Defined.

(** ** The artifacts a file's processing writes *)

Lemma inv_hoare_bind env {A B} (I : state -> Prop) (m : M A) (k : A -> M B)
    (Q : outcome B -> state -> Prop) :
  inv env I m -> (forall e st, I st -> Q (Raise e) st) ->
  (forall a, hoare I (k a) Q) -> hoare I (m ≫= k) Q.
Proof.
  intros Hm Hraise Hk. apply (hoare_bind I (fun _ st => I st)); [|exact Hk].
  intros st Hst. destruct (Hm st Hst) as [HI _].
  destruct (fst (m st)); [exact HI | now apply Hraise].
Qed.

(** A property [Q] of the verdict and the final state that holds of every
    run that ends before the export or fails in it, given an invariant [I]
    of the stages before the export. *)
Section Verdict.
Variable env : environment.
Variable I : state -> Prop.
Variable Q : outcome bool -> state -> Prop.
Hypothesis frame : session_frame I.
Hypothesis raised : forall e st, I st -> Q (Raise e) st.
Hypothesis failed : forall st, I st -> Q (Return false) st.
Hypothesis exported :
  forall n,
    hoare I
      (copy_to_parquet env;;
       p ← get_processor;
       logger (Exported n (default "" (current_output p)));;
       mret true)
      (fun r st => match r with
                   | Raise (Exception _) => I st
                   | _ => Q r st
                   end).

Lemma verdict_and_then (a b : M bool) :
  safe env I a -> hoare I b Q -> hoare I (and_then a b) Q.
Proof.
  intros Ha Hb. unfold and_then.
  apply (inv_hoare_bind env); [now apply safe_inv | exact raised|].
  intros [|]; [exact Hb|]. intros st Hst. now apply failed.
Qed.

Lemma verdict_filter_and_export : hoare I (filter_and_export env) Q.
Proof.
  pose proof frame as (Hf & Hlog & _).
  assert (Hstep : forall {A} (m : M A) (k : A -> M bool),
            inv env I m -> (forall a, hoare I (k a) Q) -> hoare I (m ≫= k) Q).
  { intros A m k Hm Hk.
    apply (inv_hoare_bind env); [exact Hm | exact raised | exact Hk]. }
  assert (Hlogger : forall r, stage_record r = true -> inv env I (logger r)).
  { intros r Hr. now apply safe_inv, frame_logger. }
  assert (Hfalse : hoare I (mret false) Q) by (intros st Hst; now apply failed).
  unfold filter_and_export.
  apply Hstep; [now apply safe_inv, frame_validate_data|]. intros ready.
  destruct (negb ready).
  { apply Hstep; [now apply Hlogger|]. intros _. exact Hfalse. }
  apply (hoare_try_except _ (fun _ st => I st)).
  - assert (Hstep' : forall {A} (m : M A) (k : A -> M bool)
              (Q' := fun (r : outcome bool) st =>
                       match r with
                       | Raise (Exception _) => I st
                       | _ => Q r st
                       end),
              inv env I m -> (forall a, hoare I (k a) Q') ->
              hoare I (m ≫= k) Q').
    { intros A m k Q' Hm Hk.
      apply (inv_hoare_bind env); [exact Hm | | exact Hk].
      intros [|msg] st Hst; [now apply raised | exact Hst]. }
    apply Hstep'; [now apply frame_query|]. intros total_before.
    apply Hstep'; [now apply Hlogger|]. intros _.
    apply Hstep'; [now apply frame_execute|]. intros _.
    apply Hstep'; [now apply frame_query|]. intros moneyness_filtered.
    apply Hstep'; [now apply Hlogger|]. intros _.
    apply Hstep'; [now apply Hlogger|]. intros _.
    apply exported.
  - intros msg. apply Hstep; [now apply Hlogger|]. intros _. exact Hfalse.
Qed.

Lemma verdict_stages : hoare I (stages env) Q.
Proof.
  pose proof frame as (Hf & _).
  unfold stages.
  repeat (apply verdict_and_then;
          [first [ now apply frame_create_option_data
                 | now apply frame_create_index_data
                 | now apply frame_create_future_data
                 | now apply frame_create_split_data
                 | now apply frame_create_cal_data ]|]).
  apply verdict_filter_and_export.
Qed.

(** The same for the [try]/[except] of [process_file], from a state [P]
    in which the connection establishes [I]. *)
Lemma verdict_process_file_body (input output : string) (P : state -> Prop) :
  (forall p w, P (p, w) ->
     let path := str_replace ".parquet" ".duckdb" input in
     I (snd (connect env path
               (with_files (Some input) (Some output) (Some path) p, w)))) ->
  hoare P
    (try_except
       (let path := str_replace ".parquet" ".duckdb" input in
        set_processor (with_files (Some input) (Some output) (Some path));;
        connect env path;;
        setup_database env;;
        logger (ProcessingFile (basename env input));;
        stages env)
       (fun msg =>
          logger (FileError input msg);;
          set_processor (fun p =>
            with_failed_files (failed_files p ++ [(basename env input, msg)]) p);;
          mret false))
    Q.
Proof.
  intros Hconn.
  assert (Hraise : forall e st, I st ->
            match e with
            | Exception _ => I st
            | _ => Q (Raise e : outcome bool) st
            end) by (intros [|msg] st Hst; [now apply raised | exact Hst]).
  apply (hoare_try_except _ (fun _ st => I st)).
  - cbv zeta. set (path := str_replace ".parquet" ".duckdb" input).
    apply (hoare_bind _
             (fun _ st => exists p w, P (p, w) /\
                st = (with_files (Some input) (Some output) (Some path) p, w))).
    { intros [p w] Hst. cbn. eauto. }
    intros _. apply (hoare_bind _ (fun _ st => I st)).
    { intros st (p & w & HP & ->). specialize (Hconn p w HP). cbv zeta in Hconn.
      fold path in Hconn.
      destruct (connect env path _) as [[[]|[|msg]] st']; cbn in *;
        [exact Hconn | now apply raised | exact Hconn]. }
    intros _.
    apply (inv_hoare_bind env); [now apply frame_setup_database|exact Hraise|intros _].
    apply (inv_hoare_bind env);
      [now apply safe_inv, frame_any_logger|exact Hraise|intros _].
    intros st Hst. pose proof (verdict_stages st Hst) as H.
    pose proof (frame_stages env (fun _ => True) stage_frame_True
                  (inv_True_copy_to_parquet env) st Logic.I) as [_ Hsafe].
    destruct (fst (stages env st)) as [[|]|[|msg]]; try exact H.
    destruct Hsafe.
  - intros msg [p w] Hst. unfold_m. apply failed.
    destruct frame as (_ & Hlog & _ & _ & Hff).
    apply (Hff _ _ _), (Hlog (FileError input msg) eq_refl), Hst.
Qed.
End Verdict.

Lemma exported_tail_true (n : Z) (st : state) :
  exists st',
    (p ← get_processor;
     logger (Exported n (default "" (current_output p)));;
     mret true) st = (Return true, st') /\
    artifacts (snd st') = artifacts (snd st) /\
    current_output (fst st') = current_output (fst st).
Proof.
  destruct st as [p w]. destruct p, w. unfold_m. eexists. split; [reflexivity|].
  split; reflexivity.
Qed.

(** [COPY] on any state: it raises and writes nothing, or it returns and
    has written the artifact named by [current_output], and only that. *)
Lemma copy_to_parquet_outcome env (st : state) :
  let r := copy_to_parquet env st in
  fst (snd r) = fst st /\
  match fst r with
  | Raise _ => artifacts (snd (snd r)) = artifacts (snd st)
  | Return _ =>
      exists out rows,
        current_output (fst st) = Some out /\
        artifacts (snd (snd r)) = <[out := rows]> (artifacts (snd st))
  end.
Proof.
  destruct st as [[mp v kt [c|] cf [out|] d rc ff] [sc ar se lg ck]];
    unfold copy_to_parquet; unfold_m; try (split; reflexivity).
  all: destruct (fault env _ _) as [[|msg]|]; unfold_m; try (split; reflexivity).
  split; [reflexivity|]. cbn. eauto.
Qed.

(** What [process_file] does to the artifacts: a file that fails leaves
    them as they were; a file is reported processed only once its output is
    written; and no other artifact than the output of the file is ever
    touched. *)
Theorem process_file_artifacts env (input output : string) p w :
  let r := process_file env input output (p, w) in
  (fst r = Return false -> artifacts (snd (snd r)) = artifacts w) /\
  (fst r = Return true -> is_Some (artifacts (snd (snd r)) !! output)) /\
  (forall k, k <> output -> artifacts (snd (snd r)) !! k = artifacts w !! k).
Proof.
  cbv zeta.
  assert (Hconn_art : forall path p', artifacts (snd (snd (connect env path (p', w))))
                                 = artifacts w).
  { intros path p'. destruct p', w. unfold connect. unfold_m.
    destruct (fault env _ _) as [[|msg]|]; reflexivity. }
  assert (Hconn_out : forall path p', current_output (fst (snd (connect env path (p', w))))
                                 = current_output p').
  { intros path p'. destruct p', w. unfold connect. unfold_m.
    destruct (fault env _ _) as [[|msg]|]; reflexivity. }
  unfold process_file, try_finally. fold (stages env).
  match goal with
  | |- context [let (_, _) := ?b (p, w) in _] => set (body := b)
  end.
  (* a failed file writes nothing *)
  assert (H1 : match fst (body (p, w)) with
               | Return true => True
               | _ => artifacts (snd (snd (body (p, w)))) = artifacts w
               end).
  { apply (verdict_process_file_body env
             (fun st => artifacts (snd st) = artifacts w)
             (fun r st => match r with
                          | Return true => True
                          | _ => artifacts (snd st) = artifacts w
                          end)) with (P := fun st => st = (p, w)).
    - unfold session_frame, stage_frame, ticks, inserts, counts, appends.
      repeat split; intros; destruct p0, w0; assumption.
    - intros e st Hst. exact Hst.
    - intros st Hst. exact Hst.
    - intros n. apply (hoare_bind _ (fun _ _ => True)).
      + intros st Hst.
        pose proof (copy_to_parquet_outcome env st) as [_ Hc]. cbv zeta in Hc.
        destruct (fst (copy_to_parquet env st)) as [[]|[|msg]];
          [exact Logic.I | congruence | congruence].
      + intros _ st _. destruct (exported_tail_true n st) as (st2 & -> & _).
        exact Logic.I.
    - intros p' w' [= -> ->]. cbv zeta. apply Hconn_art.
    - reflexivity. }
  (* a processed file has its output *)
  assert (H2 : match fst (body (p, w)) with
               | Return true => is_Some (artifacts (snd (snd (body (p, w)))) !! output)
               | _ => True
               end).
  { apply (verdict_process_file_body env
             (fun st => current_output (fst st) = Some output)
             (fun r st => match r with
                          | Return true => is_Some (artifacts (snd st) !! output)
                          | _ => True
                          end)) with (P := fun st => st = (p, w)).
    - unfold session_frame, stage_frame, ticks, inserts, counts, appends.
      repeat split; intros; destruct p0, w0; assumption.
    - intros e st Hst. exact Logic.I.
    - intros st Hst. exact Logic.I.
    - intros n.
      apply (hoare_bind _ (fun _ st => is_Some (artifacts (snd st) !! output))).
      + intros st Hst.
        pose proof (copy_to_parquet_outcome env st) as [Hp Hc]. cbv zeta in Hp, Hc.
        destruct (fst (copy_to_parquet env st)) as [[]|[|msg]];
          [|exact Logic.I | congruence].
        destruct Hc as (out & rows & Hout & ->).
        assert (out = output) by congruence. subst out.
        rewrite lookup_insert_eq. eauto.
      + intros _ st Hst. destruct (exported_tail_true n st) as (st2 & -> & Ha & _).
        cbn. now rewrite Ha.
    - intros p' w' [= -> ->]. cbv zeta. rewrite Hconn_out. destruct p. reflexivity.
    - reflexivity. }
  (* the other artifacts *)
  assert (H3 : current_output (fst (snd (body (p, w)))) = Some output /\
               forall k, k <> output ->
                 artifacts (snd (snd (body (p, w)))) !! k = artifacts w !! k).
  { apply (process_file_body_frame env
             (fun st => current_output (fst st) = Some output /\
                        forall k, k <> output ->
                          artifacts (snd st) !! k = artifacts w !! k)
             input output (fun st => st = (p, w))).
    - unfold session_frame, stage_frame, ticks, inserts, counts, appends.
      repeat split; intros; destruct p0, w0; cbn in *; intuition auto.
    - intros st [Hout Hk].
      pose proof (copy_to_parquet_outcome env st) as [Hp Hc]. cbv zeta in Hp, Hc.
      assert (Hmay : may_fault env (fst (copy_to_parquet env st)))
        by (apply (inv_True_copy_to_parquet env st Logic.I)).
      split; [|exact Hmay]. rewrite Hp. split; [exact Hout|].
      intros k Hne. destruct (fst (copy_to_parquet env st)).
      + destruct Hc as (out & rows & Hout' & ->).
        assert (out = output) by congruence. subst out.
        rewrite lookup_insert_ne by congruence. now apply Hk.
      + rewrite Hc. now apply Hk.
    - intros p' w' [= -> ->]. cbv zeta. rewrite Hconn_out, Hconn_art.
      destruct p. split; reflexivity.
    - reflexivity. }
  destruct (body (p, w)) as [r1 st1]. cbn [fst snd] in *.
  pose proof (cleanup_frame env st1) as (_ & Hart & _). cbv zeta in Hart.
  destruct (cleanup env st1) as [[[]|e] st2]; cbn [fst snd] in *; rewrite Hart.
  - split; [|split].
    + intros ->. exact H1.
    + intros ->. exact H2.
    + apply H3.
  - split; [discriminate|]. split; [discriminate | apply H3].
Qed.

(** ** The list of failed files *)

Lemma failed_files_frame (ff : list (string * string)) :
  let I := fun st : state => failed_files (fst st) = ff in
  stage_frame I /\ writes I.
Proof.
  cbv zeta. unfold stage_frame, ticks, inserts, counts, appends, writes.
  repeat split; intros; destruct p, w; assumption.
Qed.

(** [process_file] adds a file to [failed_files] only when opening the
    scratch database or setting it up raised an [Exception], with the
    message of that error; a file that fails because a stage returned
    false is not added, so the table of failed files that [main] prints
    does not list it. *)
Theorem failed_files_lists_startup_errors env (input output : string) p w :
  let r := process_file env input output (p, w) in
  failed_files (fst (snd r)) = failed_files p \/
  exists n msg,
    (fault env n (Connect (scratch_file input)) = Some (Exception msg) \/
     fault env n SetupDatabase = Some (Exception msg)) /\
    failed_files (fst (snd r))
    = (failed_files p ++ [(basename env input, msg)])%list.
Proof.
  cbv zeta. set (ff := failed_files p).
  set (origin := fun msg : string =>
         exists n, fault env n (Connect (scratch_file input)) = Some (Exception msg) \/
                   fault env n SetupDatabase = Some (Exception msg)).
  set (I := fun st : state => failed_files (fst st) = ff).
  destruct (failed_files_frame ff) as [Hframe Hwrites]. cbv zeta in Hframe, Hwrites.
  fold I in Hframe, Hwrites.
  unfold process_file, try_finally. fold (stages env).
  match goal with
  | |- context [let (_, _) := ?b (p, w) in _] => set (body := b)
  end.
  assert (Hbody : hoare (fun st => st = (p, w)) body
            (fun r st => I st \/
               exists msg, origin msg /\
                 failed_files (fst st) = (ff ++ [(basename env input, msg)])%list)).
  { apply (hoare_try_except _ (fun msg st => I st /\ origin msg)).
    - cbv zeta. fold (scratch_file input).
      apply (hoare_bind _
               (fun _ st => st = (with_files (Some input) (Some output)
                                    (Some (scratch_file input)) p, w))).
      { intros st ->. reflexivity. }
      intros _.
      apply (hoare_bind _
               (fun _ st => I st /\ conn (fst st) = Some (scratch_file input))).
      { intros st ->. subst I ff.
        destruct p as [mp v kt c cf co d rc fl], w as [sc ar se lg clock].
        unfold connect. unfold_m.
        destruct (fault env clock (Connect (scratch_file input))) as [[|msg]|] eqn:Hf;
          unfold_m; cbn.
        - now left.
        - split; [reflexivity|]. exists clock. now left.
        - split; reflexivity. }
      intros _.
      apply (hoare_bind _ (fun _ st => I st)).
      { intros [p' w'] [HI Hc]. subst I.
        destruct p' as [mp v kt c cf co d rc fl], w' as [sc ar se lg clock].
        cbn in HI, Hc. subst.
        unfold setup_database. unfold_m.
        destruct (fault env clock SetupDatabase) as [[|msg]|] eqn:Hf; unfold_m; cbn.
        - now left.
        - split; [reflexivity|]. exists clock. now right.
        - reflexivity. }
      intros _.
      apply (hoare_bind _ (fun _ st => I st)).
      { intros [p' w'] HI. subst I. destruct p', w'. exact HI. }
      intros _ st Hst.
      pose proof (frame_stages env I Hframe
                    (frame_copy_to_parquet env I Hframe Hwrites) st Hst) as [HI Hsafe].
      destruct (fst (stages env st)) as [b|[|msg]]; cbn in *;
        [now left | now left | destruct Hsafe].
    - intros msg [p' w'] [HI Horigin]. subst I. destruct p', w'. cbn in HI. subst.
      unfold_m. cbn. right. exists msg. split; [exact Horigin | reflexivity]. }
  specialize (Hbody (p, w) eq_refl).
  destruct (body (p, w)) as [r1 st1]. cbn [fst snd] in Hbody.
  pose proof (cleanup_frame env st1) as (Hff & _). cbv zeta in Hff.
  assert (Hfinal : failed_files (fst (snd
            (match cleanup env st1 with
             | (Return _, st'') => (r1, st'')
             | (Raise e, st'') => (Raise e, st'')
             end))) = failed_files (fst st1)).
  { destruct (cleanup env st1) as [[[]|e] st2]; exact Hff. }
  change (let (r, st') := (r1, st1) in
          match cleanup env st' with
          | (Return _, st'') => (r, st'')
          | (Raise e, st'') => (Raise e, st'')
          end)
    with (match cleanup env st1 with
          | (Return _, st'') => (r1, st'')
          | (Raise e, st'') => (Raise e, st'')
          end).
  rewrite Hfinal. destruct Hbody as [HI | (msg & [n Hn] & Hlist)].
  - left. exact HI.
  - right. exists n, msg. split; [exact Hn | exact Hlist].
Qed.

(** ** [cleanup] once more *)

(** [cleanup] is idempotent: after a [cleanup] that returned, another one
    calls neither the engine nor the operating system and leaves the
    processor and the world as they are. *)
Theorem cleanup_idempotent env (st : state) :
  match cleanup env st with
  | (Return _, st') => cleanup env st' = (Return tt, st')
  | (Raise _, _) => True
  end.
Proof.
  destruct st as [[mp v kt [c|] cf co [d|] rc ff] [sc ar se lg ck]];
    unfold cleanup; destruct kt; run_cleanup; try exact Logic.I; reflexivity.
Qed.

(** ** The summary of a batch *)

Lemma count_records_app (f : log_record -> bool) (l : list log_record)
    (r : log_record) :
  count_records f (l ++ [r]) = count_records f l + (if f r then 1 else 0).
Proof.
  unfold count_records, count_rows. rewrite filter_app, length_app.
  destruct (f r) eqn:Hr.
  - rewrite filter_cons_True by assumption. cbn. lia.
  - rewrite filter_cons_False by congruence. cbn. lia.
Qed.

Section Counting.
Variable env : environment.
Variable f : log_record -> bool.
Hypothesis not_of_process : forall r, process_record r = true -> f r = false.

Lemma filter_log_app (l : list log_record) (r : log_record) :
  f r = false ->
  filter (fun r => f r = true) (l ++ [r])%list = filter (fun r => f r = true) l.
Proof.
  intros Hr. rewrite filter_app, filter_cons_False by congruence.
  now rewrite filter_nil, app_nil_r.
Qed.

Lemma filter_frame (kept : list log_record) :
  let I := fun st : state => filter (fun r => f r = true) (log (snd st)) = kept in
  session_frame I /\ writes I.
Proof.
  cbv zeta. unfold session_frame, stage_frame, ticks, inserts, counts, appends, writes.
  assert (Hstage : forall r, stage_record r = true -> process_record r = true).
  { intros r Hr. unfold process_record. now rewrite Hr. }
  repeat split; intros;
    repeat match goal with
           | p : processor |- _ => destruct p
           | w : world |- _ => destruct w
           end; cbn in *; rewrite ?filter_log_app by auto; assumption.
Qed.

Lemma cleanup_filter (st : state) :
  filter (fun r => f r = true) (log (snd (snd (cleanup env st))))
  = filter (fun r => f r = true) (log (snd st)).
Proof.
  assert (H1 : forall path, f (RemovedTemporary path) = false)
    by (intros path; now apply not_of_process).
  assert (H2 : forall path msg, f (CouldNotRemove path msg) = false)
    by (intros path msg; now apply not_of_process).
  destruct st as [[mp v kt [c|] cf co [d|] rc ff] [sc ar se lg ck]];
    unfold cleanup; destruct kt; run_cleanup; cbn;
    rewrite ?filter_log_app by auto; reflexivity.
Qed.

(** [process_file] logs no record that [f] selects. *)
Lemma process_file_filter (input output : string) (st : state) :
  filter (fun r => f r = true) (log (snd (snd (process_file env input output st))))
  = filter (fun r => f r = true) (log (snd st)).
Proof.
  destruct (filter_frame (filter (fun r => f r = true) (log (snd st))))
    as [Hframe Hwrites].
  cbv zeta in Hframe, Hwrites.
  pose proof (process_file_body_frame env _ input output (fun st' => st' = st)
                Hframe (frame_copy_to_parquet env _ (proj1 Hframe) Hwrites)) as Hbody.
  unfold process_file, try_finally. fold (stages env).
  match type of Hbody with
  | _ -> hoare _ ?body _ =>
      assert (H : filter (fun r => f r = true) (log (snd (snd (body st))))
                  = filter (fun r => f r = true) (log (snd st)));
      [apply Hbody; [|reflexivity] | destruct (body st) as [r1 st1]]
  end.
  - intros p w <-. cbv zeta.
    destruct p as [mp v kt c cf co d rc ff], w as [sc ar se lg ck].
    unfold connect. unfold_m.
    destruct (fault env _ _) as [[|msg]|]; reflexivity.
  - cbn [fst snd] in H. rewrite <- H, <- (cleanup_filter st1).
    destruct (cleanup env st1) as [[[]|e] st2]; reflexivity.
Qed.

Lemma process_file_counting (input output : string) (st : state) :
  count_records f (log (snd (snd (process_file env input output st))))
  = count_records f (log (snd st)).
Proof. unfold count_records. now rewrite process_file_filter. Qed.
End Counting.

Lemma succeeded_not_of_process (r : log_record) :
  process_record r = true -> succeeded_record r = false.
Proof. destruct r; (discriminate || reflexivity). Qed.

Lemma failed_not_of_process (r : log_record) :
  process_record r = true -> failed_record r = false.
Proof. destruct r; (discriminate || reflexivity). Qed.

(** The two counters of the loop: the first counts the files, the second
    the files [process_file] returned true for, which are the files the
    log calls successfully processed; the others are those it calls
    failed. *)
Lemma batch_loop_counts env (a : Args.t) (input_files : list string) :
  forall fc sc st,
    match batch_loop env a input_files fc sc st with
    | (Return (fc', sc'), st') =>
        fc' = fc + Z.of_nat (length input_files) /\
        sc <= sc' <= sc + Z.of_nat (length input_files) /\
        sc' - sc = count_records succeeded_record (log (snd st'))
                   - count_records succeeded_record (log (snd st)) /\
        (fc' - fc) - (sc' - sc)
        = count_records failed_record (log (snd st'))
          - count_records failed_record (log (snd st))
    | (Raise _, _) => True
    end.
Proof.
  induction input_files as [|input rest IH]; intros fc sc st.
  - unfold_m. cbn [batch_loop length]. unfold_m. lia.
  - cbn [batch_loop length]. unfold mbind at 1, M_bind at 1.
    pose proof (process_file_counting env succeeded_record succeeded_not_of_process
                  input
                  (path_join env (Args.output_folder a)
                     (str_replace ".parquet" "_combined.parquet" (basename env input)))
                  st) as Hs.
    pose proof (process_file_counting env failed_record failed_not_of_process
                  input
                  (path_join env (Args.output_folder a)
                     (str_replace ".parquet" "_combined.parquet" (basename env input)))
                  st) as Hf.
    destruct (process_file env input _ st) as [[[|]|e] [p1 w1]]; [| |exact Logic.I];
      cbn [fst snd] in Hs, Hf; unfold mbind at 1, M_bind at 1; unfold logger at 1;
      unfold set_world at 1; cbn [fst snd].
    + specialize (IH (fc + 1) (sc + 1)
                     (p1, with_log (log w1 ++ [FileSucceeded (basename env input)]) w1)).
      destruct (batch_loop env a rest _ _ _) as [[[fc' sc']|e] st']; [|exact Logic.I].
      destruct w1 as [sc1 ar1 se1 lg1 ck1]. cbn [snd log with_log] in *.
      rewrite !count_records_app in IH. cbn in IH. lia.
    + specialize (IH (fc + 1) sc
                     (p1, with_log (log w1 ++ [FileFailed (basename env input)]) w1)).
      destruct (batch_loop env a rest _ _ _) as [[[fc' sc']|e] st']; [|exact Logic.I].
      destruct w1 as [sc1 ar1 se1 lg1 ck1]. cbn [snd log with_log] in *.
      rewrite !count_records_app in IH. cbn in IH. lia.
Qed.

Lemma log_failed_files_run (failed : list (string * string)) p w :
  log_failed_files failed (p, w) =
  (Return tt,
   (p, with_log (log w ++ map (fun entry => FailedFile (fst entry) (snd entry)) failed) w)).
Proof.
  revert w. induction failed as [|[name reason] rest IH]; intros w.
  - cbn. rewrite app_nil_r. destruct w; reflexivity.
  - cbn [log_failed_files]. unfold_m. rewrite IH.
    destruct w as [sc ar se lg ck]. cbn. now rewrite <- app_assoc.
Qed.

Lemma count_records_table (f : log_record -> bool) (l : list log_record)
    (failed : list (string * string)) :
  (forall name reason, f (FailedFile name reason) = false) ->
  count_records f (l ++ map (fun entry => FailedFile (fst entry) (snd entry)) failed)
  = count_records f l.
Proof.
  intros Hf. unfold count_records, count_rows. rewrite filter_app, length_app.
  replace (filter _ (map _ failed)) with (@nil log_record); [cbn; lia|].
  symmetry. induction failed as [|[name reason] rest IH]; [reflexivity|].
  cbn [map]. rewrite filter_cons_False; [exact IH|].
  cbn. rewrite Hf. discriminate.
Qed.

(** The summary [main] logs when it exits with code 0: the total is the
    number of files the pattern matched, the number of successes is the
    number of files the log calls successfully processed, and the number
    of failures, total minus successes, is the number of files it calls
    failed. *)
Theorem main_summary_counts env (a : Args.t) (st : state) :
  let pattern := path_join env (Args.input_folder a) (Args.file_pattern a) in
  let n := Z.of_nat (length (glob_glob env pattern)) in
  match main env a st with
  | (Return code, st') =>
      code = 0 ->
      exists k,
        0 < n /\ 0 <= k <= n /\
        In (Summary n k (n - k)) (log (snd st')) /\
        k = count_records succeeded_record (log (snd st'))
            - count_records succeeded_record (log (snd st)) /\
        n - k = count_records failed_record (log (snd st'))
                - count_records failed_record (log (snd st))
  | (Raise _, _) => True
  end.
Proof.
  cbv zeta. destruct st as [p [sc ar se lg ck]].
  unfold main, main_try. unfold_m.
  destruct (fault env ck _) as [[|msg]|]; unfold_m; try (intros; discriminate).
  destruct (glob_glob env _) as [|f rest] eqn:Hglob; unfold_m;
    [intros; discriminate|].
  match goal with
  | |- context [batch_loop env a ?fs ?fc ?sc ?s] =>
      pose proof (batch_loop_counts env a fs fc sc s) as Hloop;
      destruct (batch_loop env a fs fc sc s) as [[[fc' sc']|[|msg]] [p1 w1]]
  end; unfold_m; try (intros; discriminate).
  rewrite log_failed_files_run. unfold_m. intros _.
  destruct w1 as [sc1 ar1 se1 lg1 ck1]. cbn [fst snd log with_log] in *.
  destruct Hloop as (Hfc & Hrange & Hsucc & Hfail).
  rewrite !count_records_app in Hsucc, Hfail. cbn in Hsucc, Hfail.
  rewrite !count_records_table, !count_records_app by reflexivity. cbn.
  unfold count_rows in *. cbn [length] in *.
  exists sc'. subst fc'.
  replace (0 + Z.of_nat (S (length rest))) with (Z.of_nat (S (length rest))) by lia.
  repeat split; try lia.
  apply in_or_app. left. apply in_or_app. right. left. reflexivity.
Qed.

Example main_summary_sample :
  In (Summary 1 0 1) (log (snd (snd (main quiet_env sample_args start_state)))) /\
  count_records failed_record (log (snd (snd (main quiet_env sample_args start_state))))
  = 1.
Proof. vm_compute. intuition. Qed.

Lemma batch_not_of_process (r : log_record) :
  process_record r = true -> batch_record r = false.
Proof. destruct r; (discriminate || reflexivity). Qed.

(** The loop reports every file once, in the order [glob] gave them: when
    it returns, the lines "Successfully processed" and "Failed to process"
    it added to the log name the files in that order, and the second
    counter has grown by the number of files reported as processed. *)
Theorem batch_loop_reports_every_file env (a : Args.t) (input_files : list string) :
  forall fc sc st,
    match batch_loop env a input_files fc sc st with
    | (Return (fc', sc'), st') =>
        exists verdicts : list bool,
          length verdicts = length input_files /\
          filter (fun r => batch_record r = true) (log (snd st'))
          = (filter (fun r => batch_record r = true) (log (snd st))
             ++ zip_with (report env) input_files verdicts)%list /\
          sc' = sc + Z.of_nat (length (filter (fun ok => ok = true) verdicts))
    | (Raise _, _) => True
    end.
Proof.
  induction input_files as [|input rest IH]; intros fc sc st.
  - unfold_m. cbn [batch_loop]. unfold_m. exists []. cbn.
    rewrite app_nil_r. repeat split. lia.
  - cbn [batch_loop]. unfold mbind at 1, M_bind at 1.
    pose proof (process_file_filter env batch_record batch_not_of_process input
                  (path_join env (Args.output_folder a)
                     (str_replace ".parquet" "_combined.parquet" (basename env input)))
                  st) as Hf.
    destruct (process_file env input _ st) as [[[|]|e] [p1 w1]]; [| |exact Logic.I];
      cbn [fst snd] in Hf; unfold mbind at 1, M_bind at 1; unfold logger at 1;
      unfold set_world at 1; cbn [fst snd].
    + specialize (IH (fc + 1) (sc + 1)
                     (p1, with_log (log w1 ++ [FileSucceeded (basename env input)]) w1)).
      destruct (batch_loop env a rest _ _ _) as [[[fc' sc']|e] st']; [|exact Logic.I].
      destruct IH as (verdicts & Hlen & Hlog & Hsc).
      destruct w1 as [sc1 ar1 se1 lg1 ck1]. cbn [snd log with_log] in *.
      exists (true :: verdicts). cbn [length zip_with report].
      rewrite filter_cons_True by reflexivity. cbn [length].
      split; [now rewrite Hlen|]. split; [|lia].
      rewrite Hlog, filter_app, filter_cons_True by reflexivity.
      rewrite filter_nil, Hf. now rewrite <- app_assoc.
    + specialize (IH (fc + 1) sc
                     (p1, with_log (log w1 ++ [FileFailed (basename env input)]) w1)).
      destruct (batch_loop env a rest _ _ _) as [[[fc' sc']|e] st']; [|exact Logic.I].
      destruct IH as (verdicts & Hlen & Hlog & Hsc).
      destruct w1 as [sc1 ar1 se1 lg1 ck1]. cbn [snd log with_log] in *.
      exists (false :: verdicts). cbn [length zip_with report].
      rewrite filter_cons_False by discriminate.
      split; [now rewrite Hlen|]. split; [|lia].
      rewrite Hlog, filter_app, filter_cons_True by reflexivity.
      rewrite filter_nil, Hf. now rewrite <- app_assoc.
Qed.

(** ** The enrichment, row by row *)

Lemma update_from_none (tie : forall A : Type, list A -> option A) {S : Type}
    (joins : CalData.row -> S -> bool) (set : S -> CalData.row -> CalData.row)
    (source : list S) (r : CalData.row) :
  chooses tie ->
  (forall s, s ∈ source -> joins r s = false) ->
  update_from tie joins set source r = r.
Proof.
  intros Htie Hnone. unfold update_from.
  pose proof (Htie S (filter (fun s => joins r s = true) source)) as Hc.
  destruct (tie S _) as [s|]; [|reflexivity].
  apply list_elem_of_filter in Hc as [Hj Hs]. rewrite (Hnone s Hs) in Hj.
  discriminate.
Qed.

Lemma update_from_some (tie : forall A : Type, list A -> option A) {S : Type}
    (joins : CalData.row -> S -> bool) (set : S -> CalData.row -> CalData.row)
    (source : list S) (r : CalData.row) (s : S) :
  chooses tie -> s ∈ source -> joins r s = true ->
  exists s', s' ∈ source /\ joins r s' = true /\
             update_from tie joins set source r = set s' r.
Proof.
  intros Htie Hs Hj. unfold update_from.
  pose proof (Htie S (filter (fun s => joins r s = true) source)) as Hc.
  destruct (tie S _) as [s'|].
  - apply list_elem_of_filter in Hc as [Hj' Hs']. eauto.
  - assert (Hin : s ∈ filter (fun s => joins r s = true) source)
      by (apply list_elem_of_filter; auto).
    rewrite Hc in Hin. now apply elem_of_nil in Hin.
Qed.

(** The row of [cal_data] that the six statements make of an option row. *)
Lemma enrich_rows (tie : forall A : Type, list A -> option A) (db : database) :
  cal_data (enrich tie db) =
  (fun r =>
     set_moneyness
       (set_derived_columns
          (update_from tie joins_future set_future_columns (future_data db)
             (update_from tie joins_index set_index_columns (index_data db)
                (update_from tie joins_split set_split_columns (splits db) r)))))
  <$> (cal_data db ++ (seed_row <$> options db))%list.
Proof.
  unfold enrich, update_moneyness, update_derived, update_with_future,
    update_with_index, update_with_splits, populate_cal_data, with_cal_data.
  cbn [cal_data splits index_data future_data options].
  now rewrite <- !list_fmap_compose.
Qed.

Lemma update_from_split_keeps (tie : forall A : Type, list A -> option A)
    (source : list Splits.row) (r : CalData.row) :
  let r' := update_from tie joins_split set_split_columns source r in
  CalData.date r' = CalData.date r /\ CalData.time r' = CalData.time r /\
  CalData.spot r' = CalData.spot r /\ CalData.symbol r' = CalData.symbol r.
Proof.
  cbv zeta. unfold update_from. destruct (tie _ _); cbn; tauto.
Qed.

(** An option row quoted at a minute for which the file has no index
    quote (or whose date or time is NULL) stays in the table with a NULL
    spot, hence a NULL strike distance and a NULL bucket; it is counted in
    the NULL-spot warning, it is not a DEEP row, and it is exported. *)
Theorem row_without_index_quote (tie : forall A : Type, list A -> option A)
    (db : database) (o : Options.row) :
  chooses tie -> o ∈ options db ->
  (forall i, i ∈ index_data db -> joins_index (seed_row o) i = false) ->
  exists r,
    r ∈ cal_data (enrich tie db) /\ base_columns r = o /\
    CalData.spot r = None /\ CalData.strdifference r = None /\
    CalData.moneyness r = None /\
    0 < null_spots (enrich tie db) /\
    In r (export_rows (delete_deep (enrich tie db))).
Proof.
  intros Htie Ho Hnone.
  set (r0 := update_from tie joins_split set_split_columns (splits db) (seed_row o)).
  destruct (update_from_split_keeps tie (splits db) (seed_row o))
    as (Hd & Ht & Hsp & _). fold r0 in Hd, Ht, Hsp.
  assert (Hidx : update_from tie joins_index set_index_columns (index_data db) r0 = r0).
  { apply update_from_none; [exact Htie|]. intros i Hi.
    specialize (Hnone i Hi). unfold joins_index in *. now rewrite Hd, Ht. }
  set (r1 := update_from tie joins_future set_future_columns (future_data db) r0).
  assert (Hspot : CalData.spot r1 = None).
  { subst r1. unfold update_from. destruct (tie _ _); cbn; exact Hsp. }
  set (r := set_moneyness (set_derived_columns r1)).
  assert (Hin : r ∈ cal_data (enrich tie db)).
  { rewrite enrich_rows. apply list_elem_of_fmap. exists (seed_row o).
    split; [subst r r1; cbv beta; fold r0; now rewrite Hidx|].
    apply elem_of_app. right. apply list_elem_of_fmap. eauto. }
  assert (Hstr : CalData.strdifference r = None).
  { subst r. cbn. rewrite Hspot. now destruct (CalData.strike_price r1). }
  assert (Hmon : CalData.moneyness r = None).
  { subst r. cbn. rewrite Hspot.
    replace (sql_sub (CalData.strike_price r1) None) with (@None Z)
      by now destruct (CalData.strike_price r1).
    apply moneyness_null_distance. }
  exists r. split; [exact Hin|]. split.
  { subst r r1 r0. cbn. unfold update_from. repeat destruct (tie _ _); cbn;
      now destruct o. }
  split; [subst r; exact Hspot|]. split; [exact Hstr|]. split; [exact Hmon|].
  split.
  - unfold null_spots, count_rows.
    assert (Hf : r ∈ filter (fun r => CalData.spot r = None) (cal_data (enrich tie db)))
      by (apply list_elem_of_filter; split; [subst r; exact Hspot | exact Hin]).
    destruct (filter _ _) as [|x l]; [now apply elem_of_nil in Hf | cbn [length]; lia].
  - destruct (exported_rows_spec (enrich tie db)) as (_ & Hiff & _).
    apply Hiff. split; [now apply list_elem_of_In|].
    unfold is_deep. now rewrite Hmon.
Qed.

Lemma first_match_chooses : chooses first_match.
Proof. intros A [|x l]; cbn; [reflexivity | left]. Qed.

Lemma row_without_index_quote_witness :
  exists r,
    r ∈ cal_data (enrich first_match sample_database) /\
    base_columns r = sample_option "BANKNIFTY25JAN2448000CE" jan02 t0916 7 /\
    CalData.spot r = None /\ CalData.moneyness r = None /\
    In r (export_rows (delete_deep (enrich first_match sample_database))).
Proof.
  destruct (row_without_index_quote first_match sample_database
              (sample_option "BANKNIFTY25JAN2448000CE" jan02 t0916 7)
              first_match_chooses)
    as (r & Hin & Hbase & Hspot & _ & Hmon & _ & Hout).
  - apply list_elem_of_In. cbn. tauto.
  - intros i Hi. apply list_elem_of_In in Hi. cbn in Hi.
    destruct Hi as [<- | [<- | []]]; reflexivity.
  - exists r. auto.
Defined.

Lemma holds_sql_eq {A : Type} `{EqDecision A} (a b : option A) :
  holds (sql_eq a b) = true <-> exists x, a = Some x /\ b = Some x.
Proof.
  destruct a as [x|], b as [y|]; cbn;
    try (split; [discriminate | intros (z & [=] & [=])]).
  destruct (decide (x = y)) as [->|Hne].
  - rewrite bool_decide_eq_true_2 by reflexivity. split; eauto.
  - rewrite bool_decide_eq_false_2 by assumption.
    split; [discriminate | intros (z & [= ->] & [= ->]); congruence].
Qed.

(** The statement of step 5.2 joins on the symbol alone, and [splits] can
    hold several rows of one symbol (one per trade date).  The rows of one
    symbol that [INSERT INTO splits] made agree on the columns the
    statement copies, so whichever of them the engine uses, the result is
    the same. *)
Theorem split_backfill_independent_of_choice
    (tie1 tie2 : forall A : Type, list A -> option A) (db0 db db' : database) :
  chooses tie1 -> chooses tie2 ->
  splits db0 = [] -> insert_splits db0 = Converted db ->
  splits db' = splits db ->
  update_with_splits tie1 db' = update_with_splits tie2 db'.
Proof.
  intros H1 H2 Hempty Hins Hsame.
  unfold insert_splits in Hins.
  apply bind_Converted in Hins as (rows & Hrows & [= <-]).
  cbn [splits] in Hsame. rewrite Hempty in Hsame. cbn [app] in Hsame.
  unfold update_with_splits. f_equal. apply list_fmap_ext. intros _ r _.
  unfold update_from. rewrite Hsame.
  pose proof (H1 _ (filter (fun s => joins_split r s = true) rows)) as Hc1.
  pose proof (H2 _ (filter (fun s => joins_split r s = true) rows)) as Hc2.
  destruct (tie1 _ _) as [s1|], (tie2 _ _) as [s2|]; try reflexivity.
  - apply list_elem_of_filter in Hc1 as [Hj1 Hs1].
    apply list_elem_of_filter in Hc2 as [Hj2 Hs2].
    unfold joins_split in Hj1, Hj2.
    apply holds_sql_eq in Hj1 as (x1 & Hr1 & Hx1).
    apply holds_sql_eq in Hj2 as (x2 & Hr2 & Hx2).
    assert (Hsym : Splits.symbol s1 = Splits.symbol s2) by congruence.
    apply (elem_of_new_splits _ _ _ Hrows) in Hs1 as (o1 & p1 & _ & _ & Hp1 & _ & Hq1).
    apply (elem_of_new_splits _ _ _ Hrows) in Hs2 as (o2 & p2 & _ & _ & Hp2 & _ & Hq2).
    destruct (parse_option_row_Converted _ _ Hp1) as (Hps1 & _).
    destruct (parse_option_row_Converted _ _ Hp2) as (Hps2 & _).
    destruct (split_of_parsed_Converted _ _ Hq1) as (Hrs1 & _).
    destruct (split_of_parsed_Converted _ _ Hq2) as (Hrs2 & _).
    destruct (split_columns_of_symbol o1 o2 p1 p2 s1 s2) as (Hi & He & Hk & Ht);
      try assumption; [congruence|].
    unfold set_split_columns. now rewrite Hi, He, Hk, Ht.
  - rewrite Hc2 in Hc1. now apply elem_of_nil in Hc1.
  - rewrite Hc1 in Hc2. now apply elem_of_nil in Hc2.
Qed.

Lemma last_match_chooses : chooses last_match.
Proof.
  intros A l. unfold last_match. destruct (last l) as [x|] eqn:Hl.
  - apply last_Some in Hl as [l' ->]. apply elem_of_app. right. left.
  - now apply last_None in Hl.
Qed.

Lemma split_backfill_independent_of_choice_witness :
  update_with_splits first_match (populate_cal_data sample_decomposed)
  = update_with_splits last_match (populate_cal_data sample_decomposed).
Proof.
  exact (split_backfill_independent_of_choice first_match last_match
           sample_database sample_decomposed (populate_cal_data sample_decomposed)
           first_match_chooses last_match_chooses eq_refl sample_insert_splits
           eq_refl).
Defined.

(** The derived columns are computed after the back-fills, from what they
    filled in: for an option row whose symbol has split rows, all with the
    strike, type and expiry date of [s], and whose minute has index quotes,
    all closing as [i], the enriched row carries the strike, the type and
    the expiry date of [s], the close of [i] as spot, strike minus spot as
    strike distance, the days from the trade date to the expiry date, the
    weekday of the expiry date, and the bucket of its type and distance. *)
Theorem row_of_quoted_contract (tie : forall A : Type, list A -> option A)
    (db : database) (o : Options.row) (s : Splits.row) (i : IndexData.row) :
  chooses tie -> o ∈ options db ->
  s ∈ splits db -> joins_split (seed_row o) s = true ->
  (forall s', s' ∈ splits db -> joins_split (seed_row o) s' = true ->
     Splits.strike_price s' = Splits.strike_price s /\
     Splits.option_type s' = Splits.option_type s /\
     Splits.expiry_date s' = Splits.expiry_date s) ->
  i ∈ index_data db -> joins_index (seed_row o) i = true ->
  (forall i', i' ∈ index_data db -> joins_index (seed_row o) i' = true ->
     IndexData.idx_close i' = IndexData.idx_close i) ->
  exists r,
    r ∈ cal_data (enrich tie db) /\ base_columns r = o /\
    CalData.strike_price r = Splits.strike_price s /\
    CalData.option_type r = Splits.option_type s /\
    CalData.expiry_date r = Splits.expiry_date s /\
    CalData.spot r = IndexData.idx_close i /\
    CalData.strdifference r
      = sql_sub (Splits.strike_price s) (IndexData.idx_close i) /\
    CalData.dte r = date_diff_day (Options.date o) (Splits.expiry_date s) /\
    CalData.expiry_day r = extract_dow (Splits.expiry_date s) /\
    CalData.moneyness r
      = moneyness (Splits.option_type s)
          (sql_sub (Splits.strike_price s) (IndexData.idx_close i)).
Proof.
  intros Htie Ho Hs Hjs Hsame Hi Hji Hclose.
  destruct (update_from_some tie joins_split set_split_columns (splits db)
              (seed_row o) s Htie Hs Hjs) as (s' & Hs' & Hjs' & Hupd1).
  destruct (Hsame s' Hs' Hjs') as (Hk & Ht & He).
  set (r0 := set_split_columns s' (seed_row o)).
  assert (Hji0 : forall x, joins_index r0 x = joins_index (seed_row o) x)
    by reflexivity.
  destruct (update_from_some tie joins_index set_index_columns (index_data db)
              r0 i Htie Hi) as (i' & Hi' & Hji' & Hupd2);
    [now rewrite Hji0|].
  rewrite Hji0 in Hji'. pose proof (Hclose i' Hi' Hji') as Hc.
  set (r1 := set_index_columns i' r0).
  set (r2 := update_from tie joins_future set_future_columns (future_data db) r1).
  set (r := set_moneyness (set_derived_columns r2)).
  assert (Hr2 : CalData.strike_price r2 = Splits.strike_price s /\
                CalData.option_type r2 = Splits.option_type s /\
                CalData.expiry_date r2 = Splits.expiry_date s /\
                CalData.spot r2 = IndexData.idx_close i /\
                CalData.date r2 = Options.date o /\
                base_columns r2 = o).
  { subst r2. unfold update_from. destruct (tie _ _); subst r1 r0; cbn;
      rewrite Hk, Ht, He, Hc; destruct o; repeat split. }
  destruct Hr2 as (R1 & R2 & R3 & R4 & R5 & R6).
  exists r. split.
  { rewrite enrich_rows. apply list_elem_of_fmap. exists (seed_row o).
    split; [|apply elem_of_app; right; apply list_elem_of_fmap; eauto].
    subst r r2 r1 r0. cbv beta. now rewrite Hupd1, Hupd2. }
  subst r. cbn. rewrite R1, R2, R3, R4, R5.
  repeat split; try reflexivity. exact R6.
Qed.

Lemma row_of_quoted_contract_witness :
  exists r,
    r ∈ cal_data (enrich first_match sample_decomposed) /\
    CalData.strdifference r = Some (-205) /\
    CalData.dte r = Some 23 /\ CalData.expiry_day r = Some 4 /\
    CalData.moneyness r = Some "ATM-5".
Proof.
  destruct (row_of_quoted_contract first_match sample_decomposed
              (sample_option "NIFTY25JAN2421500CE" jan02 t0915 310)
              (Splits.mk (Some "NIFTY25JAN2421500CE") (Some "NIFTY")
                 (Some (mkdate 2024 1 25)) (Some 21500) (Some "CE") (Some jan02))
              (IndexData.mk (Some jan02) (Some t0915) (Some 21700) (Some 21710)
                 (Some 21690) (Some 21705))
              first_match_chooses)
    as (r & Hin & _ & _ & _ & _ & _ & Hd & Hdte & Hday & Hm).
  - apply list_elem_of_In. vm_compute. tauto.
  - apply list_elem_of_In. vm_compute. tauto.
  - reflexivity.
  - intros s' Hs' Hj. apply list_elem_of_In in Hs'. vm_compute in Hs'.
    destruct Hs' as [<- | [<- | [<- | []]]]; try discriminate Hj; repeat split.
  - apply list_elem_of_In. vm_compute. tauto.
  - reflexivity.
  - intros i' Hi' Hj. apply list_elem_of_In in Hi'. vm_compute in Hi'.
    destruct Hi' as [<- | [<- | []]]; [reflexivity | discriminate Hj].
  - exists r. split; [exact Hin|]. rewrite Hd, Hdte, Hday, Hm.
    repeat split; vm_compute; reflexivity.
Defined.

Lemma moneyness_null_type (x : option Z) : moneyness None x = None.
Proof. apply moneyness_null_iff. left. split; discriminate. Qed.

(** An option row whose symbol does not begin with NIFTY (the extraction
    keeps every symbol that contains CE or PE) is no candidate of the
    decomposition: no split row has its symbol, so its instrument, expiry
    date, strike and type stay NULL, its bucket is NULL, and it is
    exported with the rest. *)
Theorem row_of_other_symbol (tie : forall A : Type, list A -> option A)
    (db0 db : database) (o : Options.row) :
  chooses tie -> splits db0 = [] -> insert_splits db0 = Converted db ->
  o ∈ options db -> holds (like_NIFTY (Options.symbol o)) = false ->
  exists r,
    r ∈ cal_data (enrich tie db) /\ base_columns r = o /\
    CalData.instrument r = None /\ CalData.expiry_date r = None /\
    CalData.strike_price r = None /\ CalData.option_type r = None /\
    CalData.strdifference r = None /\ CalData.moneyness r = None /\
    In r (export_rows (delete_deep (enrich tie db))).
Proof.
  intros Htie Hempty Hins Ho Hother.
  assert (Hnone : forall s, s ∈ splits db -> joins_split (seed_row o) s = false).
  { intros s Hs. unfold insert_splits in Hins.
    apply bind_Converted in Hins as (rows & Hrows & [= <-]).
    cbn [splits options] in *. rewrite Hempty in Hs. cbn [app] in Hs.
    apply (elem_of_new_splits _ _ _ Hrows) in Hs as (o' & p' & _ & Hc & Hp & _ & Hq).
    destruct (parse_option_row_Converted _ _ Hp) as (Hps & _).
    destruct (split_of_parsed_Converted _ _ Hq) as (Hrs & _).
    unfold joins_split. cbn [CalData.symbol seed_row].
    destruct (holds (sql_eq (Options.symbol o) (Splits.symbol s))) eqn:Hj;
      [|reflexivity].
    apply holds_sql_eq in Hj as (x & Hx & Hy).
    rewrite Hrs, Hps in Hy. rewrite Hx in Hother. rewrite Hy in Hc. congruence. }
  assert (Hsplit : update_from tie joins_split set_split_columns (splits db) (seed_row o)
                   = seed_row o) by now apply update_from_none.
  set (r1 := update_from tie joins_index set_index_columns (index_data db) (seed_row o)).
  set (r2 := update_from tie joins_future set_future_columns (future_data db) r1).
  set (r := set_moneyness (set_derived_columns r2)).
  assert (Hr2 : CalData.instrument r2 = None /\ CalData.expiry_date r2 = None /\
                CalData.strike_price r2 = None /\ CalData.option_type r2 = None /\
                base_columns r2 = o).
  { subst r2 r1. unfold update_from. repeat destruct (tie _ _); cbn;
      destruct o; repeat split. }
  destruct Hr2 as (R1 & R2 & R3 & R4 & R5).
  assert (Hin : r ∈ cal_data (enrich tie db)).
  { rewrite enrich_rows. apply list_elem_of_fmap. exists (seed_row o).
    split; [subst r r2 r1; cbv beta; now rewrite Hsplit|].
    apply elem_of_app. right. apply list_elem_of_fmap. eauto. }
  assert (Hmon : CalData.moneyness r = None).
  { subst r. cbn [CalData.moneyness set_moneyness CalData.option_type
                    set_derived_columns].
    rewrite R4. apply moneyness_null_type. }
  exists r. split; [exact Hin|].
  split; [exact R5|]. split; [exact R1|]. split; [exact R2|].
  split; [exact R3|]. split; [exact R4|].
  split.
  { change (CalData.strdifference r)
      with (sql_sub (CalData.strike_price r2) (CalData.spot r2)).
    now rewrite R3. }
  split; [exact Hmon|].
  destruct (exported_rows_spec (enrich tie db)) as (_ & Hiff & _).
  apply Hiff. split; [now apply list_elem_of_In|].
  unfold is_deep. now rewrite Hmon.
Qed.

Lemma row_of_other_symbol_witness :
  exists r,
    r ∈ cal_data (enrich first_match sample_decomposed) /\
    CalData.symbol r = Some "BANKNIFTY25JAN2448000CE" /\
    CalData.strike_price r = None /\ CalData.moneyness r = None /\
    In r (export_rows (delete_deep (enrich first_match sample_decomposed))).
Proof.
  destruct (row_of_other_symbol first_match sample_database sample_decomposed
              (sample_option "BANKNIFTY25JAN2448000CE" jan02 t0916 7)
              first_match_chooses eq_refl sample_insert_splits)
    as (r & Hin & Hbase & _ & _ & Hk & _ & _ & Hm & Hout).
  - apply list_elem_of_In. vm_compute. tauto.
  - vm_compute. reflexivity.
  - exists r. split; [exact Hin|]. split; [|exact (conj Hk (conj Hm Hout))].
    apply (f_equal Options.symbol) in Hbase. exact Hbase.
Defined.

(** ** The names of the scratch database and of the output *)

Lemma replace_from_skip (t old new post : string) :
  replace_from (String.length t) old new (String.append t post)
  = replace_from O old new post.
Proof.
  induction t as [|c t IH]; push_append; [now destruct post|].
  cbn [String.length replace_from]. exact IH.
Qed.

(** [str.replace] leaves a text without an occurrence of [old] as it is. *)
Lemma str_replace_absent (old new s : string) :
  (forall pre post, s <> String.append pre (String.append old post)) ->
  str_replace old new s = s.
Proof.
  unfold str_replace. induction s as [|c s IH]; intros Habsent; [reflexivity|].
  cbn [replace_from].
  destruct (String.prefix old (String c s)) eqn:Hp.
  - apply prefix_append in Hp as [rest Hrest]. now destruct (Habsent "" rest).
  - rewrite IH; [reflexivity|]. intros pre post ->.
    now apply (Habsent (String c pre) post).
Qed.

(** It replaces the first occurrence and goes on after it. *)
Lemma str_replace_first (old new pre post : string) :
  old <> "" ->
  (forall pre' post',
     String.append pre (String.append old post)
     = String.append pre' (String.append old post') ->
     (String.length pre <= String.length pre')%nat) ->
  str_replace old new (String.append pre (String.append old post))
  = String.append pre (String.append new (str_replace old new post)).
Proof.
  intros Hold. unfold str_replace. induction pre as [|c pre IH]; intros Hfirst.
  - push_append. destruct old as [|c old]; [congruence|]. push_append.
    cbn [replace_from].
    rewrite (proj2 (prefix_append (String c old) (String c (String.append old post))))
      by (exists post; now push_append).
    cbn [String.length].
    replace (S (String.length old) - 1)%nat with (String.length old) by lia.
    now rewrite replace_from_skip.
  - push_append. cbn [replace_from].
    destruct (String.prefix old (String c (String.append pre (String.append old post))))
      eqn:Hp.
    + apply prefix_append in Hp as [rest Hrest].
      specialize (Hfirst "" rest). push_append.
      cbn [String.length] in Hfirst. specialize (Hfirst Hrest). lia.
    + f_equal. apply IH. intros pre' post' Heq.
      specialize (Hfirst (String c pre') post'). push_append.
      cbn [String.length] in Hfirst. rewrite Heq in Hfirst.
      specialize (Hfirst eq_refl). lia.
Qed.

(** The scratch database of an input file and the name of its output are
    made with [str.replace], which replaces every occurrence of [.parquet]
    and not only the extension.  A name in which [.parquet] does not occur
    (the file pattern is an option of the command line) is left as it is:
    the scratch database then has the path of the input file itself, and
    the output the name of the input.  Otherwise the first occurrence is
    replaced and the rest of the name is treated the same way. *)
Theorem file_names_by_replacement :
  (forall f,
     (forall pre post, f <> String.append pre (String.append ".parquet" post)) ->
     scratch_file f = f /\ str_replace ".parquet" "_combined.parquet" f = f) /\
  (forall pre post,
     (forall pre' post',
        String.append pre (String.append ".parquet" post)
        = String.append pre' (String.append ".parquet" post') ->
        (String.length pre <= String.length pre')%nat) ->
     scratch_file (String.append pre (String.append ".parquet" post))
     = String.append pre (String.append ".duckdb" (scratch_file post)) /\
     str_replace ".parquet" "_combined.parquet"
       (String.append pre (String.append ".parquet" post))
     = String.append pre
         (String.append "_combined.parquet"
            (str_replace ".parquet" "_combined.parquet" post))).
Proof.
  split.
  - intros f Habsent. unfold scratch_file.
    split; now apply str_replace_absent.
  - intros pre post Hfirst. unfold scratch_file.
    split; apply str_replace_first; (discriminate || exact Hfirst).
Qed.

Example file_names_sample :
  scratch_file "in/nifty_2024-01.parquet" = "in/nifty_2024-01.duckdb" /\
  str_replace ".parquet" "_combined.parquet" "nifty_2024-01.parquet"
  = "nifty_2024-01_combined.parquet" /\
  scratch_file "in/nifty_2024-01.pq" = "in/nifty_2024-01.pq" /\
  scratch_file "in/old.parquet.parquet" = "in/old.duckdb.duckdb".
Proof. repeat split; reflexivity. Qed.

(** ** The warning about unparsed symbols *)

(** The stage logs the warning about unparsed symbols and the sample of
    them only when the count of candidate rows without a split row is
    positive, and after an [INSERT] that went through that count is 0: in
    no state and under no fault does [create_split_data] log either. *)
Theorem unparsed_warning_never_logged env (st : state) :
  let st' := snd (create_split_data env st) in
  (forall n, In (UnparsedWarning n) (log (snd st')) ->
             In (UnparsedWarning n) (log (snd st))) /\
  (forall l, In (UnparsedSample l) (log (snd st')) ->
             In (UnparsedSample l) (log (snd st))).
Proof.
  cbv zeta. destruct st as [[mp v kt [path|] cf co d rc ff] [sc ar se lg ck]].
  - set (db := default empty_database (sc !! path)).
    assert (Hdb : from_option id empty_database (sc !! path) = db) by reflexivity.
    unfold create_split_data, validate_data.
    destruct (insert_splits db) as [db'|msg] eqn:Hins.
    + destruct (insert_splits_no_failures db db' Hins) as [_ Hfc].
      destruct v; run_faults ltac:(rewrite ?Hdb, ?Hins, ?Hfc); try lia;
        cbn [snd log]; split; intros x; rewrite ?in_app_iff; cbn [In];
        intuition discriminate.
    + destruct v; run_faults ltac:(rewrite ?Hdb, ?Hins);
        cbn [snd log]; split; intros x; rewrite ?in_app_iff; cbn [In];
        intuition discriminate.
  - unfold create_split_data, validate_data.
    destruct v; run_faults idtac;
      cbn [snd log]; split; intros x; rewrite ?in_app_iff; cbn [In];
      intuition discriminate.
Qed.

(** ** A file without faults and without validation *)

(** Run [process_file] on an explicit state in an environment without
    faults. *)
Ltac run_file Hff rw :=
  repeat (unfold_m;
          repeat match goal with
                 | |- context [fault ?e ?n ?c] => rewrite (Hff n c)
                 end;
          rw; rewrite ?lookup_insert_eq;
          cbn [from_option id negb andb];
          try match goal with
              | |- context [bool_decide (is_Some (Some ?x))] =>
                  rewrite (bool_decide_eq_true_2 (is_Some (Some x))) by eauto
              | |- context [if ?a <? ?b then _ else _] =>
                  destruct (Z.ltb_spec a b)
              end).

(** With validation off and no fault, what [process_file] does is a
    function of the rows of the input file and of what the scratch
    database already holds, if the file exists (a file kept from an
    earlier run is opened, not created anew, and its rows are processed
    again).  When the decomposition statement goes through, the file is
    processed: the output holds the enriched rows that are not DEEP, in
    the order of the export.  When it stops on a conversion error, the
    file fails and nothing is written.  Either way the scratch database is
    removed unless scratch files are kept. *)
Theorem process_file_quiet env (input output : string) p w :
  fault_free env -> validate p = false -> conn p = None -> input <> "" ->
  let dbf := scratch_file input in
  let db0 := default empty_database (scratch w !! dbf) in
  match insert_splits (load env input db0) with
  | Converted db1 =>
      let db2 := delete_deep (enrich (tie_break env) db1) in
      exists p' w',
        process_file env input output (p, w) = (Return true, (p', w')) /\
        artifacts w' = <[output := export_rows db2]> (artifacts w) /\
        scratch w' !! dbf = (if keep_temp p then Some db2 else None) /\
        (forall k, k <> dbf -> scratch w' !! k = scratch w !! k) /\
        failed_files p' = failed_files p
  | ConversionError msg =>
      exists p' w',
        process_file env input output (p, w) = (Return false, (p', w')) /\
        artifacts w' = artifacts w /\
        In (StageError "split" (String.append "Conversion Error: " msg)) (log w') /\
        scratch w' !! dbf
        = (if keep_temp p then Some (load env input db0) else None) /\
        (forall k, k <> dbf -> scratch w' !! k = scratch w !! k) /\
        failed_files p' = failed_files p
  end.
Proof.
  intros Hff Hv Hc Hinput dbf db0.
  assert (Hname : String.eqb dbf "" = false).
  { apply String.eqb_neq, str_replace_nonempty; [discriminate | assumption]. }
  destruct p as [mp v kt c cf co d rc ff], w as [sc ar se lg ck].
  cbn in Hv, Hc. subst v c. cbn [scratch] in db0.
  assert (Hdb0 : from_option id empty_database (sc !! dbf) = db0) by reflexivity.
  unfold load, enrich.
  destruct (insert_splits _) as [db1|msg] eqn:Hins.
  - destruct (insert_splits_no_failures _ db1 Hins) as [_ Hfc].
    cbv zeta.
    unfold process_file, create_option_data, create_index_data, create_future_data,
      create_split_data, create_cal_data, filter_and_export, copy_to_parquet,
      validate_data, cleanup, current_input.
    fold (scratch_file input). fold dbf.
    destruct kt;
      run_file Hff ltac:(rewrite ?Hdb0, ?Hins, ?Hfc, ?Hname); try lia.
    all: eexists _, _; (split; [reflexivity|]); cbn [artifacts scratch failed_files].
    all: repeat split; rewrite ?lookup_insert_eq, ?lookup_delete_eq; try reflexivity.
    all: intros k Hk;
      rewrite ?lookup_delete_ne by congruence;
      now rewrite !lookup_insert_ne by congruence.
  - unfold process_file, create_option_data, create_index_data, create_future_data,
      create_split_data, create_cal_data, filter_and_export, copy_to_parquet,
      validate_data, cleanup, current_input.
    fold (scratch_file input). fold dbf.
    destruct kt;
      run_file Hff ltac:(rewrite ?Hdb0, ?Hins, ?Hname); try lia.
    all: eexists _, _; (split; [reflexivity|]); cbn [artifacts scratch failed_files log].
    all: repeat split; rewrite ?lookup_insert_eq, ?lookup_delete_eq; try reflexivity.
    all: try (rewrite !in_app_iff; cbn [In]; tauto).
    all: intros k Hk;
      rewrite ?lookup_delete_ne by congruence;
      now rewrite !lookup_insert_ne by congruence.
Qed.

Lemma process_file_quiet_witness :
  exists p' w' rows,
    process_file quiet_env "nifty_2024-01.parquet"
      "out/nifty_2024-01_combined.parquet" unvalidated_start
    = (Return true, (p', w')) /\
    artifacts w' !! "out/nifty_2024-01_combined.parquet" = Some rows /\
    scratch w' !! "nifty_2024-01.duckdb" = None.
Proof.
  pose proof (process_file_quiet quiet_env "nifty_2024-01.parquet"
                "out/nifty_2024-01_combined.parquet"
                (fst unvalidated_start) (snd unvalidated_start)
                quiet_env_fault_free eq_refl eq_refl ltac:(discriminate)) as H.
  cbv zeta in H.
  destruct (insert_splits _) as [db1|msg] eqn:Hins in H.
  - destruct H as (p' & w' & Hrun & Hart & Hsc & _).
    exists p', w'. eexists. split; [exact Hrun|]. split; [|exact Hsc].
    rewrite Hart. apply lookup_insert_eq.
  - vm_compute in Hins. discriminate Hins.
Defined.

(** A scratch database kept from an earlier run is read again: the second
    run of the same file, with scratch files kept, exports the rows of the
    first run once more, besides those it adds. *)
Example process_file_twice_with_kept_scratch :
  let kept := (new_processor (Args.mk "in" "out" true 75 false "*.parquet"),
               fresh_world) in
  let once := process_file quiet_env "nifty_2024-01.parquet" "out/a.parquet" kept in
  let twice := process_file quiet_env "nifty_2024-01.parquet" "out/b.parquet"
                 (snd once) in
  fst once = Return true /\ fst twice = Return true /\
  (length <$> artifacts (snd (snd twice)) !! "out/a.parquet") = Some 3%nat /\
  (length <$> artifacts (snd (snd twice)) !! "out/b.parquet") = Some 9%nat.
Proof. vm_compute. repeat split. Qed.

(** ** Empty relations at the gates *)

(** With validation on, [create_cal_data] runs no statement unless each of
    the four relations it combines has a row: it returns false, logs that
    it cannot proceed, and leaves the database as it is. *)
Theorem create_cal_data_needs_all_relations env p w path db :
  fault_free env -> validate p = true ->
  conn p = Some path -> scratch w !! path = Some db ->
  options db = [] \/ splits db = [] \/ index_data db = [] \/ future_data db = [] ->
  exists p' w',
    create_cal_data env (p, w) = (Return false, (p', w')) /\
    scratch w' = scratch w /\ artifacts w' = artifacts w /\
    In (CannotProceed "calibration") (log w').
Proof.
  intros Hff Hv Hc Hdb Hempty.
  destruct p as [mp v kt c cf co d rc ff], w as [sc ar se lg ck].
  cbn in Hv, Hc, Hdb. subst v c.
  unfold create_cal_data, validate_data.
  destruct Hempty as [He|[He|[He|He]]];
    run_quiet Hff ltac:(rewrite ?Hdb; rewrite ?He in *; cbn [length] in *;
                        try (exfalso; lia)).
  all: eexists _, _; (split; [reflexivity|]); cbn [scratch artifacts log].
  all: repeat split; rewrite ?in_app_iff; cbn [In]; tauto.
Qed.

Lemma create_cal_data_needs_all_relations_witness :
  exists p' w',
    create_cal_data quiet_env (sample_processor true, sample_world sample_database)
    = (Return false, (p', w')) /\
    In (CannotProceed "calibration") (log w').
Proof.
  destruct (create_cal_data_needs_all_relations quiet_env (sample_processor true)
              (sample_world sample_database) "nifty_2024-01.duckdb" sample_database
              quiet_env_fault_free eq_refl eq_refl (sample_world_lookup _))
    as (p' & w' & Hrun & _ & _ & Hlog).
  - right. left. reflexivity.
  - exists p', w'. auto.
Defined.

(** An empty enriched table at the export: with validation on the export
    is refused and nothing is written; with validation off the table is
    exported as an empty artifact and the stage succeeds. *)
Theorem export_of_empty_table env p w path db out :
  fault_free env ->
  conn p = Some path -> scratch w !! path = Some db ->
  current_output p = Some out -> cal_data db = [] ->
  exists p' w',
    filter_and_export env (p, w) = (Return (negb (validate p)), (p', w')) /\
    (validate p = true ->
       artifacts w' = artifacts w /\ In (CannotProceed "export") (log w')) /\
    (validate p = false ->
       artifacts w' = <[out := []]> (artifacts w) /\ In (Exported 0 out) (log w')).
Proof.
  intros Hff Hc Hdb Hout Hempty.
  destruct p as [mp v kt c cf co d rc ff], w as [sc ar se lg ck].
  cbn in Hc, Hdb, Hout. subst c co.
  assert (Hdel : cal_data (delete_deep db) = []) by (cbn; now rewrite Hempty).
  assert (Hexp : export_rows (delete_deep db) = [])
    by (unfold export_rows; now rewrite Hdel).
  unfold filter_and_export, copy_to_parquet, validate_data.
  destruct v;
    run_quiet Hff ltac:(rewrite ?Hdb, ?Hdel, ?Hexp; rewrite ?Hempty in *;
                        cbn [length] in *; try (exfalso; lia)).
  all: eexists _, _; (split; [reflexivity|]); cbn [validate artifacts log].
  all: unfold count_rows; cbn [length Z.of_nat].
  all: split; intros Hv; try discriminate Hv.
  all: split; [reflexivity|]; rewrite ?in_app_iff; cbn [In]; tauto.
Qed.

Lemma export_of_empty_table_witness :
  exists p' w',
    filter_and_export quiet_env
      (sample_processor false, sample_world empty_database)
    = (Return true, (p', w')) /\
    artifacts w' !! "nifty_2024-01_combined.parquet" = Some [].
Proof.
  destruct (export_of_empty_table quiet_env (sample_processor false)
              (sample_world empty_database) "nifty_2024-01.duckdb" empty_database
              "nifty_2024-01_combined.parquet"
              quiet_env_fault_free eq_refl (sample_world_lookup _) eq_refl eq_refl)
    as (p' & w' & Hrun & _ & Hoff).
  exists p', w'. split; [exact Hrun|].
  destruct (Hoff eq_refl) as [-> _]. apply lookup_insert_eq.
Defined.
